(** * Task layout and group-interval engine: a shallow embedding

    The calendar view packs the tasks of a week into lanes, drives the
    move/resize drag gestures and creates groups; the group view unlinks
    tasks and deletes groups.  The definitions below follow the handlers of
    [CalendarView] and [GroupRelationshipView] statement by statement. *)

From Stdlib Require Import ZArith QArith Qround Qabs Qpower Lia.
From stdpp Require Import base option list strings gmap sorting.
From stdpp Require Import pretty.

Local Open Scope Z_scope.

(** ** Dates

    Tasks store their dates as ISO strings; every handler parses them on
    entry ([parseISO]) and writes them back with [toISOString].  Parsing
    what [toISOString] wrote gives the same instant, so the model keeps the
    instant itself: a [Date] is the number of milliseconds of local time
    since 1970-01-01T00:00 local, in a zone with a fixed offset (no daylight
    saving shift).  [getTime] differs from it by the constant zone offset,
    which every comparison and difference in the handlers cancels. *)

Module DateFns.

Abbreviation Date := Z.

Definition MS_PER_DAY : Z := 86400000.

(** [new Date(y, m - 1, d)]: local midnight of a civil date. *)
Definition daysFromCivil (y m d : Z) : Z :=
  let y' := if m <=? 2 then y - 1 else y in
  let era := y' / 400 in
  let yoe := y' - era * 400 in
  let mp := if m >? 2 then m - 3 else m + 9 in
  let doy := (153 * mp + 2) / 5 + d - 1 in
  let doe := yoe * 365 + yoe / 4 - yoe / 100 + doy in
  era * 146097 + doe - 719468.

Definition localDate (y m d : Z) : Date := daysFromCivil y m d * MS_PER_DAY.

(** date-fns [addDays]: [setDate(getDate() + amount)]. *)
Definition addDays (d : Date) (amount : Z) : Date := d + amount * MS_PER_DAY.

(** date-fns [differenceInDays]: the number of full days between the two
    dates, truncated towards zero. *)
Definition differenceInDays (dateLeft dateRight : Date) : Z :=
  Z.quot (dateLeft - dateRight) MS_PER_DAY.

(** [getDay]: 0 is Sunday; 1970-01-01 was a Thursday. *)
Definition getDay (d : Date) : Z := (d / MS_PER_DAY + 4) mod 7.

(** date-fns [endOfWeek] with [weekStartsOn: 0]: the last millisecond of
    the Saturday of the week of [d]. *)
Definition endOfWeek (d : Date) : Date :=
  (d / MS_PER_DAY + (6 - getDay d)) * MS_PER_DAY + (MS_PER_DAY - 1).

(** A date at local midnight. *)
Definition atMidnight (d : Date) : Prop := d mod MS_PER_DAY = 0.

End DateFns.

(** ** The parts of the JavaScript library the handlers use *)

Module Js.

Section Sort.
Context {A : Type} (compareFn : A -> A -> Z).

(** [Array.prototype.sort] with a comparator that is a consistent
    ordering: the sort is stable, and every stable sort returns the list
    this one returns ([sorted_classes_unique] below).  With any other
    comparator the language leaves the order to the implementation, and
    this list stands for no more than a permutation of the input. *)
Fixpoint insert (x : A) (l : list A) : list A :=
  match l with
  | [] => [x]
  | y :: l' => if compareFn x y <=? 0 then x :: y :: l' else y :: insert x l'
  end.

Fixpoint sort (l : list A) : list A :=
  match l with
  | [] => []
  | x :: l' => insert x (sort l')
  end.
End Sort.

(** [Array.prototype.find]: the first element that satisfies the
    predicate.  ([list_find] also gives its index, as [findIndex] does.) *)
Definition find {A} (P : A -> Prop) `{!forall x, Decision (P x)} (l : list A) : option A :=
  snd <$> list_find P l.

(** [slice(0, -1)]: all but the last element. *)
Definition sliceInit {A} (l : list A) : list A := take (length l - 1)%nat l.

(** Numbers are IEEE 754 doubles.  A number is held as the rational it
    denotes, and an arithmetic operation gives its exact result rounded to
    the nearest double, the one with the even significand of two that are
    equally near.  The exponent is not bounded: a result beyond 1.8e308 or
    within 2.3e-308 of zero, where a double overflows or loses digits, is
    rounded to 53 bits all the same.  Counts of days are integers, and
    their sums and products are exact, as those of doubles are below
    2 ^ 53; a date moved by more days than that would be outside the range
    of [Date], which the model does not bound either.

    [scaled n d k] is [n / d] times [2 ^ k], as a numerator and a
    denominator. *)
Definition scaled (n d k : Z) : Z * Z :=
  if 0 <=? k then (n * 2 ^ k, d) else (n, d * 2 ^ (- k)).

(** The integer nearest to [n / d], the even one of two that are equally
    near. *)
Definition roundEven (n d : Z) : Z :=
  let q := n / d in
  let r := n mod d in
  if 2 * r <? d then q
  else if d <? 2 * r then q + 1
  else if Z.even q then q else q + 1.

(** The binade of [n / d]: the [e] with [2 ^ e <= n / d < 2 ^ (e + 1)]. *)
Definition binade (n d : Z) : Z :=
  let e0 := Z.log2 n - Z.log2 d in
  let nd := scaled n d (- e0) in
  if nd.2 <=? nd.1 then e0 else e0 - 1.

(** The double nearest to a rational: 53 significant bits. *)
Definition number (q : Q) : Q :=
  let n := Z.abs (Qnum q) in
  let d := Zpos (Qden q) in
  if n =? 0 then 0%Q
  else
    let e := binade n d in
    let nd := scaled n d (52 - e) in
    let v := (inject_Z (roundEven nd.1 nd.2) * Qpower 2 (e - 52))%Q in
    if Qnum q <? 0 then (- v)%Q else v.

(** [a - b] on doubles. *)
Definition sub (a b : Q) : Q := number (a - b).

(** [Math.round]: the nearest integer, halves going up. *)
Definition round (x : Q) : Z := Qfloor (x + (1 # 2))%Q.

(** [Math.round(a / b)]; dividing by zero gives an infinity or NaN, which
    is [None] here. *)
Definition round_div (a b : Q) : option Z :=
  if Qeq_bool b 0 then None else Some (round (number (a / b))).

Definition lt (a b : Q) : bool := negb (Qle_bool b a).

(** A string or [undefined] used as a condition: the empty string and
    [undefined] are falsy. *)
Definition truthy (s : option string) : bool :=
  match s with
  | Some (String _ _) => true
  | _ => false
  end.

(** A string holds the UTF-8 bytes of the JavaScript string.  The white
    space of [String.prototype.trim] is the code points TAB, LF, VT, FF,
    CR and SPACE, of one byte each ([isSpace]); U+00A0, of two bytes
    ([isSpace2]); and U+1680, U+2000 to U+200A, U+2028, U+2029, U+202F,
    U+205F, U+3000 and U+FEFF, of three bytes ([isSpace3]). *)
Definition isSpace (c : Ascii.ascii) : bool :=
  let n := Ascii.nat_of_ascii c in
  ((n =? 32) || ((9 <=? n) && (n <=? 13)))%nat.

Definition isSpace2 (c1 c2 : Ascii.ascii) : bool :=
  ((Ascii.nat_of_ascii c1 =? 194) && (Ascii.nat_of_ascii c2 =? 160))%nat.

Definition isSpace3 (c1 c2 c3 : Ascii.ascii) : bool :=
  let n1 := Ascii.nat_of_ascii c1 in
  let n2 := Ascii.nat_of_ascii c2 in
  let n3 := Ascii.nat_of_ascii c3 in
  (((n1 =? 225) && (n2 =? 154) && (n3 =? 128))
   || ((n1 =? 226) && (n2 =? 128)
       && (((128 <=? n3) && (n3 <=? 138)) || (n3 =? 168) || (n3 =? 169) || (n3 =? 175)))
   || ((n1 =? 226) && (n2 =? 129) && (n3 =? 159))
   || ((n1 =? 227) && (n2 =? 128) && (n3 =? 128))
   || ((n1 =? 239) && (n2 =? 187) && (n3 =? 191)))%nat.

(** [s.trim() === '']: the string is white space throughout. *)
Fixpoint isBlank (s : string) : bool :=
  match s with
  | EmptyString => true
  | String c1 s1 =>
      if isSpace c1 then isBlank s1
      else match s1 with
      | EmptyString => false
      | String c2 s2 =>
          if isSpace2 c1 c2 then isBlank s2
          else match s2 with
          | EmptyString => false
          | String c3 s3 => if isSpace3 c1 c2 c3 then isBlank s3 else false
          end
      end
  end.

End Js.

(** ** Data model (types.ts) *)

Module ExecutingUnit.
Record t := mk { id : string; name : string; color : string }.
End ExecutingUnit.

Module Task.
(** [startDate] and [endDate] hold the instant the ISO string denotes;
    [groupId] is [None] when the field is absent or [undefined]. *)
Record t := mk {
  id : string;
  name : string;
  startDate : Z;
  endDate : Z;
  unitId : option string;
  groupId : option string
}.

#[global] Instance Task_eq_dec : EqDecision t.
Proof. solve_decision. Defined.

(** [{ ...task, startDate, endDate }] *)
Definition withDates (task : t) (s e : Z) : t :=
  mk (id task) (name task) s e (unitId task) (groupId task).

(** [{ ...task, groupId }] *)
Definition withGroupId (task : t) (g : option string) : t :=
  mk (id task) (name task) (startDate task) (endDate task) (unitId task) g.
End Task.

Module TaskGroup.
Record t := mk {
  id : string;
  name : string;
  taskIds : list string;
  intervals : list Z
}.

#[global] Instance TaskGroup_eq_dec : EqDecision t.
Proof. solve_decision. Defined.

(** [{ ...g, taskIds, intervals }] *)
Definition withMembers (g : t) (ids : list string) (ivs : list Z) : t :=
  mk (id g) (name g) ids ivs.
End TaskGroup.

Module Project.
(** [startDate] and [endDate] are [None] when the string is empty, which
    is what the calendar tests before it parses them. *)
Record t := mk {
  id : string;
  name : string;
  startDate : option Z;
  endDate : option Z;
  tasks : list Task.t;
  units : list ExecutingUnit.t;
  groups : list TaskGroup.t
}.

(** [{ ...project, tasks }] and [{ ...project, tasks, groups }] *)
Definition withTasks (p : t) (ts : list Task.t) : t :=
  mk (id p) (name p) (startDate p) (endDate p) ts (units p) (groups p).

Definition withTasksGroups (p : t) (ts : list Task.t) (gs : list TaskGroup.t) : t :=
  mk (id p) (name p) (startDate p) (endDate p) ts (units p) gs.
End Project.

(** ** Lane packer ([arrangeTasksInLanes] of the calendar view) *)

Module LanePacker.
Import DateFns.

Section Week.
Variables weekStart weekEnd : Z.

(** The week filter of [arrangeTasksInLanes]. *)
Definition intersectsWeek (task : Task.t) : Prop :=
  Z.max (Task.startDate task) weekStart <= Z.min (Task.endDate task) weekEnd.

#[global] Instance intersectsWeek_dec task : Decision (intersectsWeek task).
Proof. unfold intersectsWeek. apply _. Defined.

Definition clampedStart (task : Task.t) : Z := Z.max (Task.startDate task) weekStart.
Definition clampedEnd (task : Task.t) : Z := Z.min (Task.endDate task) weekEnd.

(** The callback of [lane.some]. *)
Definition overlapsInWeek (task existingTask : Task.t) : bool :=
  let tStart := Z.max (Task.startDate task) weekStart in
  let tEnd := Z.min (Task.endDate task) weekEnd in
  let eStart := Z.max (Task.startDate existingTask) weekStart in
  let eEnd := Z.min (Task.endDate existingTask) weekEnd in
  (tStart <=? eEnd) && (tEnd >=? eStart).

Definition hasOverlap (task : Task.t) (lane : list Task.t) : bool :=
  existsb (overlapsInWeek task) lane.

(** The [for] loop over the lanes: [None] is [placed = false]. *)
Fixpoint tryPlace (task : Task.t) (lanes : list (list Task.t)) : option (list (list Task.t)) :=
  match lanes with
  | [] => None
  | lane :: rest =>
      if negb (hasOverlap task lane) then Some ((lane ++ [task]) :: rest)
      else cons lane <$> tryPlace task rest
  end.

(** The body of [sortedTasks.forEach]. *)
Definition placeTask (lanes : list (list Task.t)) (task : Task.t) : list (list Task.t) :=
  match tryPlace task lanes with
  | Some lanes' => lanes'
  | None => lanes ++ [[task]]
  end.
End Week.

(** The comparator of the sort: start ascending, then end descending, both
    in whole days. *)
Definition compareTasks (a b : Task.t) : Z :=
  let diff := differenceInDays (Task.startDate a) (Task.startDate b) in
  if negb (diff =? 0) then diff
  else differenceInDays (Task.endDate b) (Task.endDate a).

Definition weekTasks (tasks : list Task.t) (weekStart : Z) : list Task.t :=
  let weekEnd := endOfWeek weekStart in
  filter (intersectsWeek weekStart weekEnd) tasks.

Definition sortedTasks (tasks : list Task.t) (weekStart : Z) : list Task.t :=
  Js.sort compareTasks (weekTasks tasks weekStart).

Definition arrangeTasksInLanes (tasks : list Task.t) (weekStart : Z) : list (list Task.t) :=
  let weekEnd := endOfWeek weekStart in
  fold_left (placeTask weekStart weekEnd) (sortedTasks tasks weekStart) [].

End LanePacker.

(** ** Lane packer of the month grid

    The calendar view that lays the weeks out month by month filters the
    tasks of a week itself ([week[0]] to [week[6]]) and calls a packer that
    compares the spans as they are; its sort is the same. *)

Module MonthGrid.

Definition weekTasks (tasks : list Task.t) (weekStart weekEnd : Z) : list Task.t :=
  filter (fun task => Z.max (Task.startDate task) weekStart
                      <= Z.min (Task.endDate task) weekEnd) tasks.

Definition hasOverlap (task : Task.t) (lane : list Task.t) : bool :=
  existsb (fun existingTask =>
             Z.max (Task.startDate task) (Task.startDate existingTask)
             <=? Z.min (Task.endDate task) (Task.endDate existingTask)) lane.

Fixpoint tryPlace (task : Task.t) (lanes : list (list Task.t)) : option (list (list Task.t)) :=
  match lanes with
  | [] => None
  | lane :: rest =>
      if negb (hasOverlap task lane) then Some ((lane ++ [task]) :: rest)
      else cons lane <$> tryPlace task rest
  end.

Definition placeTask (lanes : list (list Task.t)) (task : Task.t) : list (list Task.t) :=
  match tryPlace task lanes with
  | Some lanes' => lanes'
  | None => lanes ++ [[task]]
  end.

Definition arrangeTasksInLanes (tasks : list Task.t) : list (list Task.t) :=
  fold_left placeTask (Js.sort LanePacker.compareTasks tasks) [].

End MonthGrid.

(** ** Group intervals

    The expression both views use to recompute the gaps of a chain:
    [tasks.slice(0, -1).map((t, i) => Math.max(0, differenceInDays(
    parseISO(tasks[i+1].startDate), parseISO(t.endDate))))]. *)

Module GroupIntervals.
Import DateFns.

(** The comparator [(a, b) => a.start.getTime() - b.start.getTime()]. *)
Definition compareStart (a b : Task.t) : Z := Task.startDate a - Task.startDate b.

(** [tasks[i+1]] is always in range under [slice(0, -1)]; the [None]
    branch is never taken. *)
Definition computeIntervals (tasks : list Task.t) : list Z :=
  imap (fun i t =>
          match tasks !! S i with
          | Some next => Z.max 0 (differenceInDays (Task.startDate next) (Task.endDate t))
          | None => 0
          end)
       (Js.sliceInit tasks).

End GroupIntervals.

(** ** Calendar view: drag controller and group creation *)

Module CalendarView.
Import DateFns GroupIntervals.

Inductive DragType := move | resize_start | resize_end.

#[global] Instance DragType_eq_dec : EqDecision DragType.
Proof. solve_decision. Defined.

Record Related := mkRelated {
  rid : string;
  initialStart : Z;
  initialEnd : Z
}.

Record DragState := mkDragState {
  task : Task.t;
  type : DragType;
  initialMouseX : Q;
  initialMouseY : Q;
  dayWidth : Q;
  weekHeight : Q;
  taskInitialStartDate : Z;
  taskInitialEndDate : Z;
  relatedTasks : list Related
}.

(** The state of the component the handlers read and write. *)
Record ViewState := mkView {
  dragState : option DragState;
  tempProject : option Project.t;
  ignoreClick : bool
}.

Definition findTask (tasks : list Task.t) (id : string) : option Task.t :=
  Js.find (fun t => Task.id t = id) tasks.

Definition snapshot (t : Task.t) : Related :=
  mkRelated (Task.id t) (Task.startDate t) (Task.endDate t).

(** [weekRect] is the bounding box of the closest [.task-week-grid], as
    (width, height); [None] when there is none. *)
Definition handleTaskDragStart (project : Project.t) (isLocked : bool)
    (editingTaskId : option string) (st : ViewState)
    (taskProp : Task.t) (ty : DragType) (clientX clientY : Q)
    (weekRect : option (Q * Q)) : ViewState :=
  if isLocked then st
  else
    let st1 := mkView (dragState st) (tempProject st) false in
    if Js.truthy editingTaskId then st1
    else match weekRect with
    | None => st1
    | Some (width, height) =>
        let dayWidth := Js.number (width / 7) in
        let weekHeight := height in
        let task := default taskProp (findTask (Project.tasks project) (Task.id taskProp)) in
        let relatedTasks :=
          if Js.truthy (Task.groupId task) && bool_decide (ty = move) then
            snapshot <$> filter (fun t => Task.groupId t = Task.groupId task) (Project.tasks project)
          else [snapshot task] in
        mkView
          (Some (mkDragState task ty clientX clientY dayWidth
                   (if Js.lt 0 weekHeight then weekHeight else 120%Q)
                   (Task.startDate task) (Task.endDate task) relatedTasks))
          (Some project) false
    end.

(** How a handler ends: normally, or by the [RangeError] that
    [toISOString] throws on an invalid date. *)
Inductive Completion := Normal | RangeError.

Definition totalDayOffset (ds : DragState) (dx dy : Q) : option Z :=
  dayOffsetHorizontal ← Js.round_div dx (dayWidth ds);
  weekOffsetVertical ←
    (if Js.lt 0 (weekHeight ds) then Js.round_div dy (weekHeight ds) else Some 0);
  Some (dayOffsetHorizontal + weekOffsetVertical * 7).

(** One round of [relatedTasks.forEach]; [None] is the exception.
    [list_find] gives [index] and [newTasks[index]]; the dates are written
    out, and an invalid one throws, only when the task is found. *)
Definition moveOne (offset : option Z) (newTasks : list Task.t) (related : Related)
    : option (list Task.t) :=
  match list_find (fun t => Task.id t = rid related) newTasks with
  | Some (index, t) =>
      n ← offset;
      let newStart := addDays (initialStart related) n in
      let duration := differenceInDays (initialEnd related) (initialStart related) in
      let newEnd := addDays newStart duration in
      Some (<[index := Task.withDates t newStart newEnd]> newTasks)
  | None => Some newTasks
  end.

Fixpoint moveAll (offset : option Z) (newTasks : list Task.t) (rel : list Related)
    : option (list Task.t) :=
  match rel with
  | [] => Some newTasks
  | related :: rest => newTasks' ← moveOne offset newTasks related; moveAll offset newTasks' rest
  end.

(** The dates of the resized task; [None] is an invalid date. *)
Definition resizeDates (ds : DragState) (dx : Q) : option (Z * Z) :=
  dayOffset ← Js.round_div dx (dayWidth ds);
  let newStartDate := taskInitialStartDate ds in
  let newEndDate := taskInitialEndDate ds in
  if bool_decide (type ds = resize_start) then
    let newStartDate := addDays (taskInitialStartDate ds) dayOffset in
    let newStartDate := if newStartDate >? newEndDate then newEndDate else newStartDate in
    Some (newStartDate, newEndDate)
  else
    let newEndDate := addDays (taskInitialEndDate ds) dayOffset in
    let newEndDate := if newEndDate <? newStartDate then newStartDate else newEndDate in
    Some (newStartDate, newEndDate).

Definition handleMouseMove (st : ViewState) (clientX clientY : Q) : Completion * ViewState :=
  match dragState st, tempProject st with
  | Some ds, Some tp =>
      let dx := Js.sub clientX (initialMouseX ds) in
      let dy := Js.sub clientY (initialMouseY ds) in
      if Js.lt (Qabs dx) 3 && Js.lt (Qabs dy) 3 then (Normal, st)
      else
        let st1 := mkView (dragState st) (tempProject st) true in
        if bool_decide (type ds = move) then
          match moveAll (totalDayOffset ds dx dy) (Project.tasks tp) (relatedTasks ds) with
          | Some newTasks => (Normal, mkView (dragState st) (Some (Project.withTasks tp newTasks)) true)
          | None => (RangeError, st1)
          end
        else
          match resizeDates ds dx with
          | Some (newStartDate, newEndDate) =>
              let updatedTask := Task.withDates (task ds) newStartDate newEndDate in
              (Normal,
               mkView (dragState st)
                 (Some (Project.withTasks tp
                    ((fun t => if decide (Task.id t = Task.id updatedTask) then updatedTask else t)
                       <$> Project.tasks tp)))
                 true)
          | None => (RangeError, st1)
          end
  | _, _ => (Normal, st)
  end.

(** [handleMouseUp]: the project handed to [onProjectUpdate], if any, and
    the cleared gesture state. *)
Definition handleMouseUp (st : ViewState) : option Project.t * ViewState :=
  (match dragState st, tempProject st with
   | Some _, Some tp => Some tp
   | _, _ => None
   end,
   mkView None None (ignoreClick st)).

(** What [handleCreateGroup] does: it returns before anything happens
    (locked, or no name given at the prompt), it notifies that at least two
    tasks must be selected, or it hands the updated project to
    [onProjectUpdate]. *)
Inductive CreateGroupResult :=
| Ignored
| InsufficientSelection
| GroupCreated (updated : Project.t).

(** The callback of [project.groups.map] that cleans an old group. *)
Definition cleanGroup (tasks : list Task.t) (taskIds : list string) (g : TaskGroup.t)
    : option TaskGroup.t :=
  let remainingTaskIds := filter (fun id => id ∉ taskIds) (TaskGroup.taskIds g) in
  if (length remainingTaskIds =? 0)%nat then None
  else if negb (length remainingTaskIds =? length (TaskGroup.taskIds g))%nat then
    let remainingTasks :=
      Js.sort compareStart (omap (findTask tasks) remainingTaskIds) in
    let newIntervals :=
      if (1 <? length remainingTasks)%nat then computeIntervals remainingTasks else [] in
    Some (TaskGroup.withMembers g remainingTaskIds newIntervals)
  else Some g.

(** [selectedTaskIds] lists the selection set in insertion order;
    [groupName] is what [prompt] returned; [newGroupId] is the value of
    [crypto.randomUUID()]. *)
Definition handleCreateGroup (project : Project.t) (isLocked : bool)
    (groupName : option string) (selectedTaskIds : list string) (newGroupId : string)
    : CreateGroupResult :=
  if isLocked then Ignored
  else match groupName with
  | None => Ignored
  | Some groupName =>
      if Js.isBlank groupName then Ignored
      else
        let selectedTasks :=
          Js.sort compareStart (omap (findTask (Project.tasks project)) selectedTaskIds) in
        if (length selectedTasks <? 2)%nat then InsufficientSelection
        else
          let taskIds := Task.id <$> selectedTasks in
          let intervals := computeIntervals selectedTasks in
          let cleanedGroups := omap (cleanGroup (Project.tasks project) taskIds) (Project.groups project) in
          let newGroup := TaskGroup.mk newGroupId groupName taskIds intervals in
          let updatedTasks :=
            (fun task => if decide (Task.id task ∈ taskIds)
                         then Task.withGroupId task (Some newGroupId) else task)
              <$> Project.tasks project in
          GroupCreated (Project.withTasksGroups project updatedTasks (cleanedGroups ++ [newGroup]))
  end.

End CalendarView.

(** ** Group relationship view: unlinking and deleting *)

Module GroupRelationshipView.
Import DateFns GroupIntervals.

(** [new Map(project.tasks.map(task => [task.id, task]))]: a later task
    with the same id replaces an earlier one. *)
Definition taskMap (project : Project.t) : gmap string Task.t :=
  list_to_map (reverse ((fun t => (Task.id t, t)) <$> Project.tasks project)).

(** [None]: the handler returns without calling [onProjectUpdate]. *)
Definition handleDeleteGroup (project : Project.t) (isLocked : bool) (groupId : string)
    : option Project.t :=
  if isLocked then None
  else
    let updatedGroups := filter (fun g => TaskGroup.id g ≠ groupId) (Project.groups project) in
    let updatedTasks :=
      (fun t => if decide (Task.groupId t = Some groupId)
                then Task.withGroupId t None else t) <$> Project.tasks project in
    Some (Project.withTasksGroups project updatedTasks updatedGroups).

Definition handleUnlinkTask (project : Project.t) (isLocked : bool) (taskId groupId : string)
    : option Project.t :=
  if isLocked then None
  else match Js.find (fun g => TaskGroup.id g = groupId) (Project.groups project) with
  | None => None
  | Some group =>
      let remainingTaskIds := filter (fun id => id ≠ taskId) (TaskGroup.taskIds group) in
      let updatedGroups :=
        if (length remainingTaskIds =? 0)%nat then
          filter (fun g => TaskGroup.id g ≠ groupId) (Project.groups project)
        else
          let remainingTasks :=
            Js.sort compareStart (omap (fun id => taskMap project !! id) remainingTaskIds) in
          let newIntervals := computeIntervals remainingTasks in
          let updatedGroup := TaskGroup.withMembers group remainingTaskIds newIntervals in
          (fun g => if decide (TaskGroup.id g = groupId) then updatedGroup else g)
            <$> Project.groups project in
      let updatedTasks :=
        (fun t => if decide (Task.id t = taskId) then Task.withGroupId t None else t)
          <$> Project.tasks project in
      Some (Project.withTasksGroups project updatedTasks updatedGroups)
  end.

End GroupRelationshipView.

(** ** Workspace: the host of the two views

    [handleProjectUpdate] replaces the project the workspace holds by the
    one a handler passes to [onProjectUpdate]; a handler that returns
    without calling it leaves the project as it is. *)

Module Workspace.

(** The mutating operations of the group model, with the arguments the
    handlers take from the user and the environment. *)
Inductive GroupOp :=
| CreateGroup (groupName : option string) (selectedTaskIds : list string) (newGroupId : string)
| UnlinkTask (taskId groupId : string)
| DeleteGroup (groupId : string).

Definition afterCreateGroup (project : Project.t) (r : CalendarView.CreateGroupResult)
    : Project.t :=
  match r with
  | CalendarView.GroupCreated updated => updated
  | _ => project
  end.

(** The project of the workspace after the operation. *)
Definition run (isLocked : bool) (project : Project.t) (op : GroupOp) : Project.t :=
  match op with
  | CreateGroup groupName selectedTaskIds newGroupId =>
      afterCreateGroup project
        (CalendarView.handleCreateGroup project isLocked groupName selectedTaskIds newGroupId)
  | UnlinkTask taskId groupId =>
      default project (GroupRelationshipView.handleUnlinkTask project isLocked taskId groupId)
  | DeleteGroup groupId =>
      default project (GroupRelationshipView.handleDeleteGroup project isLocked groupId)
  end.

End Workspace.

(** ** The words of the specification, for comparison with the code *)

Module Spec.
Import DateFns LanePacker.

Section Week.
Variables weekStart weekEnd : Z.

(** Overlap of two week-clamped spans:
    [max(startA, startB) <= min(endA, endB)]. *)
Definition spansOverlap (a b : Task.t) : Prop :=
  Z.max (clampedStart weekStart a) (clampedStart weekStart b)
  <= Z.min (clampedEnd weekEnd a) (clampedEnd weekEnd b).

(** No two members of the lane, at different positions, overlap. *)
Definition laneDisjoint (lane : list Task.t) : Prop :=
  forall i j a b, i <> j -> lane !! i = Some a -> lane !! j = Some b -> ~ spansOverlap a b.



End Week.


Definition sameDates (a b : Task.t) : Prop :=
  Task.startDate a = Task.startDate b /\ Task.endDate a = Task.endDate b.

#[global] Instance sameDates_dec a b : Decision (sameDates a b).
Proof. unfold sameDates. apply _. Defined.

(** The task spans a whole number of days. *)
Definition wholeSpan (t : Task.t) : Prop :=
  (Task.endDate t - Task.startDate t) mod MS_PER_DAY = 0.

(** A task moved rigidly by [n] days from the dates [s]..[e]: the start
    moves by [n] days and the end follows at the original duration. *)
Definition movedFrom (cur : Task.t) (s e n : Z) : Task.t :=
  Task.withDates cur (addDays s n) (addDays (addDays s n) (differenceInDays e s)).

(** What a move by [n] days makes of a task of the working copy, given
    the snapshots of the related set. *)
Definition shiftTask (n : Z) (rel : list CalendarView.Related) (cur : Task.t) : Task.t :=
  match list_find (fun r => CalendarView.rid r = Task.id cur) rel with
  | Some (_, r) => movedFrom cur (CalendarView.initialStart r) (CalendarView.initialEnd r) n
  | None => cur
  end.

(** Bidirectional membership.  A task with a group id is listed by the
    group it names. *)
Definition taskListed (groups : list TaskGroup.t) (t : Task.t) : Prop :=
  match Task.groupId t with
  | Some g =>
      Exists (fun grp => TaskGroup.id grp = g /\ Task.id t ∈ TaskGroup.taskIds grp) groups
  | None => True
  end.

(** An id a group lists is the id of a task that names the group. *)
Definition memberLinked (tasks : list Task.t) (grp : TaskGroup.t) (tid : string) : Prop :=
  Exists (fun t => Task.id t = tid /\ Task.groupId t = Some (TaskGroup.id grp)) tasks.

Definition groupLinked (tasks : list Task.t) (grp : TaskGroup.t) : Prop :=
  NoDup (TaskGroup.taskIds grp) /\ Forall (memberLinked tasks grp) (TaskGroup.taskIds grp).

(** Identifiers are unique, and tasks and groups agree on membership. *)
Definition consistent (p : Project.t) : Prop :=
  NoDup (Task.id <$> Project.tasks p)
  /\ NoDup (TaskGroup.id <$> Project.groups p)
  /\ Forall (taskListed (Project.groups p)) (Project.tasks p)
  /\ Forall (groupLinked (Project.tasks p)) (Project.groups p).

#[global] Instance taskListed_dec groups t : Decision (taskListed groups t).
Proof. unfold taskListed. destruct (Task.groupId t); apply _. Defined.

#[global] Instance memberLinked_dec tasks grp tid : Decision (memberLinked tasks grp tid).
Proof. unfold memberLinked. apply _. Defined.

#[global] Instance groupLinked_dec tasks grp : Decision (groupLinked tasks grp).
Proof. unfold groupLinked. apply _. Defined.

#[global] Instance consistent_dec p : Decision (consistent p).
Proof. unfold consistent. apply _. Defined.

(** When the operation may be issued: the selection is a set and the new
    group id is fresh; the unlink button exists only on the members of a
    group. *)
Definition admissible (p : Project.t) (op : Workspace.GroupOp) : Prop :=
  match op with
  | Workspace.CreateGroup _ selectedTaskIds newGroupId =>
      NoDup selectedTaskIds /\ newGroupId ∉ TaskGroup.id <$> Project.groups p
  | Workspace.UnlinkTask taskId groupId =>
      Exists (fun grp => TaskGroup.id grp = groupId /\ taskId ∈ TaskGroup.taskIds grp)
        (Project.groups p)
  | Workspace.DeleteGroup _ => True
  end.

#[global] Instance admissible_dec p op : Decision (admissible p op).
Proof. unfold admissible. destruct op; apply _. Defined.

(** Both dates of the task are at local midnight. *)
Definition wholeDays (t : Task.t) : Prop :=
  atMidnight (Task.startDate t) /\ atMidnight (Task.endDate t).

(** The string without the white-space code point it starts with; [None]
    when it starts with none. *)
Definition stripSpace (s : string) : option string :=
  match s with
  | EmptyString => None
  | String c1 s1 =>
      if Js.isSpace c1 then Some s1
      else match s1 with
      | EmptyString => None
      | String c2 s2 =>
          if Js.isSpace2 c1 c2 then Some s2
          else match s2 with
          | EmptyString => None
          | String c3 s3 => if Js.isSpace3 c1 c2 c3 then Some s3 else None
          end
      end
  end.

End Spec.

(** ** Concrete projects used in the examples below *)

Module Examples.
Import DateFns.

Definition mkTask (id : string) (s e : Z) (g : option string) : Task.t :=
  Task.mk id id s e None g.

(** A (2024-01-01..01-02), B (2024-01-05..01-06), C (2024-01-10..01-11). *)
Definition tA := mkTask "A" (localDate 2024 1 1) (localDate 2024 1 2) None.
Definition tB := mkTask "B" (localDate 2024 1 5) (localDate 2024 1 6) None.
Definition tC := mkTask "C" (localDate 2024 1 10) (localDate 2024 1 11) None.

(** The week of Sunday 2023-12-31 and the week of Sunday 2024-01-07. *)
Definition week1 : Z := localDate 2023 12 31.
Definition week2 : Z := localDate 2024 1 7.

(** Two tasks that reach into the week of 2024-01-07 from the week
    before: P (01-05..01-08) and Q (01-06..01-12). *)
Definition tP := mkTask "P" (localDate 2024 1 5) (localDate 2024 1 8) None.
Definition tQ := mkTask "Q" (localDate 2024 1 6) (localDate 2024 1 12) None.

(** The same tasks with A and B grouped. *)
Definition gA := mkTask "A" (localDate 2024 1 1) (localDate 2024 1 2) (Some "g1").
Definition gB := mkTask "B" (localDate 2024 1 5) (localDate 2024 1 6) (Some "g1").
Definition g1 := TaskGroup.mk "g1" "G" ["A"; "B"] [3].

Definition ungrouped : Project.t :=
  Project.mk "p" "p" (Some (localDate 2024 1 1)) (Some (localDate 2024 1 31)) [tA; tB; tC] [] [].
Definition grouped : Project.t :=
  Project.mk "p" "p" (Some (localDate 2024 1 1)) (Some (localDate 2024 1 31)) [gA; gB; tC] [] [g1].

Definition idle : CalendarView.ViewState := CalendarView.mkView None None false.

(** H spans a day and a half, 2024-01-01 00:00 to 2024-01-02 12:00, and is
    grouped with B. *)
Definition gH : Task.t :=
  Task.mk "H" "H" (localDate 2024 1 1) (localDate 2024 1 2 + 43200000) None (Some "g1").
Definition halfDay : Project.t :=
  Project.mk "p" "p" (Some (localDate 2024 1 1)) (Some (localDate 2024 1 31))
    [gH; gB; tC] [] [TaskGroup.mk "g1" "G" ["H"; "B"] [2]].


(** Two tasks that start on the same day. *)
Definition sA := mkTask "A" (localDate 2024 1 1) (localDate 2024 1 2) None.
Definition sB := mkTask "B" (localDate 2024 1 1) (localDate 2024 1 3) None.
Definition tied : Project.t :=
  Project.mk "p" "p" (Some (localDate 2024 1 1)) (Some (localDate 2024 1 31)) [sA; sB] [] [].

(** A project that ends before it starts, without tasks. *)
Definition backwards : Project.t :=
  Project.mk "p" "p" (Some (localDate 2024 2 20)) (Some (localDate 2024 1 5)) [] [] [].

(** The UTF-8 bytes of U+3000, the ideographic space. *)
Definition ideographicSpace : string :=
  String (Ascii.ascii_of_nat 227)
    (String (Ascii.ascii_of_nat 128) (String (Ascii.ascii_of_nat 128) EmptyString)).

End Examples.

(** ** Week rows: the days of a row and the grid columns of a task bar *)

Module WeekRow.
Import DateFns.

(** The [startOfWeek] of the calendar view: back to the Sunday, at
    midnight. *)
Definition startOfWeek (date : Z) : Z :=
  (date / MS_PER_DAY - getDay date) * MS_PER_DAY.

(** [Array.from({ length: 7 }, (_, i) => addDays(start, i))] *)
Definition weekDays (weekStart : Z) : list Z :=
  let start := startOfWeek weekStart in
  (fun i => addDays start (Z.of_nat i)) <$> seq 0 7.

(** [gridColumnStart] and [gridColumnEnd] of the bar of a task in the row
    of the week. *)
Definition gridColumns (weekStart : Z) (task : Task.t) : Z * Z :=
  let taskStart := Task.startDate task in
  let taskEnd := Task.endDate task in
  let weekEnd := endOfWeek weekStart in
  let effectiveStart := if taskStart <? weekStart then weekStart else taskStart in
  let effectiveEnd := if taskEnd >? weekEnd then weekEnd else taskEnd in
  let startDayIndex := differenceInDays effectiveStart weekStart in
  let endDayIndex := differenceInDays effectiveEnd weekStart in
  (Z.max 1 (startDayIndex + 1), Z.min 8 (endDayIndex + 2)).

End WeekRow.

(** ** Month grid: the grid columns of a task bar *)

Module MonthGridRow.
Import DateFns.

(** [gridColumnStart] and [gridColumnEnd] of the bar of a task in the week
    that starts on [week0] ([week[0]]). *)
Definition gridColumns (week0 : Z) (task : Task.t) : Z * Z :=
  let startDayIndex := Z.max 0 (differenceInDays (Task.startDate task) week0) in
  let endDayIndex := Z.min 6 (differenceInDays (Task.endDate task) week0) in
  (startDayIndex + 1, endDayIndex + 2).

End MonthGridRow.

(** ** Properties of a layout *)

Module Layout.
Import DateFns.

(** Two bars of a grid row share no column: a bar takes the columns from
    its start line up to, not including, its end line. *)
Definition columnsDisjoint (a b : Z * Z) : Prop := a.2 <= b.1 \/ b.2 <= a.1.

(** The spans of two tasks, as they are, overlap. *)
Definition datesOverlap (a b : Task.t) : Prop :=
  Z.max (Task.startDate a) (Task.startDate b) <= Z.min (Task.endDate a) (Task.endDate b).

(** First fit leaves no task lower than it has to be: every member of a
    lane overlaps, within the week, a member of each lane above it. *)
Fixpoint tight (weekStart weekEnd : Z) (lanes : list (list Task.t)) : Prop :=
  match lanes with
  | [] => True
  | lane :: rest =>
      Forall (Forall (fun t => Exists (Spec.spansOverlap weekStart weekEnd t) lane)) rest
      /\ tight weekStart weekEnd rest
  end.

(** No two members of the lane, at different positions, overlap. *)
Definition datesDisjoint (lane : list Task.t) : Prop :=
  forall i j a b, i <> j -> lane !! i = Some a -> lane !! j = Some b -> ~ datesOverlap a b.

(** Two tasks that differ at most in their dates. *)
Definition sameButDates (a b : Task.t) : Prop :=
  Task.id a = Task.id b /\ Task.name a = Task.name b
  /\ Task.unitId a = Task.unitId b /\ Task.groupId a = Task.groupId b.

(** The task does not end before it starts. *)
Definition ordered (t : Task.t) : Prop := Task.startDate t <= Task.endDate t.

(** The shape [types.ts] gives a group: its intervals are one less than
    its task ids; and none is negative. *)
Definition gapsWellFormed (g : TaskGroup.t) : Prop :=
  length (TaskGroup.intervals g) = (length (TaskGroup.taskIds g) - 1)%nat
  /\ Forall (fun n => 0 <= n) (TaskGroup.intervals g).

End Layout.

(** ** The card of a group in the relationship view *)

Module GroupCard.

(** [group.taskIds.map(id => allTasks.get(id)).filter(t => !!t)] *)
Definition groupTasks (group : TaskGroup.t) (allTasks : gmap string Task.t) : list Task.t :=
  omap (fun id => allTasks !! id) (TaskGroup.taskIds group).

(** The card is not rendered when none of the ids is known. *)
Definition rendered (group : TaskGroup.t) (allTasks : gmap string Task.t) : bool :=
  negb (length (groupTasks group allTasks) =? 0)%nat.

(** The days shown under the task at [index], [group.intervals[index] || 0],
    for every task but the last. *)
Definition gap (group : TaskGroup.t) (allTasks : gmap string Task.t) (index : nat)
    : option Z :=
  if (index <? length (groupTasks group allTasks) - 1)%nat
  then Some (default 0 (TaskGroup.intervals group !! index))
  else None.

End GroupCard.

(** ** The other handlers of the calendar view *)

(** A [Set] of strings, as the list of its elements in insertion order. *)
Module JsSet.
Definition has (x : string) (s : list string) : bool := bool_decide (x ∈ s).
Definition add (x : string) (s : list string) : list string :=
  if has x s then s else s ++ [x].
Definition delete (x : string) (s : list string) : list string :=
  filter (fun y => y <> x) s.
End JsSet.

(** [String.prototype.trim] *)
Module JsString.
Fixpoint trimStart (s : string) : string :=
  match s with
  | EmptyString => EmptyString
  | String c1 s1 =>
      if Js.isSpace c1 then trimStart s1
      else match s1 with
      | EmptyString => s
      | String c2 s2 =>
          if Js.isSpace2 c1 c2 then trimStart s2
          else match s2 with
          | EmptyString => s
          | String c3 s3 => if Js.isSpace3 c1 c2 c3 then trimStart s3 else s
          end
      end
  end.

(** The string up to the point from which it is white space throughout. *)
Fixpoint trimEnd (s : string) : string :=
  match s with
  | EmptyString => EmptyString
  | String c s' => if Js.isBlank s then EmptyString else String c (trimEnd s')
  end.

Definition trim (s : string) : string := trimEnd (trimStart s).
End JsString.

Module CalendarHandlers.
Import DateFns.

(** [handleTaskClick]: the selection after a click on the bar of a task;
    [ctrlOrMeta] is [e.ctrlKey || e.metaKey]. *)
Definition handleTaskClick (editingTaskId : option string) (ignoreClick : bool)
    (selectedTaskIds : list string) (taskId : string) (ctrlOrMeta : bool) : list string :=
  if Js.truthy editingTaskId then selectedTaskIds
  else if ignoreClick then selectedTaskIds
  else
    let newSelection := selectedTaskIds in
    if ctrlOrMeta then
      if JsSet.has taskId newSelection then JsSet.delete taskId newSelection
      else JsSet.add taskId newSelection
    else JsSet.add taskId [].

(** [handleDayMouseDown]: the selection and the [dragStartRef] of the row
    after the button goes down on a day. *)
Definition handleDayMouseDown (editingTaskId : option string) (isLocked ctrlOrMeta : bool)
    (selectedTaskIds : list string) (ref : option Z) (day : Z) : list string * option Z :=
  if Js.truthy editingTaskId then (selectedTaskIds, ref)
  else
    (if negb ctrlOrMeta then [] else selectedTaskIds,
     if negb isLocked then Some day else ref).

(** [handleDragToCreate]: the dates the add-task dialogue opens with;
    [None] when it does not open.  The sorted array has two elements. *)
Definition handleDragToCreate (isLocked : bool) (start end_ : Z) : option (Z * Z) :=
  if isLocked then None
  else
    match Js.sort (fun a b => a - b) [start; end_] with
    | s0 :: s1 :: _ => Some (s0, s1)
    | _ => None
    end.

(** The [onMouseUp] of a day cell with [handleDayMouseUp] of its row: the
    dates handed to the dialogue, if any, and the [dragStartRef] of the row
    afterwards. *)
Definition handleDayMouseUp (isLocked : bool) (ref : option Z) (day : Z)
    : option (Z * Z) * option Z :=
  if negb isLocked then
    (match ref with
     | Some start => handleDragToCreate isLocked start day
     | None => None
     end,
     None)
  else (None, ref).

(** Every week row has a [dragStartRef] of its own: the refs by row index,
    with the button going down in one row and up in another. *)
Definition dayMouseDownAt (editingTaskId : option string) (isLocked ctrlOrMeta : bool)
    (selectedTaskIds : list string) (refs : gmap nat Z) (row : nat) (day : Z)
    : list string * gmap nat Z :=
  let r := handleDayMouseDown editingTaskId isLocked ctrlOrMeta selectedTaskIds
             (refs !! row) day in
  (r.1, match r.2 with Some d => <[row := d]> refs | None => delete row refs end).

Definition dayMouseUpAt (isLocked : bool) (refs : gmap nat Z) (row : nat) (day : Z)
    : option (Z * Z) * gmap nat Z :=
  let r := handleDayMouseUp isLocked (refs !! row) day in
  (r.1, match r.2 with Some d => <[row := d]> refs | None => delete row refs end).

(** [project.units[0]?.id || null] *)
Definition firstUnitId (units : list ExecutingUnit.t) : option string :=
  match units with
  | u :: _ => if Js.truthy (Some (ExecutingUnit.id u)) then Some (ExecutingUnit.id u) else None
  | [] => None
  end.

(** [handleAddTask]: [task] gives the fields the dialogue filled in, its
    [id] and [unitId] are replaced; [newId] is the value of
    [crypto.randomUUID()]. *)
Definition handleAddTask (project : Project.t) (task : Task.t) (newId : string) : Project.t :=
  let newTask :=
    Task.mk newId (Task.name task) (Task.startDate task) (Task.endDate task)
      (firstUnitId (Project.units project)) (Task.groupId task) in
  Project.withTasks project (Project.tasks project ++ [newTask]).

(** [handleUnitChange]: [None] when the handler returns before the
    update. *)
Definition handleUnitChange (project : Project.t) (isLocked : bool)
    (selectedTaskIds : list string) (newUnitId : string) : option Project.t :=
  if isLocked then None
  else if negb (Js.truthy (Some newUnitId)) then None
  else
    let updatedTasks :=
      (fun task => if JsSet.has (Task.id task) selectedTaskIds
                   then Task.mk (Task.id task) (Task.name task) (Task.startDate task)
                          (Task.endDate task) (Some newUnitId) (Task.groupId task)
                   else task) <$> Project.tasks project in
    Some (Project.withTasks project updatedTasks).

(** [handleEditSave]: the project handed to [onProjectUpdate], if any, and
    [editingTaskId] afterwards. *)
Definition handleEditSave (project : Project.t) (editingTaskId : option string)
    (editingTaskName : string) : option Project.t * option string :=
  if negb (Js.truthy editingTaskId) then (None, editingTaskId)
  else
    let trimmedName := JsString.trim editingTaskName in
    if negb (Js.truthy (Some trimmedName)) then (None, None)
    else
      let updatedTasks :=
        (fun t => if decide (Some (Task.id t) = editingTaskId)
                  then Task.mk (Task.id t) trimmedName (Task.startDate t) (Task.endDate t)
                         (Task.unitId t) (Task.groupId t)
                  else t) <$> Project.tasks project in
      (Some (Project.withTasks project updatedTasks), None).

(** The edits of the calendar view that are not drags or group
    operations, with the arguments the handlers take from the user and
    the environment, and the project of the workspace after each. *)
Inductive Edit :=
| AddTask (task : Task.t) (newId : string)
| UnitChange (selectedTaskIds : list string) (newUnitId : string)
| EditSave (editingTaskId : option string) (editingTaskName : string).

Definition run (isLocked : bool) (project : Project.t) (edit : Edit) : Project.t :=
  match edit with
  | AddTask task newId => handleAddTask project task newId
  | UnitChange selectedTaskIds newUnitId =>
      default project (handleUnitChange project isLocked selectedTaskIds newUnitId)
  | EditSave editingTaskId editingTaskName =>
      default project (handleEditSave project editingTaskId editingTaskName).1
  end.

(** When the edit may be issued: the id of a new task is fresh, and the
    dialogue gives it no group. *)
Definition admissible (project : Project.t) (edit : Edit) : Prop :=
  match edit with
  | AddTask task newId =>
      (newId ∉ Task.id <$> Project.tasks project) /\ Task.groupId task = None
  | _ => True
  end.

(** What an edit never changes of a task that was there. *)
Definition sameBar (t t' : Task.t) : Prop :=
  Task.id t' = Task.id t /\ Task.startDate t' = Task.startDate t
  /\ Task.endDate t' = Task.endDate t /\ Task.groupId t' = Task.groupId t.

End CalendarHandlers.

(** ** Copying a project from a template (useProjects) *)

Module UseProjects.

(** [uuid n] is the value of the call number [n] of [crypto.randomUUID()]
    in the handler: one call per task, then one per group, then one for
    the project. *)
Definition oldIdToNewIdMap (uuid : nat -> string) (tasks : list Task.t) : gmap string string :=
  list_to_map (reverse (imap (fun i task => (Task.id task, uuid i)) tasks)).

Definition addProjectFromTemplate (uuid : nat -> string) (templateProject : Project.t)
    : Project.t :=
  let tasks := Project.tasks templateProject in
  let groups := Project.groups templateProject in
  let newTasks :=
    imap (fun i task =>
            Task.mk (uuid i) (Task.name task) (Task.startDate task) (Task.endDate task)
              (Task.unitId task) (Task.groupId task))
         tasks in
  let newGroups :=
    imap (fun j group =>
            TaskGroup.mk (uuid (length tasks + j)%nat) (TaskGroup.name group)
              (filter (fun newId => Js.truthy (Some newId) = true)
                 (omap (fun oldId => oldIdToNewIdMap uuid tasks !! oldId)
                    (TaskGroup.taskIds group)))
              (TaskGroup.intervals group))
         groups in
  Project.mk (uuid (length tasks + length groups)%nat)
    (Project.name templateProject +:+ " (範本)")
    (Project.startDate templateProject) (Project.endDate templateProject)
    newTasks (Project.units templateProject) newGroups.

End UseProjects.

(** ** A whole drag gesture *)

Module Gesture.
Import CalendarView.

(** The pointer moves of a gesture, one [mousemove] event after the other;
    an event whose handler throws leaves the state the handler had
    reached. *)
Definition pointerMoves (st : ViewState) (path : list (Q * Q)) : ViewState :=
  fold_left (fun s xy => (handleMouseMove s xy.1 xy.2).2) path st.

(** The pointer is still within the click threshold of the point where the
    gesture began. *)
Definition withinThreshold (x0 y0 : Q) (xy : Q * Q) : Prop :=
  Js.lt (Qabs (Js.sub xy.1 x0)) 3 && Js.lt (Qabs (Js.sub xy.2 y0)) 3 = true.

(** Pointer down on a task, pointer moves, pointer up: the project handed
    to [onProjectUpdate], if any, and the state of the view afterwards. *)
Definition gesture (project : Project.t) (isLocked : bool) (editingTaskId : option string)
    (st : ViewState) (taskProp : Task.t) (ty : DragType) (x0 y0 : Q)
    (weekRect : option (Q * Q)) (path : list (Q * Q)) : option Project.t * ViewState :=
  handleMouseUp
    (pointerMoves
       (handleTaskDragStart project isLocked editingTaskId st taskProp ty x0 y0 weekRect)
       path).

End Gesture.

(** ** The weeks of the calendar and their months *)

Module WeekRange.
Import DateFns.

(** date-fns [eachWeekOfInterval] with [weekStartsOn: 0]: the start of
    every week from the week of [start] to the week of [end]; when the
    interval ends before it starts, the same weeks in descending order. *)
Definition eachWeekOfInterval (start end_ : Z) : list Z :=
  let reversed := start >? end_ in
  let startDateWeek :=
    if reversed then WeekRow.startOfWeek end_ else WeekRow.startOfWeek start in
  let endDateWeek :=
    if reversed then WeekRow.startOfWeek start else WeekRow.startOfWeek end_ in
  let count := (endDateWeek - startDateWeek) / (7 * MS_PER_DAY) + 1 in
  let dates :=
    (fun k => addDays startDateWeek (7 * Z.of_nat k)) <$> seq 0 (Z.to_nat count) in
  if reversed then reverse dates else dates.

(** [weekRange] of the calendar view: no week when the project lacks one
    of its dates; otherwise from the week of the earliest start to the
    week of the latest end, the dates of the project included. *)
Definition weekRange (displayProject : Project.t) : list Z :=
  match Project.startDate displayProject, Project.endDate displayProject with
  | Some projectStart, Some projectEnd =>
      let taskStarts := Task.startDate <$> Project.tasks displayProject in
      let taskEnds := Task.endDate <$> Project.tasks displayProject in
      let minDate := foldr Z.min projectStart taskStarts in
      let maxDate := foldr Z.max projectEnd taskEnds in
      let start := WeekRow.startOfWeek minDate in
      let end_ := endOfWeek maxDate in
      eachWeekOfInterval start end_
  | _, _ => []
  end.

End WeekRange.

Module MonthGroups.
Import DateFns.

(** The civil date of a day number, as (year, month 1..12, day). *)
Definition civilFromDays (z : Z) : Z * Z * Z :=
  let z := z + 719468 in
  let era := z / 146097 in
  let doe := z - era * 146097 in
  let yoe := (doe - doe / 1460 + doe / 36524 - doe / 146096) / 365 in
  let y := yoe + era * 400 in
  let doy := doe - (365 * yoe + yoe / 4 - yoe / 100) in
  let mp := (5 * doy + 2) / 153 in
  let d := doy - (153 * mp + 2) / 5 + 1 in
  let m := if mp <? 10 then mp + 3 else mp - 9 in
  (if m <=? 2 then y + 1 else y, m, d).

(** date-fns [getYear] and [getMonth] (January is 0). *)
Definition getYear (date : Z) : Z := (civilFromDays (date / MS_PER_DAY)).1.1.
Definition getMonth (date : Z) : Z := (civilFromDays (date / MS_PER_DAY)).1.2 - 1.

Record t := mk {
  id : string;
  year : Z;
  month : Z;
  weeks : list Z
}.

(** The month of a week is the month of the day three days after its
    start (the code names it [thursday]; in a week that starts on Sunday it
    is the Wednesday); the id is [`${year}-${month}`]. *)
Definition idOf (weekStart : Z) : string :=
  let thursday := addDays weekStart 3 in
  pretty (getYear thursday) +:+ "-" +:+ pretty (getMonth thursday).

(** The body of [weekRange.forEach]: the week joins the group of its month,
    which is appended first when it is not there yet. *)
Definition addWeek (groups : list t) (weekStart : Z) : list t :=
  let thursday := addDays weekStart 3 in
  let year_ := getYear thursday in
  let month_ := getMonth thursday in
  let id_ := pretty year_ +:+ "-" +:+ pretty month_ in
  match list_find (fun g => id g = id_) groups with
  | Some (index, group) =>
      <[index := mk (id group) (year group) (month group) (weeks group ++ [weekStart])]> groups
  | None => groups ++ [mk id_ year_ month_ [weekStart]]
  end.

Definition monthGroups (weekRange : list Z) : list t :=
  fold_left addWeek weekRange [].

End MonthGroups.

(** * Facts about the stable sort *)

Section SortFacts.
Context {A : Type} (compareFn : A -> A -> Z).

Lemma insert_Permutation x l : Js.insert compareFn x l ≡ₚ x :: l.
Proof.
  induction l as [|y l IH]; simpl; [done|].
  destruct (compareFn x y <=? 0); [done|].
  rewrite IH. apply Permutation_swap.
Qed.

Lemma sort_Permutation l : Js.sort compareFn l ≡ₚ l.
Proof.
  induction l as [|x l IH]; simpl; [done|].
  by rewrite insert_Permutation, IH.
Qed.

Lemma sort_length l : length (Js.sort compareFn l) = length l.
Proof. by rewrite sort_Permutation. Qed.

Lemma elem_of_sort x l : x ∈ Js.sort compareFn l <-> x ∈ l.
Proof. by rewrite sort_Permutation. Qed.

(** Sortedness, when the comparator decides a total preorder [R] on the
    elements that satisfy [P]. *)
Section Sorted.
Context (R : relation A) (P : A -> Prop).
Hypothesis compare_R : forall a b, P a -> P b -> (compareFn a b <= 0 <-> R a b).
Hypothesis R_total : forall a b, P a -> P b -> R a b \/ R b a.
Hypothesis R_trans : forall a b c, R a b -> R b c -> R a c.

Lemma insert_StronglySorted x l :
  P x -> Forall P l -> StronglySorted R l -> StronglySorted R (Js.insert compareFn x l).
Proof.
  intros Hx Hl Hs. induction Hs as [|y l Hs IH Hy]; simpl.
  - repeat constructor.
  - apply Forall_cons in Hl as [HPy Hl].
    destruct (Z.leb_spec (compareFn x y) 0) as [Hle|Hgt].
    + apply compare_R in Hle; [|done..].
      constructor; [by constructor|].
      constructor; [done|].
      eapply Forall_impl; [exact Hy|]. intros z Hz. by eapply R_trans.
    + constructor; [by apply IH|].
      rewrite insert_Permutation. constructor; [|done].
      destruct (R_total x y) as [Hxy|Hyx]; [done..| |done].
      apply compare_R in Hxy; [lia|done..].
Qed.

Lemma sort_StronglySorted l : Forall P l -> StronglySorted R (Js.sort compareFn l).
Proof.
  induction l as [|x l IH]; simpl; intros Hl; [constructor|].
  apply Forall_cons in Hl as [Hx Hl].
  apply insert_StronglySorted; [done| |by apply IH].
  by rewrite sort_Permutation.
Qed.
End Sorted.

(** Stability: elements that compare equal keep their relative order. *)
Section Stable.
Context (C : A -> Prop) `{!forall x, Decision (C x)}.
Hypothesis compare_C : forall a b, C a -> C b -> compareFn a b <= 0.

Lemma insert_filter x l :
  filter C (Js.insert compareFn x l) = filter C (x :: l).
Proof.
  induction l as [|y l IH]; simpl; [done|].
  destruct (Z.leb_spec (compareFn x y) 0) as [Hle|Hgt]; [done|].
  rewrite filter_cons, IH, !filter_cons.
  destruct (decide (C y)) as [Hy|Hy]; [|done].
  destruct (decide (C x)) as [Hx|Hx]; [|done].
  specialize (compare_C x y Hx Hy). lia.
Qed.

Lemma sort_filter l : filter C (Js.sort compareFn l) = filter C l.
Proof.
  induction l as [|x l IH]; simpl; [done|].
  by rewrite insert_filter, !filter_cons, IH.
Qed.
End Stable.

(** A sorted list is fixed by the elements of each class of equals taken
    in their order: two lists sorted by [R] that agree on every class are
    the same list.  So every stable sort returns the list [Js.sort]
    returns, when the comparator decides such an order. *)
Section Unique.
Context (R : relation A) (C : A -> A -> Prop) `{!forall a b, Decision (C a b)}.
Hypothesis C_refl : forall a, C a a.
Hypothesis R_antisym : forall a b, R a b -> R b a -> C a b.

End Unique.
End SortFacts.

(** * Facts about dates *)

Section DateFacts.
Import DateFns.

Lemma differenceInDays_addDays d n : differenceInDays (addDays d n) d = n.
Proof.
  unfold differenceInDays, addDays.
  replace (d + n * MS_PER_DAY - d) with (n * MS_PER_DAY) by lia.
  by apply Z.quot_mul.
Qed.

Lemma differenceInDays_midnight a b :
  atMidnight a -> atMidnight b ->
  exists k, a - b = k * MS_PER_DAY /\ differenceInDays a b = k.
Proof.
  unfold atMidnight, differenceInDays. intros Ha Hb.
  exists (a / MS_PER_DAY - b / MS_PER_DAY).
  assert (Hk : a - b = (a / MS_PER_DAY - b / MS_PER_DAY) * MS_PER_DAY).
  { pose proof (Z.div_mod a MS_PER_DAY). pose proof (Z.div_mod b MS_PER_DAY).
    unfold MS_PER_DAY in *. lia. }
  split; [done|]. rewrite Hk. by apply Z.quot_mul.
Qed.


Lemma differenceInDays_opp a b : differenceInDays b a = - differenceInDays a b.
Proof.
  unfold differenceInDays. rewrite <- Z.quot_opp_l by done. f_equal. lia.
Qed.



End DateFacts.

(** * Facts about the lane packer *)

Section LaneFacts.
Import LanePacker.
Variables weekStart weekEnd : Z.

Local Abbreviation overlaps := (overlapsInWeek weekStart weekEnd).
Local Abbreviation inWeek := (intersectsWeek weekStart weekEnd).
Local Abbreviation spansOverlap := (Spec.spansOverlap weekStart weekEnd).
Local Abbreviation laneDisjoint := (Spec.laneDisjoint weekStart weekEnd).

Lemma spansOverlap_overlaps a b : spansOverlap a b -> overlaps a b = true.
Proof.
  unfold Spec.spansOverlap, overlapsInWeek, clampedStart, clampedEnd. intros H.
  apply andb_true_iff. split; [apply Z.leb_le | apply Z.geb_le]; lia.
Qed.

Lemma overlaps_spansOverlap a b :
  inWeek a -> inWeek b -> overlaps a b = true -> spansOverlap a b.
Proof.
  unfold Spec.spansOverlap, overlapsInWeek, intersectsWeek, clampedStart, clampedEnd.
  intros Ha Hb [H1 H2]%andb_true_iff.
  apply Z.leb_le in H1. apply Z.geb_le in H2. lia.
Qed.

Lemma spansOverlap_sym a b : spansOverlap a b -> spansOverlap b a.
Proof. unfold Spec.spansOverlap. lia. Qed.

Lemma hasOverlap_false task lane :
  hasOverlap weekStart weekEnd task lane = false <->
  Forall (fun e => overlaps task e = false) lane.
Proof.
  unfold hasOverlap. induction lane as [|e lane IH]; simpl.
  - split; [constructor|done].
  - rewrite orb_false_iff, Forall_cons, IH. done.
Qed.

Lemma hasOverlap_true task lane :
  hasOverlap weekStart weekEnd task lane = true <->
  Exists (fun e => overlaps task e = true) lane.
Proof.
  unfold hasOverlap. induction lane as [|e lane IH]; simpl.
  - split; [done|]. by intros ?%Exists_nil.
  - rewrite orb_true_iff, Exists_cons, IH. done.
Qed.

Lemma tryPlace_Some task lanes lanes' :
  tryPlace weekStart weekEnd task lanes = Some lanes' ->
  exists before lane after,
    lanes = before ++ lane :: after /\
    lanes' = before ++ (lane ++ [task]) :: after /\
    Forall (fun l => hasOverlap weekStart weekEnd task l = true) before /\
    hasOverlap weekStart weekEnd task lane = false.
Proof.
  revert lanes'. induction lanes as [|lane rest IH]; simpl; intros lanes' H; [done|].
  destruct (hasOverlap weekStart weekEnd task lane) eqn:Hov; simpl in H.
  - destruct (tryPlace weekStart weekEnd task rest) as [rest'|] eqn:Hrest; [|done].
    simpl in H. injection H as <-.
    destruct (IH rest' eq_refl) as (before & l & after & -> & -> & Hb & Hl).
    exists (lane :: before), l, after. repeat split; [|done]. by constructor.
  - injection H as <-. exists [], lane, rest. repeat split; [constructor|done].
Qed.


(** The tasks of the lanes after one placement. *)
Lemma placeTask_concat lanes task :
  concat (placeTask weekStart weekEnd lanes task) ≡ₚ concat lanes ++ [task].
Proof.
  unfold placeTask. destruct (tryPlace weekStart weekEnd task lanes) as [lanes'|] eqn:H.
  - apply tryPlace_Some in H as (before & lane & after & -> & -> & _ & _).
    rewrite !concat_app, !concat_cons, <- !app_assoc.
    do 2 apply Permutation_app_head. apply Permutation_app_comm.
  - rewrite concat_app. simpl. done.
Qed.

Lemma fold_placeTask_concat tasks lanes :
  concat (fold_left (placeTask weekStart weekEnd) tasks lanes) ≡ₚ concat lanes ++ tasks.
Proof.
  revert lanes. induction tasks as [|t tasks IH]; intros lanes; simpl.
  - by rewrite app_nil_r.
  - rewrite IH, placeTask_concat. by rewrite <- app_assoc.
Qed.

Lemma laneDisjoint_snoc lane task :
  laneDisjoint lane ->
  hasOverlap weekStart weekEnd task lane = false ->
  laneDisjoint (lane ++ [task]).
Proof.
  intros Hlane Hov%hasOverlap_false i j a b Hij Ha Hb Hab.
  rewrite Forall_forall in Hov.
  assert (Hno : forall e, e ∈ lane -> ~ spansOverlap task e).
  { intros e He Hs. apply spansOverlap_overlaps in Hs.
    rewrite (Hov e He) in Hs. done. }
  apply lookup_app_Some in Ha as [Ha|[Hia Ha]];
    apply lookup_app_Some in Hb as [Hb|[Hjb Hb]].
  - by eapply (Hlane i j).
  - apply list_lookup_singleton_Some in Hb as [_ <-].
    apply (Hno a); [by eapply list_elem_of_lookup_2|by apply spansOverlap_sym].
  - apply list_lookup_singleton_Some in Ha as [_ <-].
    apply (Hno b); [by eapply list_elem_of_lookup_2|done].
  - apply list_lookup_singleton_Some in Ha as [Hi _].
    apply list_lookup_singleton_Some in Hb as [Hj _]. lia.
Qed.

Lemma placeTask_disjoint lanes task :
  Forall laneDisjoint lanes -> Forall laneDisjoint (placeTask weekStart weekEnd lanes task).
Proof.
  intros Hl. unfold placeTask.
  destruct (tryPlace weekStart weekEnd task lanes) as [lanes'|] eqn:H.
  - apply tryPlace_Some in H as (before & lane & after & -> & -> & _ & Hov).
    apply Forall_app in Hl as [Hb Hl]. apply Forall_cons in Hl as [Hlane Ha].
    apply Forall_app. split; [done|]. constructor; [|done].
    by apply laneDisjoint_snoc.
  - apply Forall_app. split; [done|]. constructor; [|constructor].
    intros i j a b Hij Ha Hb.
    apply list_lookup_singleton_Some in Ha as [Hi _].
    apply list_lookup_singleton_Some in Hb as [Hj _]. lia.
Qed.

Lemma fold_placeTask_disjoint tasks lanes :
  Forall laneDisjoint lanes ->
  Forall laneDisjoint (fold_left (placeTask weekStart weekEnd) tasks lanes).
Proof.
  revert lanes. induction tasks as [|t tasks IH]; intros lanes Hl; simpl; [done|].
  by apply IH, placeTask_disjoint.
Qed.
End LaneFacts.

(** * The lane packer against the specification *)

Section LaneRefinement.
Import LanePacker.
Variables weekStart weekEnd : Z.

Local Abbreviation inWeek := (intersectsWeek weekStart weekEnd).

Lemma overlap_Exists task lane :
  inWeek task -> Forall inWeek lane ->
  hasOverlap weekStart weekEnd task lane = true ->
  Exists (Spec.spansOverlap weekStart weekEnd task) lane.
Proof.
  intros Ht Hl Hov%hasOverlap_true.
  induction Hov as [e lane He|e lane Hov IH].
  - apply Forall_cons in Hl as [Hin _]. left. by apply overlaps_spansOverlap.
  - apply Forall_cons in Hl as [_ Hl]. right. by apply IH.
Qed.



Lemma placeTask_inWeek lanes task :
  inWeek task -> Forall (Forall inWeek) lanes ->
  Forall (Forall inWeek) (placeTask weekStart weekEnd lanes task).
Proof.
  intros Ht Hl. unfold placeTask.
  destruct (tryPlace weekStart weekEnd task lanes) as [lanes'|] eqn:H.
  - apply tryPlace_Some in H as (before & lane & after & -> & -> & _ & _).
    apply Forall_app in Hl as [Hb Hl]. apply Forall_cons in Hl as [Hlane Ha].
    apply Forall_app. split; [done|]. constructor; [|done].
    apply Forall_app. split; [done|]. by repeat constructor.
  - apply Forall_app. split; [done|]. by repeat constructor.
Qed.

End LaneRefinement.

Section LanePackerClaims.
Import DateFns LanePacker.

Lemma sortedTasks_Permutation tasks weekStart :
  sortedTasks tasks weekStart ≡ₚ filter (intersectsWeek weekStart (endOfWeek weekStart)) tasks.
Proof. unfold sortedTasks, weekTasks. apply sort_Permutation. Qed.


(** The packer of the month grid processes the same two tasks in the same
    order. *)
Example month_grid_order :
  MonthGrid.arrangeTasksInLanes
    (MonthGrid.weekTasks [Examples.tP; Examples.tQ] Examples.week2 (addDays Examples.week2 6))
  = [[Examples.tP]; [Examples.tQ]].
Proof. by vm_compute. Qed.

(** Off midnight the comparator is no consistent order: it counts whole
    days, so that of three tasks which start twelve hours one after
    another and end together, the last is not after the second, nor the
    second after the first, but the last is after the first.  The order in
    which [sort] leaves such tasks is the one its implementation takes. *)
Example compareTasks_not_consistent :
  let a := Task.mk "a" "a" (localDate 2024 1 9) (localDate 2024 1 12) None None in
  let b := Task.mk "b" "b" (localDate 2024 1 9 + 43200000) (localDate 2024 1 12) None None in
  let c := Task.mk "c" "c" (localDate 2024 1 10) (localDate 2024 1 12) None None in
  compareTasks c b <= 0 /\ compareTasks b a <= 0 /\ 0 < compareTasks c a.
Proof. by vm_compute. Qed.



(** C8: in every lane the packer returns for a week, two tasks at
    different positions of the lane have week-clamped spans that do not
    overlap: not [max(startA, startB) <= min(endA, endB)] on the spans
    clamped to the week. *)
Theorem lanes_no_overlap (tasks : list Task.t) (weekStart : Z)
    (lane : list Task.t) (i j : nat) (a b : Task.t) :
  lane ∈ arrangeTasksInLanes tasks weekStart ->
  i <> j -> lane !! i = Some a -> lane !! j = Some b ->
  ~ (Z.max (clampedStart weekStart a) (clampedStart weekStart b)
     <= Z.min (clampedEnd (endOfWeek weekStart) a) (clampedEnd (endOfWeek weekStart) b)).
Proof.
  intros Hlane Hij Ha Hb.
  assert (H : Forall (Spec.laneDisjoint weekStart (endOfWeek weekStart))
                (arrangeTasksInLanes tasks weekStart)).
  { apply fold_placeTask_disjoint. constructor. }
  rewrite Forall_forall in H. by apply (H lane Hlane i j a b).
Qed.

Lemma lanes_no_overlap_witness :
  ~ (Z.max (clampedStart Examples.week1 Examples.tA) (clampedStart Examples.week1 Examples.tB)
     <= Z.min (clampedEnd (endOfWeek Examples.week1) Examples.tA)
              (clampedEnd (endOfWeek Examples.week1) Examples.tB)).
Proof.
  apply (lanes_no_overlap [Examples.tA; Examples.tB; Examples.tC] Examples.week1
           [Examples.tA; Examples.tB] 0%nat 1%nat).
  - replace (arrangeTasksInLanes [Examples.tA; Examples.tB; Examples.tC] Examples.week1)
      with [[Examples.tA; Examples.tB]] by (vm_compute; reflexivity).
    constructor.
  - lia.
  - reflexivity.
  - reflexivity.
Defined.

(** C10: the lanes the packer returns hold exactly the input tasks whose
    span intersects the week, each as often as the input lists it: nothing
    is dropped, duplicated or added. *)
Theorem lanes_partition (tasks : list Task.t) (weekStart : Z) :
  concat (arrangeTasksInLanes tasks weekStart)
  ≡ₚ filter (intersectsWeek weekStart (endOfWeek weekStart)) tasks.
Proof.
  unfold arrangeTasksInLanes. rewrite fold_placeTask_concat. simpl.
  apply sortedTasks_Permutation.
Qed.
End LanePackerClaims.

(** * The drag controller *)

Section DragFacts.
Import DateFns GroupIntervals CalendarView.

Lemma NoDup_fmap_eq {A B} (f : A -> B) (l : list A) x y :
  NoDup (f <$> l) -> x ∈ l -> y ∈ l -> f x = f y -> x = y.
Proof.
  intros Hnd [i Hi]%list_elem_of_lookup_1 [j Hj]%list_elem_of_lookup_1 Hf.
  assert (i = j) as ->; [|congruence].
  eapply (NoDup_lookup _ i j (f x)); [done| |].
  - by rewrite list_lookup_fmap, Hi.
  - by rewrite list_lookup_fmap, Hj, Hf.
Qed.

Lemma round_div_Some a b :
  ~ (b == 0)%Q -> Js.round_div a b = Some (Js.round (Js.number (a / b))).
Proof.
  intros Hb. unfold Js.round_div.
  destruct (Qeq_bool b 0) eqn:E; [|done]. by apply Qeq_bool_iff in E.
Qed.

Lemma lt_0_nonzero q : Js.lt 0 q = true -> ~ (q == 0)%Q.
Proof.
  unfold Js.lt. intros H Hq. apply negb_true_iff in H.
  assert (Qle_bool q 0 = true); [|congruence].
  apply Qle_bool_iff. rewrite Hq. apply Qle_refl.
Qed.

Lemma roundEven_ge n d : n / d <= Js.roundEven n d.
Proof.
  unfold Js.roundEven. destruct (2 * (n mod d) <? d); [lia|].
  destruct (d <? 2 * (n mod d)); [lia|]. destruct (Z.even (n / d)); lia.
Qed.

(** The significand of a number that is not zero has its 53 bits. *)
Lemma scaled_binade n d :
  0 < n -> 0 < d ->
  0 < (Js.scaled n d (52 - Js.binade n d)).2
       <= (Js.scaled n d (52 - Js.binade n d)).1.
Proof.
  intros Hn Hd.
  destruct (Z.log2_spec n Hn) as [Hn1 _]. destruct (Z.log2_spec d Hd) as [_ Hd2].
  pose proof (Z.log2_nonneg n) as Ha. pose proof (Z.log2_nonneg d) as Hb.
  assert (Hk : 52 - (Z.log2 n - Z.log2 d) <= 52 - Js.binade n d).
  { unfold Js.binade. destruct (_ <=? _); lia. }
  unfold Js.scaled. destruct (Z.leb_spec 0 (52 - Js.binade n d)) as [Hpos|Hneg]; simpl.
  - split; [done|].
    assert (2 ^ Z.succ (Z.log2 d) <= 2 ^ (Z.log2 n + (52 - Js.binade n d)))
      by (apply Z.pow_le_mono_r; lia).
    rewrite Z.pow_add_r in H by lia.
    assert (0 < 2 ^ (52 - Js.binade n d)) by (apply Z.pow_pos_nonneg; lia). nia.
  - assert (0 < 2 ^ (- (52 - Js.binade n d))) as Hp by (apply Z.pow_pos_nonneg; lia).
    split; [nia|].
    assert (2 ^ (Z.succ (Z.log2 d) + - (52 - Js.binade n d)) <= 2 ^ Z.log2 n)
      by (apply Z.pow_le_mono_r; lia).
    rewrite Z.pow_add_r in H by lia. nia.
Qed.

Lemma number_nonzero q : ~ (q == 0)%Q -> ~ (Js.number q == 0)%Q.
Proof.
  intros Hq. unfold Js.number.
  assert (Qnum q <> 0) as Hnum.
  { intros E. apply Hq. unfold Qeq. simpl. lia. }
  destruct (Z.eqb_spec (Z.abs (Qnum q)) 0) as [|_]; [lia|].
  destruct (scaled_binade (Z.abs (Qnum q)) (Z.pos (Qden q))) as [Hd Hle]; [lia..|].
  set (nd := Js.scaled (Z.abs (Qnum q)) (Z.pos (Qden q))
               (52 - Js.binade (Z.abs (Qnum q)) (Z.pos (Qden q)))) in *.
  assert (0 < Js.roundEven nd.1 nd.2) as Hm.
  { pose proof (roundEven_ge nd.1 nd.2). pose proof (Z.div_str_pos nd.1 nd.2). lia. }
  assert (~ (inject_Z (Js.roundEven nd.1 nd.2)
             * Qpower 2 (Js.binade (Z.abs (Qnum q)) (Z.pos (Qden q)) - 52) == 0)%Q) as Hv.
  { intros [E|E]%Qmult_integral.
    - unfold Qeq in E. simpl in E. lia.
    - by apply Qpower_not_0 in E. }
  destruct (Qnum q <? 0); [|done]. intros E. apply Hv.
  rewrite <- (Qopp_involutive (_ * _)), E. reflexivity.
Qed.

(** The quotients are those of the doubles: on a grid 600 wide, 300 to the
    left is a little more than three columns and a half, hence four days
    back, where the exact quotient, three and a half, rounds to three. *)
Example round_div_doubles :
  Js.round_div (-300) (Js.number (600 / 7)) = Some (-4)
  /\ Js.round ((-300) / (600 / 7)) = -3.
Proof. by vm_compute. Qed.

Lemma dayWidth_nonzero w : ~ (w == 0)%Q -> ~ (Js.number (w / 7) == 0)%Q.
Proof.
  intros Hw. apply number_nonzero. intros H. apply Hw.
  rewrite <- (Qmult_div_r w 7) by done. rewrite H. reflexivity.
Qed.

Lemma totalDayOffset_Some ds dx dy :
  ~ (dayWidth ds == 0)%Q -> Js.lt 0 (weekHeight ds) = true ->
  totalDayOffset ds dx dy
  = Some (Js.round (Js.number (dx / dayWidth ds))
          + Js.round (Js.number (dy / weekHeight ds)) * 7).
Proof.
  intros Hw Hh. unfold totalDayOffset.
  rewrite (round_div_Some dx _ Hw), Hh. simpl.
  by rewrite (round_div_Some dy _ (lt_0_nonzero _ Hh)).
Qed.

(** One round of the loop rewrites the task with the id of the snapshot. *)
Lemma moveOne_fmap n ts r :
  NoDup (Task.id <$> ts) ->
  moveOne (Some n) ts r
  = Some ((fun t => if decide (Task.id t = rid r)
                    then Spec.movedFrom t (initialStart r) (initialEnd r) n else t) <$> ts).
Proof.
  intros Hnd. unfold moveOne.
  destruct (list_find _ ts) as [[i t]|] eqn:Hfind; simpl.
  - apply list_find_Some in Hfind as (Hi & Hid & _).
    f_equal. apply list_eq. intros j. rewrite list_lookup_fmap.
    destruct (decide (i = j)) as [<-|Hij].
    + rewrite list_lookup_insert_eq by (by eapply lookup_lt_Some).
      rewrite Hi. simpl. by rewrite decide_True.
    + rewrite list_lookup_insert_ne by done.
      destruct (ts !! j) as [u|] eqn:Hj; [|done]. simpl.
      rewrite decide_False; [done|]. intros Hu. apply Hij.
      eapply (NoDup_lookup _ i j (rid r)); [done| |].
      * by rewrite list_lookup_fmap, Hi, <- Hid.
      * by rewrite list_lookup_fmap, Hj, <- Hu.
  - apply list_find_None in Hfind. rewrite Forall_forall in Hfind.
    f_equal. rewrite <- (list_fmap_id ts) at 1. apply list_fmap_ext.
    intros i t Hi. rewrite decide_False; [done|].
    apply Hfind. by eapply list_elem_of_lookup_2.
Qed.

Lemma shiftTask_cons n r rest t :
  rid r ∉ rid <$> rest ->
  Spec.shiftTask n rest
    (if decide (Task.id t = rid r)
     then Spec.movedFrom t (initialStart r) (initialEnd r) n else t)
  = Spec.shiftTask n (r :: rest) t.
Proof.
  intros Hr. unfold Spec.shiftTask at 2. simpl.
  destruct (decide (Task.id t = rid r)) as [Heq|Hne].
  - rewrite decide_True by done. simpl.
    unfold Spec.shiftTask. simpl.
    destruct (list_find _ rest) as [[i r']|] eqn:Hfind; [|done].
    apply list_find_Some in Hfind as (Hi & Hid & _). destruct Hr.
    rewrite <- Heq, <- Hid. apply list_elem_of_fmap_2. by eapply list_elem_of_lookup_2.
  - rewrite decide_False by done. unfold Spec.shiftTask.
    by destruct (list_find _ rest) as [[i r']|].
Qed.

Lemma moveAll_fmap n rel ts :
  NoDup (Task.id <$> ts) -> NoDup (rid <$> rel) ->
  moveAll (Some n) ts rel = Some (Spec.shiftTask n rel <$> ts).
Proof.
  revert ts. induction rel as [|r rest IH]; intros ts Hts Hrel; simpl.
  - f_equal. rewrite <- (list_fmap_id ts) at 1. by apply list_fmap_ext.
  - apply NoDup_cons in Hrel as [Hr Hrest].
    rewrite moveOne_fmap by done. simpl.
    rewrite IH; [|rewrite <- list_fmap_compose|done].
    + f_equal. rewrite <- list_fmap_compose. apply list_fmap_ext.
      intros i t _. simpl. by apply shiftTask_cons.
    + erewrite list_fmap_ext; [exact Hts|].
      intros i t _. simpl. by destruct (decide _).
Qed.

(** The related set of a grouped move, seen from a task of the working
    copy that has the id of the task [t] of the project. *)
Lemma shiftTask_group n (tasks : list Task.t) (g : option string) t cur :
  NoDup (Task.id <$> tasks) -> t ∈ tasks -> Task.id cur = Task.id t ->
  Spec.shiftTask n (snapshot <$> filter (fun u => Task.groupId u = g) tasks) cur
  = if decide (Task.groupId t = g)
    then Spec.movedFrom cur (Task.startDate t) (Task.endDate t) n else cur.
Proof.
  intros Hnd Ht Hid. unfold Spec.shiftTask.
  destruct (list_find _ _) as [[i r]|] eqn:Hfind.
  - apply list_find_Some in Hfind as (Hi & Hr & _).
    apply list_elem_of_lookup_2, list_elem_of_fmap in Hi as (u & -> & Hu).
    apply list_elem_of_filter in Hu as [Hg Hu]. simpl in Hr.
    assert (u = t) as ->.
    { eapply (NoDup_fmap_eq Task.id); [done..|congruence]. }
    by rewrite decide_True.
  - apply list_find_None in Hfind. rewrite Forall_forall in Hfind.
    rewrite decide_False; [done|]. intros Hg.
    apply (Hfind (snapshot t)); [|by simpl].
    apply list_elem_of_fmap_2, list_elem_of_filter. done.
Qed.

Lemma wholeSpan_differenceInDays t :
  Spec.wholeSpan t ->
  differenceInDays (Task.endDate t) (Task.startDate t) * MS_PER_DAY
  = Task.endDate t - Task.startDate t.
Proof.
  unfold Spec.wholeSpan, differenceInDays. intros H.
  pose proof (Z.div_mod (Task.endDate t - Task.startDate t) MS_PER_DAY) as Hdm.
  rewrite H in Hdm.
  assert (Hk : Task.endDate t - Task.startDate t
               = (Task.endDate t - Task.startDate t) / MS_PER_DAY * MS_PER_DAY).
  { unfold MS_PER_DAY in *. lia. }
  rewrite Hk at 1. rewrite Z.quot_mul by done. lia.
Qed.
End DragFacts.
(** * The drag controller against the specification *)

Section DragClaims.
Import DateFns GroupIntervals CalendarView.


Lemma handleMouseMove_move st ds tp x y newTasks :
  dragState st = Some ds -> tempProject st = Some tp -> type ds = move ->
  Js.lt (Qabs (Js.sub x (initialMouseX ds))) 3 && Js.lt (Qabs (Js.sub y (initialMouseY ds))) 3 = false ->
  moveAll (totalDayOffset ds (Js.sub x (initialMouseX ds)) (Js.sub y (initialMouseY ds)))
    (Project.tasks tp) (relatedTasks ds) = Some newTasks ->
  handleMouseMove st x y
  = (Normal, mkView (Some ds) (Some (Project.withTasks tp newTasks)) true).
Proof.
  intros Hds Htp Hty Hpast Hmove. unfold handleMouseMove.
  rewrite Hds, Htp, Hpast, Hty, bool_decide_eq_true_2 by done. by rewrite Hmove.
Qed.

Lemma handleMouseMove_resize st ds tp x y newStartDate newEndDate :
  dragState st = Some ds -> tempProject st = Some tp -> type ds <> move ->
  Js.lt (Qabs (Js.sub x (initialMouseX ds))) 3 && Js.lt (Qabs (Js.sub y (initialMouseY ds))) 3 = false ->
  resizeDates ds (Js.sub x (initialMouseX ds)) = Some (newStartDate, newEndDate) ->
  handleMouseMove st x y
  = (Normal,
     mkView (Some ds)
       (Some (Project.withTasks tp
          ((fun t => if decide (Task.id t = Task.id (task ds))
                     then Task.withDates (task ds) newStartDate newEndDate else t)
             <$> Project.tasks tp)))
       true).
Proof.
  intros Hds Htp Hty Hpast Hres. unfold handleMouseMove.
  rewrite Hds, Htp, Hpast, bool_decide_eq_false_2 by done. by rewrite Hres.
Qed.

(** C4, as the specification words it, fails for a member that does not
    span whole days: H, a day and a half long, comes out of a move of its
    group by one day a single day long, because the handler puts the end
    at the new start plus the duration counted in whole days. *)
Lemma rigid_move_duration_counterexample :
  exists ds newTasks moved,
    handleTaskDragStart Examples.halfDay false None Examples.idle Examples.gH move 0 0
      (Some (700, 120)%Q)
    = mkView (Some ds) (Some Examples.halfDay) false
    /\ handleMouseMove (mkView (Some ds) (Some Examples.halfDay) false) 100 0
       = (Normal, mkView (Some ds) (Some (Project.withTasks Examples.halfDay newTasks)) true)
    /\ newTasks !! 0%nat = Some moved
    /\ Task.startDate moved = addDays (Task.startDate Examples.gH) 1
    /\ Task.endDate Examples.gH - Task.startDate Examples.gH = 36 * 3600000
    /\ Task.endDate moved - Task.startDate moved = 24 * 3600000.
Proof.
  eexists _, _, _. split; [vm_compute; reflexivity|].
  split; [vm_compute; reflexivity|]. split; [reflexivity|]. by vm_compute.
Qed.

(** C4 (amended): a move drag on a task with a group id, past the click
    threshold and in a grid of non-zero width, completes normally and
    shifts the start of every task that shares the group id by
    n = round(dx / columnWidth) + round(dy / rowHeight) * 7 days from its
    snapshotted start, the quotients being those of the doubles and the
    column width a seventh of the width of the grid; it puts the end at the
    new start plus the original duration counted in whole days, and leaves
    every other task alone.  So the differences between the start dates of
    the members are unchanged; the duration of a member, and the
    difference between the end dates of two members, are unchanged when
    the members span whole days.  [tp] is the working copy the pointer move
    finds: the project itself at the first move, the result of the
    previous move afterwards; it has the tasks of the project, id by id. *)
Theorem rigid_group_move (project tp : Project.t) (st0 : ViewState)
    (editingTaskId : option string) (taskProp : Task.t) (x0 y0 w h x y : Q) :
  let st := handleTaskDragStart project false editingTaskId st0 taskProp move x0 y0 (Some (w, h)) in
  let grabbed := default taskProp (findTask (Project.tasks project) (Task.id taskProp)) in
  let dx := Js.sub x x0 in
  let dy := Js.sub y y0 in
  Js.truthy editingTaskId = false ->
  ~ (w == 0)%Q ->
  Js.truthy (Task.groupId grabbed) = true ->
  NoDup (Task.id <$> Project.tasks project) ->
  Task.id <$> Project.tasks tp = Task.id <$> Project.tasks project ->
  Js.lt (Qabs dx) 3 && Js.lt (Qabs dy) 3 = false ->
  exists ds newTasks,
    let n := Js.round (Js.number (dx / dayWidth ds))
             + Js.round (Js.number (dy / weekHeight ds)) * 7 in
    dragState st = Some ds
    /\ dayWidth ds = Js.number (w / 7)
    /\ weekHeight ds = (if Js.lt 0 h then h else 120%Q)
    /\ handleMouseMove (mkView (dragState st) (Some tp) (ignoreClick st)) x y
       = (Normal, mkView (Some ds) (Some (Project.withTasks tp newTasks)) true)
    /\ length newTasks = length (Project.tasks tp)
    /\ (forall i t cur,
          Project.tasks project !! i = Some t -> Project.tasks tp !! i = Some cur ->
          newTasks !! i
          = Some (if decide (Task.groupId t = Task.groupId grabbed)
                  then Spec.movedFrom cur (Task.startDate t) (Task.endDate t) n
                  else cur))
    /\ (forall i j a b a' b',
          Project.tasks project !! i = Some a -> Project.tasks project !! j = Some b ->
          Task.groupId a = Task.groupId grabbed -> Task.groupId b = Task.groupId grabbed ->
          newTasks !! i = Some a' -> newTasks !! j = Some b' ->
          Task.startDate a' = addDays (Task.startDate a) n
          /\ Task.endDate a'
             = addDays (Task.startDate a') (differenceInDays (Task.endDate a) (Task.startDate a))
          /\ differenceInDays (Task.endDate a') (Task.startDate a')
             = differenceInDays (Task.endDate a) (Task.startDate a)
          /\ Task.startDate a' - Task.startDate b' = Task.startDate a - Task.startDate b
          /\ (Spec.wholeSpan a ->
              Task.endDate a' - Task.startDate a' = Task.endDate a - Task.startDate a)
          /\ (Spec.wholeSpan a -> Spec.wholeSpan b ->
              Task.endDate a' - Task.endDate b' = Task.endDate a - Task.endDate b)).
Proof.
  intros st grabbed dx dy Hedit Hw Hgrp Hnd Hids Hpast.
  set (rel := snapshot <$> filter (fun t => Task.groupId t = Task.groupId grabbed)
                             (Project.tasks project)).
  set (ds := mkDragState grabbed move x0 y0 (Js.number (w / 7))
               (if Js.lt 0 h then h else 120%Q)
               (Task.startDate grabbed) (Task.endDate grabbed) rel).
  assert (Hst : st = mkView (Some ds) (Some project) false).
  { unfold st, handleTaskDragStart. rewrite Hedit. fold grabbed. rewrite Hgrp. done. }
  assert (Hh : Js.lt 0 (weekHeight ds) = true).
  { simpl. by destruct (Js.lt 0 h) eqn:E. }
  set (n := Js.round (Js.number (dx / dayWidth ds))
            + Js.round (Js.number (dy / weekHeight ds)) * 7).
  assert (Hmove : moveAll (totalDayOffset ds dx dy) (Project.tasks tp) rel
                  = Some (Spec.shiftTask n rel <$> Project.tasks tp)).
  { rewrite totalDayOffset_Some; [|by apply dayWidth_nonzero|done].
    apply moveAll_fmap; [by rewrite Hids|].
    unfold rel. rewrite <- list_fmap_compose.
    eapply sublist_NoDup; [exact Hnd|]. apply fmap_sublist, sublist_filter. }
  assert (Hlook : forall i t cur,
            Project.tasks project !! i = Some t -> Project.tasks tp !! i = Some cur ->
            (Spec.shiftTask n rel <$> Project.tasks tp) !! i
            = Some (if decide (Task.groupId t = Task.groupId grabbed)
                    then Spec.movedFrom cur (Task.startDate t) (Task.endDate t) n
                    else cur)).
  { intros i t cur Ht Hcur. rewrite list_lookup_fmap, Hcur. simpl. f_equal.
    apply shiftTask_group; [done|by eapply list_elem_of_lookup_2|].
    assert ((Task.id <$> Project.tasks tp) !! i = (Task.id <$> Project.tasks project) !! i)
      as Hi by (by rewrite Hids).
    rewrite !list_lookup_fmap, Ht, Hcur in Hi. simpl in Hi. congruence. }
  exists ds, (Spec.shiftTask n rel <$> Project.tasks tp).
  rewrite Hst. simpl dragState. simpl ignoreClick.
  split; [done|]. split; [done|]. split; [done|].
  split; [|split; [by rewrite length_fmap|split; [exact Hlook|]]].
  - apply handleMouseMove_move; done.
  - intros i j a b a' b' Ha Hb Hga Hgb Ha' Hb'.
    destruct (lookup_lt_is_Some_2 (Project.tasks tp) i) as [ca Hca].
    { rewrite <- (length_fmap Task.id), Hids, length_fmap. by eapply lookup_lt_Some. }
    destruct (lookup_lt_is_Some_2 (Project.tasks tp) j) as [cb Hcb].
    { rewrite <- (length_fmap Task.id), Hids, length_fmap. by eapply lookup_lt_Some. }
    rewrite (Hlook i a ca Ha Hca), decide_True in Ha' by done.
    rewrite (Hlook j b cb Hb Hcb), decide_True in Hb' by done.
    injection Ha' as <-. injection Hb' as <-. simpl.
    split; [done|]. split; [done|]. split; [apply differenceInDays_addDays|].
    split; [unfold addDays; lia|]. split.
    + intros Hwa%wholeSpan_differenceInDays. unfold addDays. lia.
    + intros Hwa%wholeSpan_differenceInDays Hwb%wholeSpan_differenceInDays.
      unfold addDays. lia.
Qed.

Lemma rigid_group_move_witness :
  exists ds newTasks,
    handleMouseMove
      (mkView (Some ds) (Some Examples.grouped) false) 500 0
    = (Normal, mkView (Some ds) (Some (Project.withTasks Examples.grouped newTasks)) true)
    /\ newTasks !! 1%nat
       = Some (Examples.mkTask "B" (localDate 2024 1 10) (localDate 2024 1 11) (Some "g1")).
Proof.
  destruct (rigid_group_move Examples.grouped Examples.grouped Examples.idle None
              Examples.gA 0 0 700 120 500 0)
    as (ds & newTasks & Hds & _ & _ & Hmove & _ & Hlook & _).
  - reflexivity.
  - vm_compute. discriminate.
  - reflexivity.
  - apply (bool_decide_unpack _). vm_compute. exact I.
  - reflexivity.
  - reflexivity.
  - exists ds, newTasks. split.
    + injection Hds as <-. exact Hmove.
    + rewrite (Hlook 1%nat Examples.gB Examples.gB eq_refl eq_refl).
      injection Hds as <-. vm_compute. reflexivity.
Defined.


End DragClaims.

(** * Facts about the group operations *)

Section GroupFacts.
Import DateFns GroupIntervals CalendarView.

Lemma find_Some {A} (P : A -> Prop) `{!forall x, Decision (P x)} (l : list A) x :
  Js.find P l = Some x -> x ∈ l /\ P x.
Proof.
  unfold Js.find. intros ([i y] & Hf & ->)%fmap_Some.
  apply list_find_Some in Hf as (Hi & HP & _). split; [|done].
  by eapply list_elem_of_lookup_2.
Qed.

Lemma find_None {A} (P : A -> Prop) `{!forall x, Decision (P x)} (l : list A) :
  Js.find P l = None -> forall x, x ∈ l -> ~ P x.
Proof.
  unfold Js.find. intros Hf%fmap_None. apply list_find_None in Hf.
  by rewrite Forall_forall in Hf.
Qed.

Lemma findTask_Some tasks id t : findTask tasks id = Some t -> t ∈ tasks /\ Task.id t = id.
Proof. unfold findTask. intros H. by apply find_Some in H. Qed.

Lemma findTask_is_Some tasks t : t ∈ tasks -> is_Some (findTask tasks (Task.id t)).
Proof.
  intros Ht. destruct (findTask tasks (Task.id t)) as [u|] eqn:Hf; [by eexists|].
  unfold findTask in Hf. by destruct (find_None _ _ Hf t Ht).
Qed.

(** The ids of the selected tasks that exist, in selection order. *)
Lemma picked_sublist tasks (selected : list string) :
  Task.id <$> omap (findTask tasks) selected `sublist_of` selected.
Proof.
  induction selected as [|x sel IH]; csimpl; [constructor|].
  destruct (findTask tasks x) as [t|] eqn:Hf; csimpl.
  - apply findTask_Some in Hf as [_ ->]. by constructor.
  - by constructor.
Qed.

Lemma elem_of_picked tasks (selected : list string) id :
  id ∈ Task.id <$> omap (findTask tasks) selected
  <-> id ∈ selected /\ exists t, t ∈ tasks /\ Task.id t = id.
Proof.
  rewrite list_elem_of_fmap. split.
  - intros (t & -> & (x & Hx & Hf)%list_elem_of_omap).
    apply findTask_Some in Hf as [Ht <-]. eauto.
  - intros (Hsel & t & Ht & <-).
    destruct (findTask_is_Some tasks t Ht) as [u Hu].
    exists u. split; [by apply findTask_Some in Hu as [_ ->]|].
    apply list_elem_of_omap. eauto.
Qed.

Lemma length_omap_le {A B} (f : A -> option B) (l : list A) :
  (length (omap f l) <= length l)%nat.
Proof. induction l as [|x l IH]; csimpl; [done|]. destruct (f x); simpl; lia. Qed.

Lemma filter_length_eq {A} (P : A -> Prop) `{!forall x, Decision (P x)} (l : list A) :
  length (filter P l) = length l -> filter P l = l.
Proof.
  induction l as [|x l IH]; [done|]. rewrite filter_cons.
  destruct (decide (P x)); simpl; intros Hlen.
  - f_equal. apply IH. lia.
  - pose proof (length_filter P l). lia.
Qed.

Lemma computeIntervals_length tasks :
  length (computeIntervals tasks) = (length tasks - 1)%nat.
Proof.
  unfold computeIntervals, Js.sliceInit. rewrite length_imap, length_take. lia.
Qed.

Lemma computeIntervals_lookup tasks i a b :
  tasks !! i = Some a -> tasks !! S i = Some b ->
  computeIntervals tasks !! i
  = Some (Z.max 0 (differenceInDays (Task.startDate b) (Task.endDate a))).
Proof.
  intros Ha Hb. unfold computeIntervals, Js.sliceInit.
  rewrite list_lookup_imap, lookup_take_lt, Ha; [by simpl; rewrite Hb|].
  apply lookup_lt_Some in Hb. lia.
Qed.

Lemma compareStart_le a b :
  compareStart a b <= 0 <-> Task.startDate a <= Task.startDate b.
Proof. unfold compareStart. lia. Qed.

(** What cleaning makes of an old group. *)
Lemma cleanGroup_None tasks taskIds g :
  cleanGroup tasks taskIds g = None
  <-> filter (fun id => id ∉ taskIds) (TaskGroup.taskIds g) = [].
Proof.
  unfold cleanGroup.
  destruct (filter (fun id => id ∉ taskIds) (TaskGroup.taskIds g)) as [|x l] eqn:E; simpl.
  - done.
  - split; [|done]. by destruct (negb _).
Qed.

Lemma cleanGroup_Some tasks taskIds g g' :
  cleanGroup tasks taskIds g = Some g' ->
  TaskGroup.id g' = TaskGroup.id g /\ TaskGroup.name g' = TaskGroup.name g
  /\ TaskGroup.taskIds g' = filter (fun id => id ∉ taskIds) (TaskGroup.taskIds g)
  /\ TaskGroup.taskIds g' <> [].
Proof.
  unfold cleanGroup.
  set (remaining := filter (fun id => id ∉ taskIds) (TaskGroup.taskIds g)).
  destruct (Nat.eqb_spec (length remaining) 0) as [|Hne]; [done|].
  assert (remaining <> []) by (intros E; by rewrite E in Hne).
  destruct (Nat.eqb_spec (length remaining) (length (TaskGroup.taskIds g))) as [Hlen|Hlen]; simpl.
  - intros [= <-]. apply filter_length_eq in Hlen. fold remaining in Hlen.
    by rewrite <- Hlen.
  - by intros [= <-].
Qed.

(** The two ways [handleCreateGroup] can end without an update, and the
    update it makes otherwise. *)
Lemma handleCreateGroup_created project isLocked groupName selected newGroupId updated :
  handleCreateGroup project isLocked groupName selected newGroupId = GroupCreated updated ->
  exists name,
    let selectedTasks :=
      Js.sort compareStart (omap (findTask (Project.tasks project)) selected) in
    let taskIds := Task.id <$> selectedTasks in
    isLocked = false /\ groupName = Some name /\ Js.isBlank name = false
    /\ (2 <= length selectedTasks)%nat
    /\ updated
       = Project.withTasksGroups project
           ((fun task => if decide (Task.id task ∈ taskIds)
                         then Task.withGroupId task (Some newGroupId) else task)
              <$> Project.tasks project)
           (omap (cleanGroup (Project.tasks project) taskIds) (Project.groups project)
            ++ [TaskGroup.mk newGroupId name taskIds (computeIntervals selectedTasks)]).
Proof.
  unfold handleCreateGroup. destruct isLocked; [done|].
  destruct groupName as [name|]; [|done].
  destruct (Js.isBlank name) eqn:Hb; [done|].
  destruct (Nat.ltb_spec
              (length (Js.sort compareStart (omap (findTask (Project.tasks project)) selected)))
              2) as [|Hlen]; [done|].
  intros [= <-]. exists name. done.
Qed.

Lemma handleCreateGroup_enough project name selected newGroupId :
  Js.isBlank name = false ->
  (2 <= length (omap (findTask (Project.tasks project)) selected))%nat ->
  exists updated,
    handleCreateGroup project false (Some name) selected newGroupId = GroupCreated updated.
Proof.
  intros Hb Hlen. unfold handleCreateGroup. rewrite Hb.
  destruct (Nat.ltb_spec
              (length (Js.sort compareStart (omap (findTask (Project.tasks project)) selected)))
              2) as [Hlt|_]; [|by eexists].
  rewrite sort_length in Hlt. lia.
Qed.
End GroupFacts.

(** * Group creation against the specification *)

Section CreateGroupClaims.
Import DateFns GroupIntervals CalendarView.

(** C6, as the specification words it, fails on ties: A and B start on
    the same day and B was selected first; the new group lists B before
    A, although the id of A is the smaller one. *)
Lemma tie_by_id_counterexample :
  handleCreateGroup Examples.tied false (Some "G") ["B"; "A"] "g1"
  = GroupCreated
      (Project.withTasksGroups Examples.tied
         [Task.withGroupId Examples.sA (Some "g1"); Task.withGroupId Examples.sB (Some "g1")]
         [TaskGroup.mk "g1" "G" ["B"; "A"] [0]])
  /\ Task.startDate Examples.sA = Task.startDate Examples.sB
  /\ String.ltb "A" "B" = true.
Proof. by vm_compute. Qed.

(** C6 (amended): when at least two of the selected ids are ids of tasks,
    the new group lists those tasks sorted by start date ascending, tasks
    with equal start dates keeping the order in which they were selected
    (ids are not compared); its intervals have one entry less than its
    task ids, and entry i is max(0, differenceInDays(start of task i+1,
    end of task i)). *)
Theorem createGroup_order_intervals (project : Project.t) (name : string)
    (selected : list string) (newGroupId : string) :
  Js.isBlank name = false ->
  let chosen := omap (findTask (Project.tasks project)) selected in
  (2 <= length chosen)%nat ->
  exists updated cleaned sorted intervals,
    handleCreateGroup project false (Some name) selected newGroupId = GroupCreated updated
    /\ Project.groups updated
       = cleaned ++ [TaskGroup.mk newGroupId name (Task.id <$> sorted) intervals]
    /\ sorted ≡ₚ chosen
    /\ StronglySorted (fun a b => Task.startDate a <= Task.startDate b) sorted
    /\ (forall d, filter (fun t => Task.startDate t = d) sorted
                  = filter (fun t => Task.startDate t = d) chosen)
    /\ length intervals = (length (Task.id <$> sorted) - 1)%nat
    /\ (forall i a b, sorted !! i = Some a -> sorted !! S i = Some b ->
          intervals !! i
          = Some (Z.max 0 (differenceInDays (Task.startDate b) (Task.endDate a)))).
Proof.
  intros Hb chosen Hlen.
  destruct (handleCreateGroup_enough project name selected newGroupId Hb Hlen) as [updated Hc].
  destruct (handleCreateGroup_created _ _ _ _ _ _ Hc) as (name' & _ & [= <-] & _ & _ & Hup).
  exists updated, (omap (cleanGroup (Project.tasks project)
                           (Task.id <$> Js.sort compareStart chosen))
                     (Project.groups project)),
    (Js.sort compareStart chosen), (computeIntervals (Js.sort compareStart chosen)).
  split; [done|]. split; [by rewrite Hup|]. split; [apply sort_Permutation|].
  split; [|split; [|split]].
  - apply (sort_StronglySorted compareStart _ (fun _ => True)).
    + intros a b _ _. apply compareStart_le.
    + intros a b _ _. lia.
    + intros a b c. lia.
    + by apply Forall_forall.
  - intros d. apply sort_filter. intros a b Ha Hb'. apply compareStart_le. lia.
  - by rewrite computeIntervals_length, length_fmap.
  - apply computeIntervals_lookup.
Qed.

Lemma createGroup_order_intervals_witness :
  exists updated cleaned sorted intervals,
    handleCreateGroup Examples.ungrouped false (Some "G") ["B"; "A"] "g1" = GroupCreated updated
    /\ Project.groups updated
       = cleaned ++ [TaskGroup.mk "g1" "G" (Task.id <$> sorted) intervals]
    /\ sorted ≡ₚ [Examples.tB; Examples.tA].
Proof.
  destruct (createGroup_order_intervals Examples.ungrouped "G" ["B"; "A"] "g1")
    as (updated & cleaned & sorted & intervals & Hc & Hg & Hp & _).
  - reflexivity.
  - vm_compute. lia.
  - exists updated, cleaned, sorted, intervals. split; [exact Hc|]. split; [exact Hg|].
    exact Hp.
Defined.

(** The scenario of the specification: A (2024-01-01..01-02) and B
    (2024-01-05..01-06) selected give the task ids [A, B] and the
    intervals [3]. *)
Example createGroup_scenario :
  handleCreateGroup Examples.ungrouped false (Some "G") ["B"; "A"] "g1"
  = GroupCreated
      (Project.withTasksGroups Examples.ungrouped
         [Examples.gA; Examples.gB; Examples.tC]
         [TaskGroup.mk "g1" "G" ["A"; "B"] [3]]).
Proof. by vm_compute. Qed.

(** C9: with fewer than two selected task ids nothing is created and the
    project stays as it was; when the view is unlocked and a name was
    given, the attempt ends with the notification that at least two tasks
    must be selected. *)
Theorem createGroup_insufficient (project : Project.t) (isLocked : bool)
    (groupName : option string) (selected : list string) (newGroupId : string) :
  (length selected < 2)%nat ->
  let result := handleCreateGroup project isLocked groupName selected newGroupId in
  Workspace.afterCreateGroup project result = project
  /\ Workspace.run isLocked project (Workspace.CreateGroup groupName selected newGroupId)
     = project
  /\ (isLocked = false ->
      (exists name, groupName = Some name /\ Js.isBlank name = false) ->
      result = InsufficientSelection).
Proof.
  intros Hsel result.
  assert (Hlt : (length (Js.sort compareStart
                           (omap (findTask (Project.tasks project)) selected)) <? 2)%nat = true).
  { apply Nat.ltb_lt. rewrite sort_length.
    pose proof (length_omap_le (findTask (Project.tasks project)) selected). lia. }
  assert (Hnot : Workspace.afterCreateGroup project result = project).
  { destruct result as [| |updated] eqn:Hr; [done..|].
    apply handleCreateGroup_created in Hr as (name & _ & _ & _ & Hlen & _).
    apply Nat.ltb_lt in Hlt. lia. }
  split; [done|]. split; [done|].
  intros -> (name & -> & Hb). unfold result, handleCreateGroup. by rewrite Hb, Hlt.
Qed.

Lemma createGroup_insufficient_witness :
  handleCreateGroup Examples.ungrouped false (Some "G") ["A"] "g1" = InsufficientSelection.
Proof.
  apply (createGroup_insufficient Examples.ungrouped false (Some "G") ["A"] "g1").
  - simpl. lia.
  - reflexivity.
  - exists "G". split; reflexivity.
Defined.

(** A name of Unicode white space is blank as well: with the ideographic
    space for a name the handler returns before it updates anything. *)
Example createGroup_blank_name :
  Js.isBlank Examples.ideographicSpace = true
  /\ handleCreateGroup Examples.ungrouped false (Some Examples.ideographicSpace)
       ["A"; "B"] "g1" = Ignored.
Proof. by vm_compute. Qed.
End CreateGroupClaims.

(** * Purging, unlinking and deleting against the specification *)

Section GroupModelClaims.
Import DateFns GroupIntervals CalendarView GroupRelationshipView.

Lemma find_unique_id (groups : list TaskGroup.t) group :
  NoDup (TaskGroup.id <$> groups) -> group ∈ groups ->
  Js.find (fun g => TaskGroup.id g = TaskGroup.id group) groups = Some group.
Proof.
  intros Hnd Hin.
  destruct (Js.find (fun g => TaskGroup.id g = TaskGroup.id group) groups) as [g|] eqn:Hf.
  - apply find_Some in Hf as [Hg Hid]. f_equal.
    by eapply (NoDup_fmap_eq TaskGroup.id).
  - by destruct (find_None _ _ Hf group Hin).
Qed.

Lemma sorted_ids_elem_of tasks (selected : list string) id :
  id ∈ Task.id <$> Js.sort compareStart (omap (findTask tasks) selected)
  <-> id ∈ Task.id <$> omap (findTask tasks) selected.
Proof. by rewrite sort_Permutation. Qed.

(** C1, as the specification words it, fails: the group g1 = [A, B]
    loses B to the new group and is left with the single member A; it is
    still in the collection, with no intervals. *)
Lemma singleton_group_kept_counterexample :
  handleCreateGroup Examples.grouped false (Some "H") ["B"; "C"] "g2"
  = GroupCreated
      (Project.withTasksGroups Examples.grouped
         [Examples.gA; Task.withGroupId Examples.gB (Some "g2");
          Task.withGroupId Examples.tC (Some "g2")]
         [TaskGroup.mk "g1" "G" ["A"] []; TaskGroup.mk "g2" "H" ["B"; "C"] [4]])
  /\ (length (TaskGroup.taskIds (TaskGroup.mk "g1" "G" ["A"] [])) < 2)%nat.
Proof. split; [by vm_compute|simpl; lia]. Qed.

(** C1 (amended): when a group is created, a pre-existing group all of
    whose members were selected is removed from the collection; a
    pre-existing group that keeps at least one member, be it a single one,
    stays in the collection under its id and name, with the members that
    were not selected, in their order. *)
Theorem createGroup_purges_groups (project : Project.t) (isLocked : bool)
    (groupName : option string) (selected : list string) (newGroupId : string)
    (updated : Project.t) :
  handleCreateGroup project isLocked groupName selected newGroupId = GroupCreated updated ->
  NoDup (TaskGroup.id <$> Project.groups project) ->
  newGroupId ∉ TaskGroup.id <$> Project.groups project ->
  let picked := Task.id <$> omap (findTask (Project.tasks project)) selected in
  forall g, g ∈ Project.groups project ->
    let remaining := filter (fun id => id ∉ picked) (TaskGroup.taskIds g) in
    (remaining = [] ->
     forall g', g' ∈ Project.groups updated -> TaskGroup.id g' <> TaskGroup.id g)
    /\ (remaining <> [] ->
        exists g', g' ∈ Project.groups updated
                   /\ TaskGroup.id g' = TaskGroup.id g
                   /\ TaskGroup.name g' = TaskGroup.name g
                   /\ TaskGroup.taskIds g' = remaining).
Proof.
  intros Hc Hnd Hfresh picked g Hg remaining.
  apply handleCreateGroup_created in Hc as (name & _ & _ & _ & _ & ->). simpl.
  set (taskIds := Task.id <$> Js.sort compareStart
                    (omap (findTask (Project.tasks project)) selected)).
  assert (Hrem : forall grp, filter (fun id => id ∉ taskIds) (TaskGroup.taskIds grp)
                             = filter (fun id => id ∉ picked) (TaskGroup.taskIds grp)).
  { intros grp. apply list_filter_iff. intros id. unfold taskIds, picked.
    by rewrite sorted_ids_elem_of. }
  split.
  - intros Hempty g' [Hin|Hin]%elem_of_app Hid.
    + apply list_elem_of_omap in Hin as (g0 & Hg0 & Hclean).
      pose proof (cleanGroup_Some _ _ _ _ Hclean) as (Hid0 & _ & _ & _).
      assert (g0 = g) as ->.
      { eapply (NoDup_fmap_eq TaskGroup.id); [done..|congruence]. }
      assert (cleanGroup (Project.tasks project) taskIds g = None); [|congruence].
      apply cleanGroup_None. by rewrite Hrem.
    + apply list_elem_of_singleton in Hin as ->. simpl in Hid.
      apply Hfresh. rewrite Hid. by apply list_elem_of_fmap_2.
  - intros Hne.
    destruct (cleanGroup (Project.tasks project) taskIds g) as [g'|] eqn:Hclean.
    + pose proof (cleanGroup_Some _ _ _ _ Hclean) as (Hid & Hname & Hids & _).
      exists g'. rewrite Hrem in Hids. split; [|done].
      apply elem_of_app. left. apply list_elem_of_omap. eauto.
    + apply cleanGroup_None in Hclean. rewrite Hrem in Hclean. done.
Qed.

Lemma createGroup_purges_groups_witness :
  exists g', g' ∈ [TaskGroup.mk "g1" "G" ["A"] []; TaskGroup.mk "g2" "H" ["B"; "C"] [4]]
             /\ TaskGroup.id g' = "g1" /\ TaskGroup.name g' = "G"
             /\ TaskGroup.taskIds g' = ["A"].
Proof.
  apply (createGroup_purges_groups Examples.grouped false (Some "H") ["B"; "C"] "g2"
           (Project.withTasksGroups Examples.grouped
              [Examples.gA; Task.withGroupId Examples.gB (Some "g2");
               Task.withGroupId Examples.tC (Some "g2")]
              [TaskGroup.mk "g1" "G" ["A"] []; TaskGroup.mk "g2" "H" ["B"; "C"] [4]])
           ltac:(vm_compute; reflexivity)
           ltac:(apply (bool_decide_unpack _); vm_compute; exact I)
           ltac:(apply (bool_decide_unpack _); vm_compute; exact I)
           Examples.g1
           ltac:(apply (bool_decide_unpack _); vm_compute; exact I)).
  vm_compute. discriminate.
Defined.



End GroupModelClaims.

(** * Bidirectional membership *)

Section ConsistencyFacts.
Import DateFns GroupIntervals CalendarView GroupRelationshipView.

(** The invariant, element by element. *)
Lemma consistent_alt p :
  Spec.consistent p <->
  NoDup (Task.id <$> Project.tasks p)
  /\ NoDup (TaskGroup.id <$> Project.groups p)
  /\ (forall t g, t ∈ Project.tasks p -> Task.groupId t = Some g ->
        exists grp, grp ∈ Project.groups p /\ TaskGroup.id grp = g
                    /\ Task.id t ∈ TaskGroup.taskIds grp)
  /\ (forall grp, grp ∈ Project.groups p ->
        NoDup (TaskGroup.taskIds grp)
        /\ forall tid, tid ∈ TaskGroup.taskIds grp ->
             exists t, t ∈ Project.tasks p /\ Task.id t = tid
                       /\ Task.groupId t = Some (TaskGroup.id grp)).
Proof.
  unfold Spec.consistent. rewrite !Forall_forall. split.
  - intros (Ht & Hg & H1 & H2). split; [done|]. split; [done|]. split.
    + intros t g Hin Hgid. specialize (H1 t Hin). unfold Spec.taskListed in H1.
      rewrite Hgid in H1. apply Exists_exists in H1 as (grp & ? & ? & ?). eauto.
    + intros grp Hin. destruct (H2 grp Hin) as [Hnd Hm]. split; [done|].
      intros tid Htid. rewrite Forall_forall in Hm. specialize (Hm tid Htid).
      apply Exists_exists in Hm as (t & ? & ? & ?). eauto.
  - intros (Ht & Hg & H1 & H2). split; [done|]. split; [done|]. split.
    + intros t Hin. unfold Spec.taskListed. destruct (Task.groupId t) as [g|] eqn:Hgid; [|done].
      destruct (H1 t g Hin Hgid) as (grp & ? & ? & ?). apply Exists_exists. eauto.
    + intros grp Hin. destruct (H2 grp Hin) as [Hnd Hm]. split; [done|].
      apply Forall_forall. intros tid Htid.
      destruct (Hm tid Htid) as (t & ? & ? & ?). apply Exists_exists. eauto.
Qed.

Lemma task_ids_fmap (f : Task.t -> Task.t) (tasks : list Task.t) :
  (forall t, Task.id (f t) = Task.id t) -> Task.id <$> (f <$> tasks) = Task.id <$> tasks.
Proof. intros Hf. rewrite <- list_fmap_compose. apply list_fmap_ext. intros i t _. apply Hf. Qed.

Lemma cleaned_ids_sublist tasks taskIds (groups : list TaskGroup.t) :
  TaskGroup.id <$> omap (cleanGroup tasks taskIds) groups `sublist_of` TaskGroup.id <$> groups.
Proof.
  induction groups as [|g groups IH]; csimpl; [constructor|].
  destruct (cleanGroup tasks taskIds g) as [g'|] eqn:Hc; csimpl.
  - apply cleanGroup_Some in Hc as (-> & _). by constructor.
  - by constructor.
Qed.

Lemma deleteGroup_consistent p groupId :
  Spec.consistent p ->
  Spec.consistent
    (Project.withTasksGroups p
       ((fun t => if decide (Task.groupId t = Some groupId)
                  then Task.withGroupId t None else t) <$> Project.tasks p)
       (filter (fun g => TaskGroup.id g <> groupId) (Project.groups p))).
Proof.
  intros (Ht & Hg & H1 & H2)%consistent_alt. apply consistent_alt. simpl.
  split; [|split; [|split]].
  - rewrite task_ids_fmap; [done|]. intros t. by destruct (decide _).
  - eapply sublist_NoDup; [exact Hg|]. apply fmap_sublist, sublist_filter.
  - intros t' g (t & -> & Hin)%list_elem_of_fmap Hgid.
    destruct (decide (Task.groupId t = Some groupId)) as [|Hne]; [done|].
    destruct (H1 t g Hin Hgid) as (grp & Hgrp & Hid & Hmem).
    exists grp. split; [|done]. apply list_elem_of_filter. split; [|done]. congruence.
  - intros grp [Hid Hgrp]%list_elem_of_filter. destruct (H2 grp Hgrp) as [Hnd Hm].
    split; [done|]. intros tid Htid. destruct (Hm tid Htid) as (t & Hin & Hidt & Hgid).
    exists t. split; [|done]. apply list_elem_of_fmap. exists t. split; [|done].
    rewrite decide_False; [done|]. congruence.
Qed.

Lemma unlinkTask_consistent p taskId group updatedGroups :
  Spec.consistent p ->
  group ∈ Project.groups p -> taskId ∈ TaskGroup.taskIds group ->
  let groupId := TaskGroup.id group in
  let remaining := filter (fun id => id <> taskId) (TaskGroup.taskIds group) in
  (remaining = [] /\
   updatedGroups = filter (fun g => TaskGroup.id g <> groupId) (Project.groups p))
  \/ (exists intervals,
        updatedGroups
        = (fun g => if decide (TaskGroup.id g = groupId)
                    then TaskGroup.withMembers group remaining intervals else g)
            <$> Project.groups p) ->
  Spec.consistent
    (Project.withTasksGroups p
       ((fun t => if decide (Task.id t = taskId) then Task.withGroupId t None else t)
          <$> Project.tasks p)
       updatedGroups).
Proof.
  intros (Ht & Hg & H1 & H2)%consistent_alt Hgroup Hmember groupId remaining Hup.
  assert (Hsame : forall grp, grp ∈ Project.groups p -> TaskGroup.id grp = groupId -> grp = group).
  { intros grp Hin Hid. by eapply (NoDup_fmap_eq TaskGroup.id). }
  assert (Hother : forall grp t, grp ∈ Project.groups p -> TaskGroup.id grp <> groupId ->
                     t ∈ Project.tasks p -> Task.groupId t = Some (TaskGroup.id grp) ->
                     Task.id t <> taskId).
  { intros grp t Hin Hid Htin Hgid Heq.
    destruct (H2 group Hgroup) as [_ Hm].
    destruct (Hm taskId Hmember) as (t2 & Ht2 & Hid2 & Hg2).
    assert (t = t2) as -> by (eapply (NoDup_fmap_eq Task.id); [done..|congruence]).
    apply Hid. unfold groupId. congruence. }
  assert (Hrem : forall tid, tid ∈ remaining <-> tid ∈ TaskGroup.taskIds group /\ tid <> taskId).
  { intros tid. unfold remaining. rewrite list_elem_of_filter. tauto. }
  apply consistent_alt. simpl. split; [|split; [|split]].
  - rewrite task_ids_fmap; [done|]. intros t. by destruct (decide _).
  - destruct Hup as [[_ ->]|[intervals ->]].
    + eapply sublist_NoDup; [exact Hg|]. apply fmap_sublist, sublist_filter.
    + rewrite <- list_fmap_compose. erewrite list_fmap_ext; [exact Hg|].
      intros i g _. simpl. by destruct (decide _).
  - intros t' g (t & -> & Hin)%list_elem_of_fmap Hgid.
    destruct (decide (Task.id t = taskId)) as [|Hne]; [done|].
    destruct (H1 t g Hin Hgid) as (grp & Hgrp & Hid & Hmem).
    destruct (decide (g = groupId)) as [->|Hg'].
    + assert (grp = group) as -> by (by apply Hsame).
      assert (Task.id t ∈ remaining) as Hr by (by apply Hrem).
      destruct Hup as [[Hnil _]|[intervals ->]].
      * rewrite Hnil in Hr. by apply elem_of_nil in Hr.
      * eexists. split; [apply list_elem_of_fmap; exists group; split; [done|exact Hgroup]|].
        by rewrite decide_True.
    + exists grp. split; [|done].
      destruct Hup as [[_ ->]|[intervals ->]].
      * apply list_elem_of_filter. split; [congruence|done].
      * apply list_elem_of_fmap. exists grp. split; [|done].
        rewrite decide_False; [done|congruence].
  - assert (Hkeep : forall grp, grp ∈ Project.groups p -> TaskGroup.id grp <> groupId ->
              NoDup (TaskGroup.taskIds grp)
              /\ forall tid, tid ∈ TaskGroup.taskIds grp ->
                   exists t, t ∈ (fun t => if decide (Task.id t = taskId)
                                           then Task.withGroupId t None else t)
                                   <$> Project.tasks p
                             /\ Task.id t = tid /\ Task.groupId t = Some (TaskGroup.id grp)).
    { intros grp Hin Hid. destruct (H2 grp Hin) as [Hnd Hm]. split; [done|].
      intros tid Htid. destruct (Hm tid Htid) as (t & Htin & Hidt & Hgid).
      exists t. split; [|done]. apply list_elem_of_fmap. exists t. split; [|done].
      rewrite decide_False; [done|]. by eapply Hother. }
    intros grp' Hgrp'. destruct Hup as [[_ ->]|[intervals ->]].
    + apply list_elem_of_filter in Hgrp' as [Hid Hin]. by apply Hkeep.
    + apply list_elem_of_fmap in Hgrp' as (grp & -> & Hin).
      destruct (decide (TaskGroup.id grp = groupId)) as [Hid|Hid]; [|by apply Hkeep].
      simpl. destruct (H2 group Hgroup) as [Hnd Hm]. split; [by apply NoDup_filter|].
      intros tid [Htid Hne]%Hrem. destruct (Hm tid Htid) as (t & Htin & Hidt & Hgid).
      exists t. split; [|done]. apply list_elem_of_fmap. exists t. split; [|done].
      rewrite decide_False; [done|congruence].
Qed.

Lemma createGroup_consistent p name (selected : list string) newGroupId :
  Spec.consistent p ->
  NoDup selected -> newGroupId ∉ TaskGroup.id <$> Project.groups p ->
  let selectedTasks := Js.sort compareStart (omap (findTask (Project.tasks p)) selected) in
  let taskIds := Task.id <$> selectedTasks in
  Spec.consistent
    (Project.withTasksGroups p
       ((fun task => if decide (Task.id task ∈ taskIds)
                     then Task.withGroupId task (Some newGroupId) else task)
          <$> Project.tasks p)
       (omap (cleanGroup (Project.tasks p) taskIds) (Project.groups p)
        ++ [TaskGroup.mk newGroupId name taskIds (computeIntervals selectedTasks)])).
Proof.
  intros (Ht & Hg & H1 & H2)%consistent_alt Hsel Hfresh selectedTasks taskIds.
  assert (Hids : forall id, id ∈ taskIds -> exists t, t ∈ Project.tasks p /\ Task.id t = id).
  { intros id Hid. unfold taskIds, selectedTasks in Hid.
    apply sorted_ids_elem_of, elem_of_picked in Hid as [_ ?]. done. }
  assert (Hnd : NoDup taskIds).
  { unfold taskIds, selectedTasks. rewrite sort_Permutation.
    eapply sublist_NoDup; [exact Hsel|]. apply picked_sublist. }
  apply consistent_alt. simpl. split; [|split; [|split]].
  - rewrite task_ids_fmap; [done|]. intros t. by destruct (decide _).
  - rewrite fmap_app. apply NoDup_app. split; [|split].
    + eapply sublist_NoDup; [exact Hg|]. apply cleaned_ids_sublist.
    + intros id Hid ->%list_elem_of_singleton. apply Hfresh.
      eapply elem_of_sublist; [exact Hid|]. apply cleaned_ids_sublist.
    + apply NoDup_singleton.
  - intros t' g (t & -> & Hin)%list_elem_of_fmap Hgid.
    destruct (decide (Task.id t ∈ taskIds)) as [Hpick|Hpick].
    + simpl in Hgid. injection Hgid as <-. eexists. split; [|split].
      * apply elem_of_app. right. apply list_elem_of_singleton. reflexivity.
      * done.
      * done.
    + destruct (H1 t g Hin Hgid) as (grp & Hgrp & Hid & Hmem).
      destruct (cleanGroup (Project.tasks p) taskIds grp) as [grp'|] eqn:Hc.
      * pose proof (cleanGroup_Some _ _ _ _ Hc) as (Hid' & _ & Hids' & _).
        exists grp'. split; [|split].
        -- apply elem_of_app. left. apply list_elem_of_omap. eauto.
        -- congruence.
        -- rewrite Hids'. by apply list_elem_of_filter.
      * apply cleanGroup_None in Hc.
        assert (Task.id t ∈ filter (fun id => id ∉ taskIds) (TaskGroup.taskIds grp)) as Hf
          by (by apply list_elem_of_filter).
        rewrite Hc in Hf. by apply elem_of_nil in Hf.
  - intros grp' [Hgrp'|Hgrp']%elem_of_app.
    + apply list_elem_of_omap in Hgrp' as (grp & Hgrp & Hc).
      apply cleanGroup_Some in Hc as (Hid' & _ & Hids' & _).
      destruct (H2 grp Hgrp) as [Hndg Hm]. rewrite Hids', Hid'.
      split; [by apply NoDup_filter|].
      intros tid [Hpick Htid]%list_elem_of_filter.
      destruct (Hm tid Htid) as (t & Htin & Hidt & Hgid).
      exists t. split; [|done]. apply list_elem_of_fmap. exists t. split; [|done].
      rewrite decide_False; [done|]. by rewrite Hidt.
    + apply list_elem_of_singleton in Hgrp' as ->. simpl. split; [done|].
      intros tid Htid. destruct (Hids tid Htid) as (t & Htin & Hidt).
      exists (Task.withGroupId t (Some newGroupId)). split; [|done].
      apply list_elem_of_fmap. exists t. split; [|done].
      rewrite decide_True; [done|]. by rewrite Hidt.
Qed.
End ConsistencyFacts.

Section MembershipClaim.
Import DateFns GroupIntervals CalendarView GroupRelationshipView.

(** C3: bidirectional membership is kept by every mutating operation of
    the group model.  In a project whose task ids and group ids are unique,
    where every task with a group id is listed by the group it names and
    every id a group lists is, exactly once, the id of a task that names the
    group, the same holds after creating a group (from a selection set, under
    a fresh group id), after unlinking a member from its group and after
    deleting a group. *)
Theorem group_ops_preserve_membership (isLocked : bool) (p : Project.t)
    (op : Workspace.GroupOp) :
  Spec.consistent p -> Spec.admissible p op ->
  Spec.consistent (Workspace.run isLocked p op).
Proof.
  intros Hp Hop. destruct op as [groupName selected newGroupId|taskId groupId|groupId]; simpl.
  - destruct Hop as [Hsel Hfresh].
    destruct (handleCreateGroup p isLocked groupName selected newGroupId) as [| |updated] eqn:Hc;
      [done..|].
    apply handleCreateGroup_created in Hc as (name & _ & _ & _ & _ & ->). simpl.
    by apply createGroup_consistent.
  - apply Exists_exists in Hop as (group & Hgroup & <- & Hmember).
    unfold handleUnlinkTask. destruct isLocked; [done|].
    pose proof Hp as (_ & Hg & _)%consistent_alt.
    rewrite (find_unique_id _ _ Hg Hgroup). simpl.
    apply (unlinkTask_consistent p taskId group); [done..|].
    destruct (Nat.eqb_spec
                (length (filter (fun id => id <> taskId) (TaskGroup.taskIds group))) 0) as [Hlen|_].
    + left. split; [|done]. by apply length_zero_iff_nil.
    + right. by eexists.
  - unfold handleDeleteGroup. destruct isLocked; [done|]. simpl.
    by apply deleteGroup_consistent.
Qed.

Lemma group_ops_preserve_membership_witness :
  Spec.consistent
    (Workspace.run false Examples.grouped (Workspace.CreateGroup (Some "H") ["B"; "C"] "g2"))
  /\ Spec.consistent (Workspace.run false Examples.grouped (Workspace.UnlinkTask "B" "g1"))
  /\ Spec.consistent (Workspace.run false Examples.grouped (Workspace.DeleteGroup "g1")).
Proof.
  assert (Hp : Spec.consistent Examples.grouped).
  { apply (bool_decide_unpack _). vm_compute. exact I. }
  split; [|split]; apply group_ops_preserve_membership; try exact Hp.
  - apply (bool_decide_unpack _). vm_compute. exact I.
  - apply (bool_decide_unpack _). vm_compute. exact I.
  - exact I.
Defined.
End MembershipClaim.

(** * More about the lane packer *)

Section LaneShape.
Import DateFns LanePacker.
Variables weekStart weekEnd : Z.

Local Abbreviation inWeek := (intersectsWeek weekStart weekEnd).

Lemma placeTask_nonempty lanes task :
  Forall (fun lane => lane <> []) lanes ->
  Forall (fun lane => lane <> []) (placeTask weekStart weekEnd lanes task).
Proof.
  intros Hl. unfold placeTask.
  destruct (tryPlace weekStart weekEnd task lanes) as [lanes'|] eqn:H.
  - apply tryPlace_Some in H as (before & lane & after & -> & -> & _ & _).
    apply Forall_app in Hl as [Hb Hl]. apply Forall_cons in Hl as [_ Ha].
    apply Forall_app. split; [done|]. constructor; [|done]. by destruct lane.
  - apply Forall_app. split; [done|]. by repeat constructor.
Qed.

Lemma fold_placeTask_nonempty tasks lanes :
  Forall (fun lane => lane <> []) lanes ->
  Forall (fun lane => lane <> []) (fold_left (placeTask weekStart weekEnd) tasks lanes).
Proof.
  revert lanes. induction tasks as [|t tasks IH]; intros lanes Hl; simpl; [done|].
  by apply IH, placeTask_nonempty.
Qed.

Lemma fold_placeTask_inWeek tasks lanes :
  Forall inWeek tasks -> Forall (Forall inWeek) lanes ->
  Forall (Forall inWeek) (fold_left (placeTask weekStart weekEnd) tasks lanes).
Proof.
  revert lanes. induction tasks as [|t tasks IH]; intros lanes Ht Hl; simpl; [done|].
  apply Forall_cons in Ht as [Hin Ht]. apply IH; [done|]. by apply placeTask_inWeek.
Qed.

Local Abbreviation tight := (Layout.tight weekStart weekEnd).

Lemma tight_app_member lane task rest :
  Forall (Forall (fun t => Exists (Spec.spansOverlap weekStart weekEnd t) lane)) rest ->
  Forall (Forall (fun t => Exists (Spec.spansOverlap weekStart weekEnd t) (lane ++ [task]))) rest.
Proof.
  intros H. eapply Forall_impl; [exact H|]. intros lk Hlk.
  eapply Forall_impl; [exact Hlk|]. intros t Ht. apply Exists_app. by left.
Qed.

Lemma tryPlace_tight task lanes lanes' :
  inWeek task -> Forall (Forall inWeek) lanes -> tight lanes ->
  tryPlace weekStart weekEnd task lanes = Some lanes' -> tight lanes'.
Proof.
  intros Ht. revert lanes'. induction lanes as [|lane rest IH]; simpl; intros lanes' Hin Htight H;
    [done|].
  apply Forall_cons in Hin as [Hlane Hrest]. destruct Htight as [Hhead Htail].
  destruct (hasOverlap weekStart weekEnd task lane) eqn:Hov; simpl in H.
  - destruct (tryPlace weekStart weekEnd task rest) as [rest'|] eqn:Hrest'; [|done].
    simpl in H. injection H as <-. simpl. split; [|by apply IH].
    apply tryPlace_Some in Hrest' as (before & l & after & -> & -> & _ & _).
    apply Forall_app in Hhead as [Hb Hl]. apply Forall_cons in Hl as [Hl Ha].
    apply Forall_app. split; [done|]. constructor; [|done].
    apply Forall_app. split; [done|]. constructor; [|constructor].
    by apply overlap_Exists.
  - injection H as <-. simpl. split; [by apply tight_app_member|done].
Qed.

Lemma tryPlace_None_tight task lanes :
  inWeek task -> Forall (Forall inWeek) lanes -> tight lanes ->
  tryPlace weekStart weekEnd task lanes = None -> tight (lanes ++ [[task]]).
Proof.
  intros Ht. induction lanes as [|lane rest IH]; simpl; intros Hin Htight H;
    [by repeat constructor|].
  apply Forall_cons in Hin as [Hlane Hrest]. destruct Htight as [Hhead Htail].
  destruct (hasOverlap weekStart weekEnd task lane) eqn:Hov; simpl in H; [|done].
  destruct (tryPlace weekStart weekEnd task rest) eqn:Hrest'; [done|].
  split; [|by apply IH].
  apply Forall_app. split; [done|]. constructor; [|constructor].
  constructor; [|constructor]. by apply overlap_Exists.
Qed.

Lemma fold_placeTask_tight tasks lanes :
  Forall inWeek tasks -> Forall (Forall inWeek) lanes -> tight lanes ->
  tight (fold_left (placeTask weekStart weekEnd) tasks lanes).
Proof.
  revert lanes. induction tasks as [|t tasks IH]; intros lanes Ht Hl Htight; simpl; [done|].
  apply Forall_cons in Ht as [Hin Ht].
  apply IH; [done|by apply placeTask_inWeek|].
  unfold placeTask. destruct (tryPlace weekStart weekEnd t lanes) as [lanes'|] eqn:H.
  - by eapply tryPlace_tight.
  - by apply tryPlace_None_tight.
Qed.

Lemma tight_lookup lanes j k lj lk t :
  tight lanes -> (j < k)%nat -> lanes !! j = Some lj -> lanes !! k = Some lk -> t ∈ lk ->
  exists e, e ∈ lj /\ Spec.spansOverlap weekStart weekEnd t e.
Proof.
  revert j k. induction lanes as [|lane rest IH]; intros j k Htight Hjk Hj Hk Ht; [done|].
  destruct Htight as [Hhead Htail]. destruct k as [|k]; [lia|]. simpl in Hk.
  destruct j as [|j]; simpl in Hj.
  - injection Hj as <-. rewrite Forall_forall in Hhead.
    specialize (Hhead lk (list_elem_of_lookup_2 _ _ _ Hk)).
    rewrite Forall_forall in Hhead. apply Exists_exists. by apply Hhead.
  - apply (IH j k); [done|lia|done..].
Qed.
End LaneShape.

Section DateGridFacts.
Import DateFns.

Lemma getDay_range d : 0 <= getDay d < 7.
Proof. unfold getDay. by apply Z.mod_pos_bound. Qed.

Lemma endOfWeek_bounds d : d <= endOfWeek d < d + 7 * MS_PER_DAY.
Proof.
  unfold endOfWeek. pose proof (getDay_range d).
  pose proof (Z.div_mod d MS_PER_DAY). pose proof (Z.mod_pos_bound d MS_PER_DAY).
  unfold MS_PER_DAY in *. lia.
Qed.

Lemma differenceInDays_nonneg a b : b <= a -> 0 <= differenceInDays a b.
Proof. intros H. unfold differenceInDays. apply Z.quot_pos; [lia|done]. Qed.

Lemma differenceInDays_mono a b c : c <= a -> a <= b -> differenceInDays a c <= differenceInDays b c.
Proof. intros H1 H2. unfold differenceInDays. apply Z.quot_le_mono; [done|lia]. Qed.

Lemma differenceInDays_upper a b n :
  b <= a -> a < b + n * MS_PER_DAY -> differenceInDays a b < n.
Proof.
  intros H1 H2. unfold differenceInDays.
  apply Z.quot_lt_upper_bound; [lia|done|lia].
Qed.

(** Between dates at midnight a strict order is a strict order of day
    indexes. *)
Lemma differenceInDays_strict a b c :
  atMidnight a -> atMidnight b -> atMidnight c -> a < b ->
  differenceInDays a c < differenceInDays b c.
Proof.
  intros Ha Hb Hc Hab.
  destruct (differenceInDays_midnight _ _ Ha Hc) as (k & Hk & ->).
  destruct (differenceInDays_midnight _ _ Hb Hc) as (m & Hm & ->).
  unfold MS_PER_DAY in *. lia.
Qed.
End DateGridFacts.

Section LaneShapeClaims.
Import DateFns LanePacker.

Lemma elem_of_concat {A} (ls : list (list A)) x :
  x ∈ concat ls <-> exists l, l ∈ ls /\ x ∈ l.
Proof.
  rewrite list_elem_of_In, in_concat. split.
  - intros (l & Hl & Hx). exists l. by rewrite !list_elem_of_In.
  - intros (l & Hl & Hx). exists l. by rewrite <- !list_elem_of_In.
Qed.

(** X1: the packer returns no empty lane: there are at most as many lanes as
    tasks that intersect the week, and no lane at all exactly when no task
    intersects the week. *)
Theorem lanes_nonempty_bounded (tasks : list Task.t) (weekStart : Z) :
  let lanes := arrangeTasksInLanes tasks weekStart in
  let shown := filter (intersectsWeek weekStart (endOfWeek weekStart)) tasks in
  Forall (fun lane => lane <> []) lanes
  /\ (length lanes <= length shown)%nat
  /\ (lanes = [] <-> shown = []).
Proof.
  intros lanes shown.
  assert (Hne : Forall (fun lane => lane <> []) lanes).
  { apply fold_placeTask_nonempty. constructor. }
  assert (Hperm : concat lanes ≡ₚ shown).
  { unfold lanes, arrangeTasksInLanes. rewrite fold_placeTask_concat. simpl.
    apply sortedTasks_Permutation. }
  split; [done|]. split.
  - rewrite <- Hperm. clear Hperm. induction Hne as [|lane rest Hlane Hrest IH]; simpl; [done|].
    rewrite length_app. destruct lane; [done|]. simpl. lia.
  - split.
    + intros E. rewrite E in Hperm. simpl in Hperm. by apply Permutation_nil_l in Hperm.
    + intros E. unfold lanes, arrangeTasksInLanes, sortedTasks, weekTasks.
      fold shown. by rewrite E.
Qed.

(** X2: every member of a lane overlaps, within the week, some member of each
    lane above it: first fit never puts a task lower than it has to. *)
Theorem lanes_first_fit_tight (tasks : list Task.t) (weekStart : Z)
    (j k : nat) (lj lk : list Task.t) (t : Task.t) :
  (j < k)%nat ->
  arrangeTasksInLanes tasks weekStart !! j = Some lj ->
  arrangeTasksInLanes tasks weekStart !! k = Some lk ->
  t ∈ lk ->
  exists e, e ∈ lj /\ Spec.spansOverlap weekStart (endOfWeek weekStart) t e.
Proof.
  intros Hjk Hj Hk Ht.
  eapply (tight_lookup weekStart (endOfWeek weekStart)); [|done..].
  apply fold_placeTask_tight; [|constructor|done].
  apply Forall_forall. intros u Hu. rewrite sortedTasks_Permutation in Hu.
  by apply list_elem_of_filter in Hu as [? _].
Qed.

Lemma lanes_first_fit_tight_witness :
  exists e, e ∈ [Examples.tP]
            /\ Spec.spansOverlap Examples.week2 (endOfWeek Examples.week2) Examples.tQ e.
Proof.
  apply (lanes_first_fit_tight [Examples.tP; Examples.tQ] Examples.week2 0 1
           [Examples.tP] [Examples.tQ] Examples.tQ).
  - lia.
  - reflexivity.
  - reflexivity.
  - apply (bool_decide_unpack _). vm_compute. exact I.
Defined.

(** X3: in a week row the bar of a task that intersects the week starts on one
    of the grid lines 1 to 7, ends on one of the lines 2 to 8, and takes at
    least one column. *)
Theorem weekRow_columns_in_grid (weekStart : Z) (task : Task.t) :
  intersectsWeek weekStart (endOfWeek weekStart) task ->
  1 <= (WeekRow.gridColumns weekStart task).1
  /\ (WeekRow.gridColumns weekStart task).1 < (WeekRow.gridColumns weekStart task).2
  /\ (WeekRow.gridColumns weekStart task).2 <= 8.
Proof.
  unfold intersectsWeek, WeekRow.gridColumns. intros Hin. simpl.
  pose proof (endOfWeek_bounds weekStart) as [Hw1 Hw2].
  set (es := if Task.startDate task <? weekStart then weekStart else Task.startDate task).
  set (ee := if Task.endDate task >? endOfWeek weekStart
             then endOfWeek weekStart else Task.endDate task).
  assert (Hes : es = Z.max (Task.startDate task) weekStart).
  { unfold es. destruct (Z.ltb_spec (Task.startDate task) weekStart); lia. }
  assert (Hee : ee = Z.min (Task.endDate task) (endOfWeek weekStart)).
  { unfold ee. destruct (Z.gtb_spec (Task.endDate task) (endOfWeek weekStart)); lia. }
  pose proof (differenceInDays_nonneg es weekStart ltac:(lia)).
  pose proof (differenceInDays_mono es ee weekStart ltac:(lia) ltac:(lia)).
  pose proof (differenceInDays_upper ee weekStart 7 ltac:(lia) ltac:(lia)).
  lia.
Qed.

Lemma weekRow_columns_in_grid_witness :
  1 <= (WeekRow.gridColumns Examples.week2 Examples.tP).1
  /\ (WeekRow.gridColumns Examples.week2 Examples.tP).1
     < (WeekRow.gridColumns Examples.week2 Examples.tP).2
  /\ (WeekRow.gridColumns Examples.week2 Examples.tP).2 <= 8.
Proof.
  apply (weekRow_columns_in_grid Examples.week2 Examples.tP).
  vm_compute. discriminate.
Defined.

(** X4: when the week starts at midnight and the tasks are on calendar days,
    two bars of the same lane of a week row share no grid column. *)
Theorem weekRow_lane_columns_disjoint (tasks : list Task.t) (weekStart : Z)
    (lane : list Task.t) (i j : nat) (a b : Task.t) :
  atMidnight weekStart -> Forall Spec.wholeDays tasks ->
  lane ∈ arrangeTasksInLanes tasks weekStart ->
  i <> j -> lane !! i = Some a -> lane !! j = Some b ->
  Layout.columnsDisjoint (WeekRow.gridColumns weekStart a) (WeekRow.gridColumns weekStart b).
Proof.
  intros Hws Hdays Hlane Hij Ha Hb.
  set (weekEnd := endOfWeek weekStart).
  assert (Hmem : forall t, t ∈ lane -> Spec.wholeDays t /\ intersectsWeek weekStart weekEnd t).
  { intros t Ht.
    assert (t ∈ concat (arrangeTasksInLanes tasks weekStart)) as Hc.
    { apply elem_of_concat. eauto. }
    unfold arrangeTasksInLanes in Hc. rewrite fold_placeTask_concat in Hc. simpl in Hc.
    rewrite sortedTasks_Permutation in Hc. apply list_elem_of_filter in Hc as [Hin Ht'].
    rewrite Forall_forall in Hdays. split; [by apply Hdays|done]. }
  assert (Hdis : ~ Spec.spansOverlap weekStart weekEnd a b).
  { assert (H : Forall (Spec.laneDisjoint weekStart weekEnd)
                  (arrangeTasksInLanes tasks weekStart)).
    { apply fold_placeTask_disjoint. constructor. }
    rewrite Forall_forall in H. by apply (H lane Hlane i j a b). }
  destruct (Hmem a (list_elem_of_lookup_2 _ _ _ Ha)) as [[Has Hae] Hina].
  destruct (Hmem b (list_elem_of_lookup_2 _ _ _ Hb)) as [[Hbs Hbe] Hinb].
  pose proof (endOfWeek_bounds weekStart) as [Hw1 Hw2]. fold weekEnd in Hw1, Hw2.
  unfold Spec.spansOverlap, clampedStart, clampedEnd in Hdis.
  unfold intersectsWeek in Hina, Hinb.
  unfold Layout.columnsDisjoint, WeekRow.gridColumns. simpl. fold weekEnd.
  assert (Hcol : forall u v : Task.t,
             atMidnight (Task.startDate v) -> atMidnight (Task.endDate u) ->
             Z.max (Task.startDate u) weekStart <= Z.min (Task.endDate u) weekEnd ->
             Z.max (Task.startDate v) weekStart <= Z.min (Task.endDate v) weekEnd ->
             Z.min (Task.endDate u) weekEnd < Z.max (Task.startDate v) weekStart ->
             differenceInDays (if Task.endDate u >? weekEnd then weekEnd else Task.endDate u)
               weekStart
             < differenceInDays
                 (if Task.startDate v <? weekStart then weekStart else Task.startDate v)
                 weekStart).
  { intros u v Hvs Hue Hu Hv Hlt.
    destruct (Z.gtb_spec (Task.endDate u) weekEnd); [lia|].
    destruct (Z.ltb_spec (Task.startDate v) weekStart); [lia|].
    apply differenceInDays_strict; [done..|lia]. }
  destruct (Z_lt_le_dec (Z.min (Task.endDate a) weekEnd) (Z.max (Task.startDate b) weekStart))
    as [Hlt|Hge].
  - left. pose proof (Hcol a b Hbs Hae Hina Hinb Hlt). lia.
  - right. assert (Z.min (Task.endDate b) weekEnd < Z.max (Task.startDate a) weekStart) as Hlt
      by lia.
    pose proof (Hcol b a Has Hbe Hinb Hina Hlt). lia.
Qed.

Lemma weekRow_lane_columns_disjoint_witness :
  Layout.columnsDisjoint (WeekRow.gridColumns Examples.week1 Examples.tA)
    (WeekRow.gridColumns Examples.week1 Examples.tB).
Proof.
  apply (weekRow_lane_columns_disjoint [Examples.tA; Examples.tB; Examples.tC] Examples.week1
           [Examples.tA; Examples.tB] 0 1).
  - reflexivity.
  - repeat constructor; reflexivity.
  - apply (bool_decide_unpack _). vm_compute. exact I.
  - lia.
  - reflexivity.
  - reflexivity.
Defined.
End LaneShapeClaims.

(** * The lane packer of the month grid *)

Section MonthGridFacts.
Import DateFns.

Lemma monthGrid_hasOverlap_false task lane :
  MonthGrid.hasOverlap task lane = false <->
  Forall (fun e => ~ Layout.datesOverlap task e) lane.
Proof.
  unfold MonthGrid.hasOverlap, Layout.datesOverlap.
  induction lane as [|e lane IH]; simpl.
  - split; [constructor|done].
  - rewrite orb_false_iff, Forall_cons, IH, Z.leb_gt. split; intros [? ?]; split; (done || lia).
Qed.

Lemma datesOverlap_sym a b : Layout.datesOverlap a b -> Layout.datesOverlap b a.
Proof. unfold Layout.datesOverlap. lia. Qed.

Lemma monthGrid_tryPlace_Some task lanes lanes' :
  MonthGrid.tryPlace task lanes = Some lanes' ->
  exists before lane after,
    lanes = before ++ lane :: after /\
    lanes' = before ++ (lane ++ [task]) :: after /\
    MonthGrid.hasOverlap task lane = false.
Proof.
  revert lanes'. induction lanes as [|lane rest IH]; simpl; intros lanes' H; [done|].
  destruct (MonthGrid.hasOverlap task lane) eqn:Hov; simpl in H.
  - destruct (MonthGrid.tryPlace task rest) as [rest'|] eqn:Hrest; [|done].
    simpl in H. injection H as <-.
    destruct (IH rest' eq_refl) as (before & l & after & -> & -> & Hl).
    by exists (lane :: before), l, after.
  - injection H as <-. by exists [], lane, rest.
Qed.

Lemma monthGrid_placeTask_concat lanes task :
  concat (MonthGrid.placeTask lanes task) ≡ₚ concat lanes ++ [task].
Proof.
  unfold MonthGrid.placeTask. destruct (MonthGrid.tryPlace task lanes) as [lanes'|] eqn:H.
  - apply monthGrid_tryPlace_Some in H as (before & lane & after & -> & -> & _).
    rewrite !concat_app, !concat_cons, <- !app_assoc.
    do 2 apply Permutation_app_head. apply Permutation_app_comm.
  - rewrite concat_app. simpl. done.
Qed.

Lemma datesDisjoint_snoc lane task :
  Layout.datesDisjoint lane -> MonthGrid.hasOverlap task lane = false ->
  Layout.datesDisjoint (lane ++ [task]).
Proof.
  intros Hlane Hov%monthGrid_hasOverlap_false i j a b Hij Ha Hb Hab.
  rewrite Forall_forall in Hov.
  apply lookup_app_Some in Ha as [Ha|[Hia Ha]];
    apply lookup_app_Some in Hb as [Hb|[Hjb Hb]].
  - by eapply (Hlane i j).
  - apply list_lookup_singleton_Some in Hb as [_ <-].
    apply (Hov a); [by eapply list_elem_of_lookup_2|by apply datesOverlap_sym].
  - apply list_lookup_singleton_Some in Ha as [_ <-].
    apply (Hov b); [by eapply list_elem_of_lookup_2|done].
  - apply list_lookup_singleton_Some in Ha as [Hi _].
    apply list_lookup_singleton_Some in Hb as [Hj _]. lia.
Qed.

Lemma monthGrid_placeTask_ok lanes task :
  Forall (fun lane => Layout.datesDisjoint lane /\ lane <> []) lanes ->
  Forall (fun lane => Layout.datesDisjoint lane /\ lane <> [])
    (MonthGrid.placeTask lanes task).
Proof.
  intros Hl. unfold MonthGrid.placeTask.
  destruct (MonthGrid.tryPlace task lanes) as [lanes'|] eqn:H.
  - apply monthGrid_tryPlace_Some in H as (before & lane & after & -> & -> & Hov).
    apply Forall_app in Hl as [Hb Hl]. apply Forall_cons in Hl as [[Hlane _] Ha].
    apply Forall_app. split; [done|]. constructor; [|done].
    split; [by apply datesDisjoint_snoc|by destruct lane].
  - apply Forall_app. split; [done|]. constructor; [|constructor]. split; [|done].
    intros i j a b Hij Ha Hb.
    apply list_lookup_singleton_Some in Ha as [Hi _].
    apply list_lookup_singleton_Some in Hb as [Hj _]. lia.
Qed.

Lemma monthGrid_fold_concat tasks lanes :
  concat (fold_left MonthGrid.placeTask tasks lanes) ≡ₚ concat lanes ++ tasks.
Proof.
  revert lanes. induction tasks as [|t tasks IH]; intros lanes; simpl.
  - by rewrite app_nil_r.
  - rewrite IH, monthGrid_placeTask_concat. by rewrite <- app_assoc.
Qed.

Lemma monthGrid_fold_ok tasks lanes :
  Forall (fun lane => Layout.datesDisjoint lane /\ lane <> []) lanes ->
  Forall (fun lane => Layout.datesDisjoint lane /\ lane <> [])
    (fold_left MonthGrid.placeTask tasks lanes).
Proof.
  revert lanes. induction tasks as [|t tasks IH]; intros lanes Hl; simpl; [done|].
  by apply IH, monthGrid_placeTask_ok.
Qed.

(** X5: the packer of the month grid puts every task it is given into exactly
    one lane, returns no empty lane, and never puts two tasks whose spans
    overlap into the same lane. *)
Theorem monthGrid_lanes (tasks : list Task.t) :
  let lanes := MonthGrid.arrangeTasksInLanes tasks in
  concat lanes ≡ₚ tasks
  /\ Forall (fun lane => lane <> []) lanes
  /\ Forall Layout.datesDisjoint lanes.
Proof.
  intros lanes. unfold lanes, MonthGrid.arrangeTasksInLanes. split.
  - rewrite monthGrid_fold_concat. simpl. apply sort_Permutation.
  - pose proof (monthGrid_fold_ok (Js.sort LanePacker.compareTasks tasks) []
                  ltac:(constructor)) as H.
    split; (eapply Forall_impl; [exact H|]); by intros lane [? ?].
Qed.

(** X6: in the month grid the bar of a task of the week starts on one of the
    grid lines 1 to 7, ends on one of the lines 2 to 8, and takes at least
    one column. *)
Theorem monthGrid_columns_in_grid (tasks : list Task.t) (week0 : Z) (task : Task.t) :
  task ∈ MonthGrid.weekTasks tasks week0 (addDays week0 6) ->
  1 <= (MonthGridRow.gridColumns week0 task).1
  /\ (MonthGridRow.gridColumns week0 task).1 < (MonthGridRow.gridColumns week0 task).2
  /\ (MonthGridRow.gridColumns week0 task).2 <= 8.
Proof.
  unfold MonthGrid.weekTasks. intros [Hin _]%list_elem_of_filter.
  unfold MonthGridRow.gridColumns. simpl. unfold addDays in Hin.
  assert (0 < MS_PER_DAY) as Hms by done.
  destruct (Z_le_gt_dec week0 (Task.startDate task)) as [Hs|Hs].
  - pose proof (differenceInDays_nonneg (Task.startDate task) week0 Hs).
    pose proof (differenceInDays_mono (Task.startDate task) (Task.endDate task) week0
                  Hs ltac:(lia)).
    pose proof (differenceInDays_upper (Task.startDate task) week0 7 Hs ltac:(lia)).
    lia.
  - pose proof (differenceInDays_nonneg (Task.endDate task) week0 ltac:(lia)).
    assert (differenceInDays (Task.startDate task) week0 <= 0).
    { rewrite differenceInDays_opp.
      pose proof (differenceInDays_nonneg week0 (Task.startDate task) ltac:(lia)). lia. }
    lia.
Qed.

Lemma monthGrid_columns_in_grid_witness :
  1 <= (MonthGridRow.gridColumns Examples.week2 Examples.tP).1
  /\ (MonthGridRow.gridColumns Examples.week2 Examples.tP).1
     < (MonthGridRow.gridColumns Examples.week2 Examples.tP).2
  /\ (MonthGridRow.gridColumns Examples.week2 Examples.tP).2 <= 8.
Proof.
  apply (monthGrid_columns_in_grid [Examples.tP; Examples.tQ] Examples.week2 Examples.tP).
  apply (bool_decide_unpack _). vm_compute. exact I.
Defined.

(** X7: when the week starts at midnight and the tasks are on calendar days,
    two bars of the same lane of a week of the month grid share no grid
    column. *)
Theorem monthGrid_lane_columns_disjoint (tasks : list Task.t) (week0 : Z)
    (lane : list Task.t) (i j : nat) (a b : Task.t) :
  atMidnight week0 -> Forall Spec.wholeDays tasks ->
  lane ∈ MonthGrid.arrangeTasksInLanes (MonthGrid.weekTasks tasks week0 (addDays week0 6)) ->
  i <> j -> lane !! i = Some a -> lane !! j = Some b ->
  Layout.columnsDisjoint (MonthGridRow.gridColumns week0 a) (MonthGridRow.gridColumns week0 b).
Proof.
  intros Hw Hdays Hlane Hij Ha Hb.
  set (shown := MonthGrid.weekTasks tasks week0 (addDays week0 6)) in *.
  assert (Hmem : forall t, t ∈ lane ->
             Spec.wholeDays t /\ Task.startDate t <= Task.endDate t).
  { intros t Ht.
    assert (t ∈ concat (MonthGrid.arrangeTasksInLanes shown)) as Hc
      by (apply elem_of_concat; eauto).
    unfold MonthGrid.arrangeTasksInLanes in Hc. rewrite monthGrid_fold_concat in Hc.
    simpl in Hc. rewrite sort_Permutation in Hc.
    apply list_elem_of_filter in Hc as [Hin Ht'].
    rewrite Forall_forall in Hdays. split; [by apply Hdays|lia]. }
  assert (Hdis : ~ Layout.datesOverlap a b).
  { pose proof (monthGrid_fold_ok (Js.sort LanePacker.compareTasks shown) []
                  ltac:(constructor)) as H.
    rewrite Forall_forall in H. destruct (H lane Hlane) as [Hl _].
    by apply (Hl i j a b). }
  destruct (Hmem a (list_elem_of_lookup_2 _ _ _ Ha)) as [[Has Hae] Hale].
  destruct (Hmem b (list_elem_of_lookup_2 _ _ _ Hb)) as [[Hbs Hbe] Hble].
  unfold Layout.datesOverlap in Hdis.
  unfold Layout.columnsDisjoint, MonthGridRow.gridColumns. simpl.
  destruct (Z_lt_le_dec (Task.endDate a) (Task.startDate b)) as [Hlt|Hge].
  - left. pose proof (differenceInDays_strict _ _ week0 Hae Hbs Hw Hlt). lia.
  - right. assert (Task.endDate b < Task.startDate a) as Hlt by lia.
    pose proof (differenceInDays_strict _ _ week0 Hbe Has Hw Hlt). lia.
Qed.

Lemma monthGrid_lane_columns_disjoint_witness :
  Layout.columnsDisjoint (MonthGridRow.gridColumns Examples.week1 Examples.tA)
    (MonthGridRow.gridColumns Examples.week1 Examples.tB).
Proof.
  apply (monthGrid_lane_columns_disjoint [Examples.tA; Examples.tB; Examples.tC]
           Examples.week1 [Examples.tA; Examples.tB] 0 1).
  - reflexivity.
  - repeat constructor; reflexivity.
  - apply (bool_decide_unpack _). vm_compute. exact I.
  - lia.
  - reflexivity.
  - reflexivity.
Defined.
End MonthGridFacts.

(** * Weeks and months *)

Section WeekFacts.
Import DateFns.

(** The number of the week of a date, counted in weeks that start on
    Sunday. *)
Local Abbreviation weekIndex d := ((d / MS_PER_DAY + 4) / 7).

Lemma startOfWeek_alt d :
  WeekRow.startOfWeek d = (7 * weekIndex d - 4) * MS_PER_DAY.
Proof.
  unfold WeekRow.startOfWeek, getDay. f_equal.
  pose proof (Z.div_mod (d / MS_PER_DAY + 4) 7). lia.
Qed.

Lemma endOfWeek_alt d : endOfWeek d = WeekRow.startOfWeek d + 7 * MS_PER_DAY - 1.
Proof. unfold endOfWeek, WeekRow.startOfWeek. lia. Qed.

Lemma startOfWeek_bounds d :
  WeekRow.startOfWeek d <= d < WeekRow.startOfWeek d + 7 * MS_PER_DAY.
Proof.
  unfold WeekRow.startOfWeek. pose proof (getDay_range d).
  pose proof (Z.div_mod d MS_PER_DAY). pose proof (Z.mod_pos_bound d MS_PER_DAY).
  unfold MS_PER_DAY in *. lia.
Qed.

Lemma weekIndex_week k r :
  0 <= r < 7 * MS_PER_DAY -> weekIndex ((7 * k - 4) * MS_PER_DAY + r) = k.
Proof.
  intros Hr.
  assert (((7 * k - 4) * MS_PER_DAY + r) / MS_PER_DAY = 7 * k - 4 + r / MS_PER_DAY) as ->.
  { rewrite Z.add_comm, Z.div_add by done. lia. }
  assert (0 <= r / MS_PER_DAY < 7) as Hq.
  { split; [apply Z.div_pos; [lia|done]|]. apply Z.div_lt_upper_bound; [done|lia]. }
  replace (7 * k - 4 + r / MS_PER_DAY + 4) with (r / MS_PER_DAY + k * 7) by lia.
  rewrite Z.div_add by done. rewrite Z.div_small by done. lia.
Qed.

Lemma weekIndex_mono a b : a <= b -> weekIndex a <= weekIndex b.
Proof.
  intros H. apply Z.div_le_mono; [done|].
  pose proof (Z.div_le_mono a b MS_PER_DAY ltac:(done) H). lia.
Qed.

Lemma startOfWeek_week k r :
  0 <= r < 7 * MS_PER_DAY ->
  WeekRow.startOfWeek ((7 * k - 4) * MS_PER_DAY + r) = (7 * k - 4) * MS_PER_DAY.
Proof. intros Hr. by rewrite startOfWeek_alt, weekIndex_week. Qed.

Lemma startOfWeek_idemp d : WeekRow.startOfWeek (WeekRow.startOfWeek d) = WeekRow.startOfWeek d.
Proof.
  rewrite (startOfWeek_alt d).
  rewrite <- (Z.add_0_r ((7 * weekIndex d - 4) * MS_PER_DAY)) at 1.
  by apply startOfWeek_week.
Qed.

Lemma startOfWeek_endOfWeek d : WeekRow.startOfWeek (endOfWeek d) = WeekRow.startOfWeek d.
Proof.
  rewrite endOfWeek_alt, (startOfWeek_alt d).
  replace ((7 * weekIndex d - 4) * MS_PER_DAY + 7 * MS_PER_DAY - 1)
    with ((7 * weekIndex d - 4) * MS_PER_DAY + (7 * MS_PER_DAY - 1)) by lia.
  by apply startOfWeek_week.
Qed.

Lemma getDay_startOfWeek d : getDay (WeekRow.startOfWeek d) = 0.
Proof.
  rewrite startOfWeek_alt. unfold getDay. rewrite Z.div_mul by done.
  replace (7 * weekIndex d - 4 + 4) with (weekIndex d * 7) by lia.
  by apply Z.mod_mul.
Qed.

Lemma atMidnight_startOfWeek d : atMidnight (WeekRow.startOfWeek d).
Proof. unfold atMidnight, WeekRow.startOfWeek. by apply Z.mod_mul. Qed.

(** X8: the week of a date: it starts on a Sunday at midnight, not after the
    date, and ends with the last millisecond of the Saturday, not before
    the date; the start and the end of a week are in that same week; the
    seven days of the row are its days. *)
Theorem week_of_date (d : Z) :
  WeekRow.startOfWeek d <= d <= endOfWeek d
  /\ getDay (WeekRow.startOfWeek d) = 0
  /\ atMidnight (WeekRow.startOfWeek d)
  /\ endOfWeek d = WeekRow.startOfWeek d + 7 * MS_PER_DAY - 1
  /\ WeekRow.startOfWeek (WeekRow.startOfWeek d) = WeekRow.startOfWeek d
  /\ endOfWeek (WeekRow.startOfWeek d) = endOfWeek d
  /\ WeekRow.startOfWeek (endOfWeek d) = WeekRow.startOfWeek d
  /\ Forall (fun day => WeekRow.startOfWeek day = WeekRow.startOfWeek d /\ atMidnight day)
       (WeekRow.weekDays d).
Proof.
  pose proof (startOfWeek_bounds d). pose proof (endOfWeek_bounds d).
  split; [lia|]. split; [apply getDay_startOfWeek|]. split; [apply atMidnight_startOfWeek|].
  split; [apply endOfWeek_alt|]. split; [apply startOfWeek_idemp|].
  split; [by rewrite !endOfWeek_alt, startOfWeek_idemp|].
  split; [apply startOfWeek_endOfWeek|].
  unfold WeekRow.weekDays. apply Forall_fmap, Forall_forall. intros i Hi. cbn beta.
  apply elem_of_seq in Hi. split.
  - rewrite !(startOfWeek_alt d). unfold addDays. apply startOfWeek_week.
    unfold MS_PER_DAY. lia.
  - unfold atMidnight, addDays, WeekRow.startOfWeek.
    rewrite <- Z.mul_add_distr_r. by apply Z.mod_mul.
Qed.

(** The weeks of an interval, one by one: they start with the week of
    [start] and go up, or down when the interval ends before it starts, to
    the week of [end_]. *)
Lemma eachWeekOfInterval_lookup start end_ (i : nat) :
  WeekRange.eachWeekOfInterval start end_ !! i
  = if decide (Z.of_nat i <= Z.abs (weekIndex end_ - weekIndex start))
    then Some (addDays (WeekRow.startOfWeek start)
                 ((if start >? end_ then -7 else 7) * Z.of_nat i))
    else None.
Proof.
  unfold WeekRange.eachWeekOfInterval.
  destruct (Z.gtb_spec start end_) as [Hgt|Hle].
  - pose proof (weekIndex_mono end_ start ltac:(lia)) as Hidx.
    rewrite !startOfWeek_alt.
    replace ((7 * weekIndex start - 4) * MS_PER_DAY - (7 * weekIndex end_ - 4) * MS_PER_DAY)
      with ((weekIndex start - weekIndex end_) * (7 * MS_PER_DAY)) by lia.
    rewrite Z.div_mul by done.
    set (n := Z.to_nat (weekIndex start - weekIndex end_ + 1)).
    destruct (decide (Z.of_nat i <= Z.abs (weekIndex end_ - weekIndex start))) as [Hi|Hi].
    + rewrite reverse_lookup by (rewrite length_fmap, length_seq; lia).
      rewrite length_fmap, length_seq, list_lookup_fmap, lookup_seq_lt by lia.
      simpl. f_equal. unfold addDays.
      replace (Z.of_nat (n - S i)) with (weekIndex start - weekIndex end_ - Z.of_nat i)
        by (unfold n; lia).
      lia.
    + apply lookup_ge_None. rewrite length_reverse, length_fmap, length_seq. lia.
  - pose proof (weekIndex_mono start end_ Hle) as Hidx.
    rewrite !startOfWeek_alt.
    replace ((7 * weekIndex end_ - 4) * MS_PER_DAY - (7 * weekIndex start - 4) * MS_PER_DAY)
      with ((weekIndex end_ - weekIndex start) * (7 * MS_PER_DAY)) by lia.
    rewrite Z.div_mul by done.
    destruct (decide (Z.of_nat i <= Z.abs (weekIndex end_ - weekIndex start))) as [Hi|Hi].
    + rewrite list_lookup_fmap, lookup_seq_lt by lia. simpl. f_equal; unfold addDays; lia.
    + apply lookup_ge_None. rewrite length_fmap, length_seq. lia.
Qed.

Lemma eachWeekOfInterval_length start end_ :
  length (WeekRange.eachWeekOfInterval start end_)
  = S (Z.to_nat (Z.abs (weekIndex end_ - weekIndex start))).
Proof.
  set (n := S (Z.to_nat (Z.abs (weekIndex end_ - weekIndex start)))).
  destruct (Nat.lt_trichotomy (length (WeekRange.eachWeekOfInterval start end_)) n)
    as [Hlt|[Heq|Hgt]]; [|done|].
  - assert (WeekRange.eachWeekOfInterval start end_ !! (n - 1)%nat = None) as Hnone
      by (apply lookup_ge_None; lia).
    rewrite eachWeekOfInterval_lookup, decide_True in Hnone; [done|]. unfold n. lia.
  - destruct (lookup_lt_is_Some_2 (WeekRange.eachWeekOfInterval start end_) n Hgt) as [w Hw].
    rewrite eachWeekOfInterval_lookup, decide_False in Hw; [done|]. unfold n. lia.
Qed.

Lemma foldr_min_le init (l : list Z) :
  foldr Z.min init l <= init /\ Forall (fun x => foldr Z.min init l <= x) l.
Proof.
  induction l as [|x l [IH1 IH2]]; simpl; [by split|]. split; [lia|].
  constructor; [lia|]. eapply Forall_impl; [exact IH2|]. intros y Hy. simpl in Hy. lia.
Qed.

Lemma foldr_max_ge init (l : list Z) :
  init <= foldr Z.max init l /\ Forall (fun x => x <= foldr Z.max init l) l.
Proof.
  induction l as [|x l [IH1 IH2]]; simpl; [by split|]. split; [lia|].
  constructor; [lia|]. eapply Forall_impl; [exact IH2|]. intros y Hy. simpl in Hy. lia.
Qed.

(** X9: in a project that has both of its dates, every day of every task,
    and every day of the project, lies in the week of a row of the
    calendar: one of the weeks of the week range holds the day; a task is
    therefore shown in the row of each of its days. *)
Theorem weekRange_covers (p : Project.t) (projectStart projectEnd d : Z) :
  Project.startDate p = Some projectStart ->
  Project.endDate p = Some projectEnd ->
  (exists t, t ∈ Project.tasks p /\ Task.startDate t <= d <= Task.endDate t)
  \/ projectStart <= d <= projectEnd ->
  exists w,
    w ∈ WeekRange.weekRange p
    /\ w <= d <= endOfWeek w
    /\ forall t, Task.startDate t <= d <= Task.endDate t ->
         LanePacker.intersectsWeek w (endOfWeek w) t.
Proof.
  intros Hps Hpe Hd. unfold WeekRange.weekRange. rewrite Hps, Hpe.
  set (minDate := foldr Z.min projectStart (Task.startDate <$> Project.tasks p)).
  set (maxDate := foldr Z.max projectEnd (Task.endDate <$> Project.tasks p)).
  assert (Hrange : minDate <= d <= maxDate).
  { destruct (foldr_min_le projectStart (Task.startDate <$> Project.tasks p)) as [Hm1 Hm2].
    destruct (foldr_max_ge projectEnd (Task.endDate <$> Project.tasks p)) as [HM1 HM2].
    fold minDate in Hm1, Hm2. fold maxDate in HM1, HM2.
    destruct Hd as [(t & Ht & Hdt)|Hdp]; [|lia].
    rewrite Forall_fmap, Forall_forall in Hm2. rewrite Forall_fmap, Forall_forall in HM2.
    specialize (Hm2 t Ht). specialize (HM2 t Ht). simpl in Hm2, HM2. lia. }
  pose proof (startOfWeek_bounds minDate) as Hs. pose proof (endOfWeek_bounds maxDate) as He.
  assert (Hle : WeekRow.startOfWeek minDate <= endOfWeek maxDate) by lia.
  exists (WeekRow.startOfWeek d).
  pose proof (startOfWeek_bounds d) as Hsd. pose proof (endOfWeek_alt d) as Hed.
  assert (Heq : endOfWeek (WeekRow.startOfWeek d) = endOfWeek d).
  { by rewrite !endOfWeek_alt, startOfWeek_idemp. }
  split; [|split].
  - apply list_elem_of_lookup. exists (Z.to_nat (weekIndex d - weekIndex minDate)).
    pose proof (weekIndex_mono minDate d ltac:(lia)) as H1.
    pose proof (weekIndex_mono d maxDate ltac:(lia)) as H2.
    assert (weekIndex (WeekRow.startOfWeek minDate) = weekIndex minDate) as Ea.
    { rewrite startOfWeek_alt.
      rewrite <- (Z.add_0_r ((7 * weekIndex minDate - 4) * MS_PER_DAY)).
      apply weekIndex_week. unfold MS_PER_DAY. lia. }
    assert (weekIndex (endOfWeek maxDate) = weekIndex maxDate) as Eb.
    { rewrite endOfWeek_alt, startOfWeek_alt.
      replace ((7 * weekIndex maxDate - 4) * MS_PER_DAY + 7 * MS_PER_DAY - 1)
        with ((7 * weekIndex maxDate - 4) * MS_PER_DAY + (7 * MS_PER_DAY - 1)) by lia.
      apply weekIndex_week. unfold MS_PER_DAY. lia. }
    rewrite eachWeekOfInterval_lookup, Ea, Eb, decide_True by lia.
    destruct (Z.gtb_spec (WeekRow.startOfWeek minDate) (endOfWeek maxDate)); [lia|].
    f_equal. rewrite startOfWeek_idemp, !startOfWeek_alt. unfold addDays.
    rewrite Z2Nat.id by lia. lia.
  - rewrite Heq. lia.
  - intros t Ht. unfold LanePacker.intersectsWeek. rewrite Heq. lia.
Qed.

Lemma weekRange_covers_witness :
  exists w,
    w ∈ WeekRange.weekRange Examples.ungrouped
    /\ w <= localDate 2024 1 10 <= endOfWeek w.
Proof.
  destruct (weekRange_covers Examples.ungrouped (localDate 2024 1 1) (localDate 2024 1 31)
              (localDate 2024 1 10))
    as (w & Hin & Hd & _).
  - reflexivity.
  - reflexivity.
  - left. exists Examples.tC. split; [|vm_compute; split; discriminate].
    apply (bool_decide_unpack _). vm_compute. exact I.
  - by exists w.
Defined.

(** X10: the rows of the calendar.  A project that lacks one of its dates
    has none.  Otherwise they run from the week of the earliest date to
    the week of the latest one, each starting on a Sunday at midnight and
    the next one seven days later; when the latest date lies in a week
    before that of the earliest, as in a project that ends before it
    starts, they run the same way down, the next one seven days
    earlier. *)
Theorem weekRange_consecutive (p : Project.t) :
  (Project.startDate p = None \/ Project.endDate p = None -> WeekRange.weekRange p = [])
  /\ forall projectStart projectEnd,
       Project.startDate p = Some projectStart ->
       Project.endDate p = Some projectEnd ->
       let minDate := foldr Z.min projectStart (Task.startDate <$> Project.tasks p) in
       let maxDate := foldr Z.max projectEnd (Task.endDate <$> Project.tasks p) in
       let step := if WeekRow.startOfWeek minDate >? endOfWeek maxDate then -7 else 7 in
       head (WeekRange.weekRange p) = Some (WeekRow.startOfWeek minDate)
       /\ last (WeekRange.weekRange p) = Some (WeekRow.startOfWeek maxDate)
       /\ Forall (fun w => getDay w = 0 /\ atMidnight w) (WeekRange.weekRange p)
       /\ forall i w w',
            WeekRange.weekRange p !! i = Some w -> WeekRange.weekRange p !! S i = Some w' ->
            w' = addDays w step.
Proof.
  split.
  { unfold WeekRange.weekRange. intros [-> | ->]; [done|]. by destruct (Project.startDate p). }
  intros projectStart projectEnd Hps Hpe minDate maxDate step.
  unfold WeekRange.weekRange. rewrite Hps, Hpe. fold minDate maxDate.
  set (a := WeekRow.startOfWeek minDate). set (b := endOfWeek maxDate).
  assert (Ea : WeekRow.startOfWeek a = a) by apply startOfWeek_idemp.
  assert (Eb : WeekRow.startOfWeek b = WeekRow.startOfWeek maxDate)
    by apply startOfWeek_endOfWeek.
  assert (Hdiff : WeekRow.startOfWeek maxDate
                  = addDays a (7 * (weekIndex b - weekIndex a))).
  { rewrite <- Eb, <- Ea at 1. rewrite !startOfWeek_alt. unfold addDays. lia. }
  assert (Hsign : if a >? b then weekIndex b <= weekIndex a else weekIndex a <= weekIndex b).
  { destruct (Z.gtb_spec a b); apply weekIndex_mono; lia. }
  pose proof (eachWeekOfInterval_length a b) as Hlen.
  split; [|split; [|split]].
  - rewrite head_lookup, eachWeekOfInterval_lookup, decide_True by lia.
    rewrite Ea. f_equal. unfold addDays. lia.
  - rewrite last_lookup, Hlen. simpl.
    rewrite eachWeekOfInterval_lookup, decide_True by lia.
    rewrite Ea, Hdiff. f_equal. unfold addDays.
    destruct (a >? b);
      [replace (Z.of_nat (Z.to_nat (Z.abs (weekIndex b - weekIndex a))))
         with (weekIndex a - weekIndex b) by lia
      |replace (Z.of_nat (Z.to_nat (Z.abs (weekIndex b - weekIndex a))))
         with (weekIndex b - weekIndex a) by lia]; lia.
  - apply Forall_forall. intros w [i Hi]%list_elem_of_lookup_1.
    rewrite eachWeekOfInterval_lookup in Hi. case_decide; [|done]. injection Hi as <-.
    assert (exists k, addDays (WeekRow.startOfWeek a)
                        ((if a >? b then -7 else 7) * Z.of_nat i)
                      = (7 * k - 4) * MS_PER_DAY) as [k ->].
    { rewrite Ea. generalize (a >? b). intros rev. unfold a. rewrite startOfWeek_alt.
      exists (weekIndex minDate + (if rev then -1 else 1) * Z.of_nat i).
      unfold addDays. destruct rev; lia. }
    split.
    + unfold getDay. rewrite Z.div_mul by done.
      replace (7 * k - 4 + 4) with (k * 7) by lia.
      by apply Z.mod_mul.
    + unfold atMidnight. by apply Z.mod_mul.
  - intros i w w'. rewrite !eachWeekOfInterval_lookup.
    case_decide; [|done]. case_decide; [|done]. intros [= <-] [= <-].
    unfold step. fold a b. unfold addDays. destruct (a >? b); lia.
Qed.

Lemma weekRange_consecutive_witness :
  (head (WeekRange.weekRange Examples.ungrouped) = Some (localDate 2023 12 31)
   /\ last (WeekRange.weekRange Examples.ungrouped) = Some (localDate 2024 1 28))
  /\ (head (WeekRange.weekRange Examples.backwards) = Some (localDate 2024 2 18)
      /\ last (WeekRange.weekRange Examples.backwards) = Some (localDate 2023 12 31)).
Proof.
  split.
  - destruct (weekRange_consecutive Examples.ungrouped) as [_ Hrows].
    destruct (Hrows (localDate 2024 1 1) (localDate 2024 1 31) eq_refl eq_refl)
      as (Hhead & Hlast & _).
    split; [by rewrite Hhead|by rewrite Hlast].
  - destruct (weekRange_consecutive Examples.backwards) as [_ Hrows].
    destruct (Hrows (localDate 2024 2 20) (localDate 2024 1 5) eq_refl eq_refl)
      as (Hhead & Hlast & _).
    split; [by rewrite Hhead|by rewrite Hlast].
Defined.

(** The rows of a project that ends before it starts run backwards. *)
Example weekRange_backwards :
  WeekRange.weekRange Examples.backwards
  = [localDate 2024 2 18; localDate 2024 2 11; localDate 2024 2 4; localDate 2024 1 28;
     localDate 2024 1 21; localDate 2024 1 14; localDate 2024 1 7; localDate 2023 12 31].
Proof. by vm_compute. Qed.
End WeekFacts.

Section MonthGroupFacts.
Import DateFns.

(** The group a week would join, grown by the week. *)
Local Abbreviation grown g w :=
  (MonthGroups.mk (MonthGroups.id g) (MonthGroups.year g) (MonthGroups.month g)
     (MonthGroups.weeks g ++ [w])).


Lemma addWeek_cases groups w :
  (exists before g after,
      groups = before ++ g :: after
      /\ MonthGroups.id g = MonthGroups.idOf w
      /\ MonthGroups.addWeek groups w = before ++ grown g w :: after)
  \/ (Forall (fun g => MonthGroups.id g <> MonthGroups.idOf w) groups
      /\ MonthGroups.addWeek groups w
         = groups ++ [MonthGroups.mk (MonthGroups.idOf w) (MonthGroups.getYear (addDays w 3))
                        (MonthGroups.getMonth (addDays w 3)) [w]]).
Proof.
  unfold MonthGroups.addWeek. fold (MonthGroups.idOf w).
  destruct (list_find _ groups) as [[i g]|] eqn:Hf.
  - left. apply list_find_Some in Hf as (Hi & Hid & _).
    exists (take i groups), g, (drop (S i) groups). split; [|split; [done|]].
    + by rewrite take_drop_middle.
    + apply insert_take_drop. by eapply lookup_lt_Some.
  - right. apply list_find_None in Hf. done.
Qed.

(** What the groups hold after a run of weeks. *)
Lemma monthGroups_inv (ws : list Z) (groups : list MonthGroups.t) (done_ : list Z) :
  NoDup (MonthGroups.id <$> groups) ->
  Forall (fun g =>
            MonthGroups.weeks g = filter (fun w => MonthGroups.idOf w = MonthGroups.id g) done_
            /\ exists w rest,
                 MonthGroups.weeks g = w :: rest
                 /\ MonthGroups.id g = MonthGroups.idOf w
                 /\ MonthGroups.year g = MonthGroups.getYear (addDays w 3)
                 /\ MonthGroups.month g = MonthGroups.getMonth (addDays w 3)) groups ->
  concat (MonthGroups.weeks <$> groups) ≡ₚ done_ ->
  let groups' := fold_left MonthGroups.addWeek ws groups in
  NoDup (MonthGroups.id <$> groups')
  /\ Forall (fun g =>
               MonthGroups.weeks g
               = filter (fun w => MonthGroups.idOf w = MonthGroups.id g) (done_ ++ ws)
               /\ exists w rest,
                    MonthGroups.weeks g = w :: rest
                    /\ MonthGroups.id g = MonthGroups.idOf w
                    /\ MonthGroups.year g = MonthGroups.getYear (addDays w 3)
                    /\ MonthGroups.month g = MonthGroups.getMonth (addDays w 3)) groups'
  /\ concat (MonthGroups.weeks <$> groups') ≡ₚ done_ ++ ws.
Proof.
  revert groups done_. induction ws as [|w ws IH]; intros groups done_ Hnd Hg Hperm; simpl.
  - by rewrite app_nil_r.
  - replace (done_ ++ w :: ws) with ((done_ ++ [w]) ++ ws) by (by rewrite <- app_assoc).
    assert (Hold : forall g, g ∈ groups -> MonthGroups.id g <> MonthGroups.idOf w ->
              MonthGroups.weeks g
              = filter (fun x => MonthGroups.idOf x = MonthGroups.id g) (done_ ++ [w])).
    { intros g Hin Hne. rewrite Forall_forall in Hg. destruct (Hg g Hin) as [-> _].
      rewrite filter_app, filter_cons_False, filter_nil, app_nil_r; [done|congruence]. }
    rewrite Forall_forall in Hg.
    destruct (addWeek_cases groups w) as
      [(before & g & after & -> & Hid & ->)|[Hnone ->]]; apply IH.
    + rewrite fmap_app, fmap_cons in *. done.
    + rewrite fmap_app, fmap_cons in Hnd. apply NoDup_app in Hnd as (Hb & Hba & Ha).
      apply NoDup_cons in Ha as [Hga Ha].
      apply Forall_forall. intros h [Hh|Hh]%elem_of_app.
      * split; [|apply Hg; apply elem_of_app; by left].
        apply Hold; [apply elem_of_app; by left|]. intros E.
        apply (Hba (MonthGroups.id h)); [by apply list_elem_of_fmap_2|].
        assert (MonthGroups.id h = MonthGroups.id g) as -> by congruence. by left.
      * apply elem_of_cons in Hh as [->|Hh].
        -- destruct (Hg g) as (Hw & x & rest & Hx & Hrest);
             [apply elem_of_app; right; by left|].
           simpl. split.
           ++ rewrite Hw, filter_app, filter_cons_True by done. done.
           ++ exists x, (rest ++ [w]). by rewrite Hx.
        -- split; [|apply Hg; apply elem_of_app; right; by right].
           apply Hold; [apply elem_of_app; right; by right|]. intros E.
           apply Hga. assert (MonthGroups.id g = MonthGroups.id h) as -> by congruence.
           by apply list_elem_of_fmap_2.
    + rewrite fmap_app, fmap_cons, concat_app, concat_cons in Hperm.
      rewrite fmap_app, fmap_cons, concat_app, concat_cons. cbn [MonthGroups.weeks].
      rewrite <- Hperm, <- !app_assoc.
      do 2 apply Permutation_app_head. apply Permutation_app_comm.
    + rewrite fmap_app. apply NoDup_app. split; [done|]. split; [|apply NoDup_singleton].
      intros x (h & -> & Hh)%list_elem_of_fmap E%list_elem_of_singleton.
      rewrite Forall_forall in Hnone. by apply (Hnone h).
    + rewrite Forall_forall in Hnone.
      apply Forall_forall. intros h [Hh|Hh]%elem_of_app.
      * split; [|by apply Hg]. apply Hold; [done|by apply Hnone].
      * apply list_elem_of_singleton in Hh as ->.
        simpl. split; [|by exists w, []].
        rewrite filter_app, filter_cons_True, filter_nil by done.
        assert (filter (fun x => MonthGroups.idOf x = MonthGroups.idOf w) done_ = []) as ->;
          [|done].
        destruct (filter _ done_) as [|x l] eqn:E; [done|exfalso].
        assert (x ∈ filter (fun x => MonthGroups.idOf x = MonthGroups.idOf w) done_) as Hx
          by (rewrite E; by left).
        apply list_elem_of_filter in Hx as [Hxid Hx].
        rewrite <- Hperm in Hx. apply elem_of_concat in Hx as (l' & Hl' & Hxl).
        apply list_elem_of_fmap in Hl' as (h & -> & Hh).
        destruct (Hg h Hh) as [Hw _]. rewrite Hw in Hxl.
        apply list_elem_of_filter in Hxl as [Hxh _].
        apply (Hnone h Hh). congruence.
    + rewrite fmap_app, concat_app. simpl. by rewrite Hperm.
Qed.

(** X11: month bucketing loses and doubles no week: the weeks of the month
    groups are, together, the weeks given; the ids of the groups differ;
    every group holds, in their order, exactly the weeks that have its id,
    at least one, and has the year and month of its first week. *)
Theorem monthGroups_partition (ws : list Z) :
  let groups := MonthGroups.monthGroups ws in
  NoDup (MonthGroups.id <$> groups)
  /\ Forall (fun g =>
               MonthGroups.weeks g = filter (fun w => MonthGroups.idOf w = MonthGroups.id g) ws
               /\ exists w rest,
                    MonthGroups.weeks g = w :: rest
                    /\ MonthGroups.id g = MonthGroups.idOf w
                    /\ MonthGroups.year g = MonthGroups.getYear (addDays w 3)
                    /\ MonthGroups.month g = MonthGroups.getMonth (addDays w 3)) groups
  /\ concat (MonthGroups.weeks <$> groups) ≡ₚ ws.
Proof.
  apply (monthGroups_inv ws [] []); [constructor|constructor|done].
Qed.
End MonthGroupFacts.

(** * Whole drag gestures *)

Section GestureFacts.
Import DateFns CalendarView.

Lemma withTasks_withTasks p ts ts' :
  Project.withTasks (Project.withTasks p ts) ts' = Project.withTasks p ts'.
Proof. done. Qed.

Lemma withTasks_self p : Project.withTasks p (Project.tasks p) = p.
Proof. by destruct p. Qed.

Lemma sameButDates_refl t : Layout.sameButDates t t.
Proof. by repeat split. Qed.

Lemma sameButDates_ids (ts ts' : list Task.t) :
  Forall2 Layout.sameButDates ts ts' -> Task.id <$> ts' = Task.id <$> ts.
Proof.
  induction 1 as [|t t' ts ts' (Hid & _) _ IH]; [done|]. rewrite !fmap_cons. by f_equal.
Qed.

(** Membership needs only the ids and group ids of the tasks. *)
Lemma consistent_links p ts' :
  Forall2 (fun t t' => Task.id t = Task.id t' /\ Task.groupId t = Task.groupId t')
    (Project.tasks p) ts' ->
  Spec.consistent p -> Spec.consistent (Project.withTasks p ts').
Proof.
  intros Hsame (Ht & Hg & H1 & H2)%consistent_alt. apply consistent_alt. simpl.
  assert (Task.id <$> ts' = Task.id <$> Project.tasks p) as Hids.
  { clear -Hsame. induction Hsame as [|t t' ts ts'' [Hid _] _ IH]; [done|].
    rewrite !fmap_cons. by f_equal. }
  split; [by rewrite Hids|]. split; [done|]. split.
  - intros t' g [i Hi]%list_elem_of_lookup_1 Hgid.
    destruct (Forall2_lookup_r _ _ _ _ _ Hsame Hi) as (t & Ht' & Hid & Hgrp).
    destruct (H1 t g) as (grp & ? & ? & ?); [by eapply list_elem_of_lookup_2|congruence|].
    exists grp. rewrite <- Hid. done.
  - intros grp Hgrp. destruct (H2 grp Hgrp) as [Hnd Hm]. split; [done|].
    intros tid Htid. destruct (Hm tid Htid) as (t & [i Hi]%list_elem_of_lookup_1 & Hid & Hgid).
    destruct (Forall2_lookup_l _ _ _ _ _ Hsame Hi) as (t' & Ht' & Hid' & Hgrp').
    exists t'. split; [by eapply list_elem_of_lookup_2|]. split; congruence.
Qed.

Lemma consistent_sameButDates p ts' :
  Forall2 Layout.sameButDates (Project.tasks p) ts' ->
  Spec.consistent p -> Spec.consistent (Project.withTasks p ts').
Proof.
  intros Hsame. apply consistent_links. eapply Forall2_impl; [exact Hsame|].
  by intros t t' (? & _ & _ & ?).
Qed.

(** A handler that maps every task to one with the same id and group id
    keeps the project consistent. *)
Lemma consistent_fmap p (f : Task.t -> Task.t) :
  (forall t, Task.id (f t) = Task.id t /\ Task.groupId (f t) = Task.groupId t) ->
  Spec.consistent p -> Spec.consistent (Project.withTasks p (f <$> Project.tasks p)).
Proof.
  intros Hf. apply consistent_links. apply Forall2_fmap_r, Forall_Forall2_diag, Forall_forall.
  intros t _. destruct (Hf t) as [Hi Hg]. by split.
Qed.

Lemma pointerMoves_snoc st path x y :
  Gesture.pointerMoves st (path ++ [(x, y)])
  = (handleMouseMove (Gesture.pointerMoves st path) x y).2.
Proof. unfold Gesture.pointerMoves. by rewrite fold_left_app. Qed.

Lemma pointerMoves_app st path path' :
  Gesture.pointerMoves st (path ++ path')
  = Gesture.pointerMoves (Gesture.pointerMoves st path) path'.
Proof. unfold Gesture.pointerMoves. by rewrite fold_left_app. Qed.

(** Without a gesture in progress the pointer moves change nothing. *)
Lemma pointerMoves_idle st path :
  dragState st = None \/ tempProject st = None -> Gesture.pointerMoves st path = st.
Proof.
  intros Hidle. induction path as [|[x y] path IH]; [done|]. simpl.
  assert (handleMouseMove st x y = (Normal, st)) as ->; [|done].
  unfold handleMouseMove. destruct Hidle as [-> | ->]; [done|]. by destruct (dragState st).
Qed.

(** Moves within the click threshold change nothing either. *)
Lemma pointerMoves_within st ds path :
  dragState st = Some ds ->
  Forall (Gesture.withinThreshold (initialMouseX ds) (initialMouseY ds)) path ->
  Gesture.pointerMoves st path = st.
Proof.
  intros Hds Hpath. induction Hpath as [|[x y] path Hxy _ IH]; [done|]. simpl.
  assert (handleMouseMove st x y = (Normal, st)) as ->; [|done].
  unfold handleMouseMove. rewrite Hds. destruct (tempProject st); [|done].
  unfold Gesture.withinThreshold in Hxy. cbn [fst snd] in Hxy. by rewrite Hxy.
Qed.

Section OneGesture.
Variables (project : Project.t) (ds : DragState).
Hypothesis ids_unique : NoDup (Task.id <$> Project.tasks project).
Hypothesis related_unique : NoDup (rid <$> relatedTasks ds).
Hypothesis width_nonzero : ~ (dayWidth ds == 0)%Q.
Hypothesis grabbed_task : forall t, t ∈ Project.tasks project ->
  Task.id t = Task.id (task ds) -> t = task ds.
Hypothesis resize_single :
  type ds <> move -> rid <$> relatedTasks ds = [Task.id (task ds)].
Hypothesis related_snapshots : forall r, r ∈ relatedTasks ds ->
  r = snapshot (task ds) \/ exists t, t ∈ Project.tasks project /\ r = snapshot t.

(** The working copy is the project with some tasks of the related set at
    other dates. *)
Local Abbreviation near t cur :=
  (Layout.sameButDates t cur /\ (Task.id t ∉ rid <$> relatedTasks ds -> cur = t)).

Local Abbreviation tracking st :=
  (dragState st = Some ds
   /\ exists tp, tempProject st = Some tp
                 /\ tp = Project.withTasks project (Project.tasks tp)
                 /\ Forall2 (fun t cur => near t cur) (Project.tasks project) (Project.tasks tp)).

Local Abbreviation past x y :=
  (Js.lt (Qabs (Js.sub x (initialMouseX ds))) 3 && Js.lt (Qabs (Js.sub y (initialMouseY ds))) 3 = false).

Local Abbreviation resized s e :=
  (fun t => if decide (Task.id t = Task.id (task ds))
            then Task.withDates (task ds) s e else t).

Lemma near_ids (ts : list Task.t) :
  Forall2 (fun t cur => near t cur) (Project.tasks project) ts ->
  Task.id <$> ts = Task.id <$> Project.tasks project.
Proof.
  intros H. apply sameButDates_ids. eapply Forall2_impl; [exact H|]. by intros t cur [? _].
Qed.

Lemma shiftTask_near n t cur :
  near t cur ->
  Spec.shiftTask n (relatedTasks ds) cur = Spec.shiftTask n (relatedTasks ds) t
  /\ near t (Spec.shiftTask n (relatedTasks ds) t).
Proof.
  intros [(Hid & Hname & Hunit & Hgrp) Hout]. unfold Spec.shiftTask. rewrite <- Hid.
  destruct (list_find _ (relatedTasks ds)) as [[i r]|] eqn:Hf.
  - unfold Spec.movedFrom, Task.withDates. rewrite <- Hid, <- Hname, <- Hunit, <- Hgrp.
    split; [done|]. split; [by repeat split|]. intros Hnot. destruct Hnot.
    apply list_find_Some in Hf as (Hi & Hr & _). rewrite <- Hr.
    apply list_elem_of_fmap_2. by eapply list_elem_of_lookup_2.
  - split; [|split; [apply sameButDates_refl|done]].
    apply Hout. intros (r & Hr & Hin)%list_elem_of_fmap.
    apply list_find_None in Hf. rewrite Forall_forall in Hf. by apply (Hf r).
Qed.

Lemma totalDayOffset_is_Some dx dy : exists n, totalDayOffset ds dx dy = Some n.
Proof.
  unfold totalDayOffset. rewrite (round_div_Some dx _ width_nonzero). simpl.
  destruct (Js.lt 0 (weekHeight ds)) eqn:Hh; [|by eexists].
  rewrite (round_div_Some dy _ (lt_0_nonzero _ Hh)). by eexists.
Qed.

Lemma resizeDates_is_Some dx :
  exists s e, resizeDates ds dx = Some (s, e) /\ s <= e
    /\ (taskInitialStartDate ds <= taskInitialEndDate ds ->
        (s = taskInitialStartDate ds \/ e = taskInitialEndDate ds)).
Proof.
  unfold resizeDates. rewrite (round_div_Some dx _ width_nonzero).
  generalize (Js.round (Js.number (dx / dayWidth ds))). intros n. simpl.
  destruct (bool_decide (type ds = resize_start)).
  - destruct (Z.gtb_spec (addDays (taskInitialStartDate ds) n) (taskInitialEndDate ds));
      eexists _, _; (split; [done|split; [lia|by right]]).
  - destruct (Z.ltb_spec (addDays (taskInitialEndDate ds) n) (taskInitialStartDate ds));
      eexists _, _; (split; [done|split; [lia|by left]]).
Qed.

(** A move of the pointer past the threshold gives the same working copy
    whatever the earlier moves of the gesture made of it. *)
Lemma moved_tasks n (ps ts : list Task.t) :
  Forall2 (fun t cur => near t cur) ps ts ->
  Spec.shiftTask n (relatedTasks ds) <$> ts = Spec.shiftTask n (relatedTasks ds) <$> ps
  /\ Forall2 (fun t cur => near t cur) ps (Spec.shiftTask n (relatedTasks ds) <$> ps).
Proof.
  induction 1 as [|t cur ps ts Hnear _ [IH1 IH2]]; [by split|].
  rewrite !fmap_cons. destruct (shiftTask_near n t cur Hnear) as [-> Hn].
  split; [by f_equal|by constructor].
Qed.

Lemma resized_tasks s e (ps ts : list Task.t) :
  rid <$> relatedTasks ds = [Task.id (task ds)] ->
  Forall (fun t => t ∈ Project.tasks project) ps ->
  Forall2 (fun t cur => near t cur) ps ts ->
  resized s e <$> ts = resized s e <$> ps
  /\ Forall2 (fun t cur => near t cur) ps (resized s e <$> ps).
Proof.
  intros Hsingle Hin Hnear.
  induction Hnear as [|t cur ps ts [Hsame Hout] _ IH]; [by split|].
  apply Forall_cons in Hin as [Ht Hin]. destruct (IH Hin) as [IH1 IH2].
  rewrite !fmap_cons. destruct Hsame as (Hid & Hname & Hunit & Hgrp).
  rewrite <- Hid.
  destruct (decide (Task.id t = Task.id (task ds))) as [E|E].
  - split; [by f_equal|]. constructor; [|done].
    rewrite (grabbed_task t Ht E). split; [by repeat split|].
    intros Hnot. destruct Hnot. rewrite Hsingle. by apply list_elem_of_singleton.
  - assert (cur = t) as ->.
    { apply Hout. rewrite Hsingle. by intros Hh%list_elem_of_singleton. }
    split; [by f_equal|]. constructor; [|done]. split; [apply sameButDates_refl|done].
Qed.

(** What a move of the pointer past the threshold makes of the working
    copy, in terms of the project the gesture began with. *)
Lemma handleMouseMove_effect st x y :
  tracking st -> past x y ->
  exists ts',
    handleMouseMove st x y
    = (Normal, mkView (Some ds) (Some (Project.withTasks project ts')) true)
    /\ Forall2 (fun t cur => near t cur) (Project.tasks project) ts'
    /\ ((exists n, type ds = move
           /\ totalDayOffset ds (Js.sub x (initialMouseX ds)) (Js.sub y (initialMouseY ds)) = Some n
           /\ ts' = Spec.shiftTask n (relatedTasks ds) <$> Project.tasks project)
        \/ (exists s e, type ds <> move
              /\ resizeDates ds (Js.sub x (initialMouseX ds)) = Some (s, e) /\ s <= e
              /\ ts' = resized s e <$> Project.tasks project)).
Proof.
  intros (Hds & tp & Htp & Hproj & Hnear) Hpast.
  destruct (decide (type ds = move)) as [Hty|Hty].
  - destruct (totalDayOffset_is_Some (Js.sub x (initialMouseX ds)) (Js.sub y (initialMouseY ds))) as [n Hn].
    destruct (moved_tasks n _ _ Hnear) as [HA Hnear'].
    exists (Spec.shiftTask n (relatedTasks ds) <$> Project.tasks project).
    split; [|split; [done|left; by exists n]].
    rewrite (handleMouseMove_move st ds tp x y
               (Spec.shiftTask n (relatedTasks ds) <$> Project.tasks tp)); [|done..|].
    + by rewrite HA, Hproj.
    + rewrite Hn. apply moveAll_fmap; [|done]. by rewrite (near_ids _ Hnear).
  - destruct (resizeDates_is_Some (Js.sub x (initialMouseX ds))) as (s & e & Hse & Hle & _).
    assert (Hall : Forall (fun t => t ∈ Project.tasks project) (Project.tasks project))
      by (by apply Forall_forall).
    destruct (resized_tasks s e _ _ (resize_single Hty) Hall Hnear) as [HA Hnear'].
    exists (resized s e <$> Project.tasks project).
    split; [|split; [done|right; by exists s, e]].
    rewrite (handleMouseMove_resize st ds tp x y s e) by done.
    by rewrite HA, Hproj.
Qed.

(** Two states of the same gesture answer a move of the pointer past the
    threshold in the same way. *)
Lemma handleMouseMove_tracking stA stB x y :
  tracking stA -> tracking stB -> past x y ->
  handleMouseMove stA x y = handleMouseMove stB x y
  /\ tracking (handleMouseMove stA x y).2.
Proof.
  intros HA HB Hpast.
  destruct (handleMouseMove_effect stA x y HA Hpast) as (tsA & -> & Hnear & HcA).
  destruct (handleMouseMove_effect stB x y HB Hpast) as (tsB & -> & _ & HcB).
  assert (tsA = tsB) as <-.
  { destruct HcA as [(n & Hty & Hn & ->)|(s & e & Hty & Hse & _ & ->)];
      destruct HcB as [(n' & Hty' & Hn' & ->)|(s' & e' & Hty' & Hse' & _ & ->)];
      try done.
    - rewrite Hn in Hn'. by injection Hn' as ->.
    - rewrite Hse in Hse'. by injection Hse' as -> ->. }
  split; [done|]. simpl. split; [done|]. eexists. split; [done|]. simpl. by split.
Qed.

Lemma tracking_start b : tracking (mkView (Some ds) (Some project) b).
Proof.
  split; [done|]. exists project. split; [done|]. split; [by rewrite withTasks_self|].
  apply Forall2_same_length_lookup_2; [done|]. intros i t cur Ht Hcur.
  assert (cur = t) as -> by congruence. split; [apply sameButDates_refl|done].
Qed.

Lemma handleMouseMove_keeps_tracking st x y :
  tracking st -> tracking (handleMouseMove st x y).2.
Proof.
  intros Hst.
  destruct (Js.lt (Qabs (Js.sub x (initialMouseX ds))) 3 && Js.lt (Qabs (Js.sub y (initialMouseY ds))) 3)
    eqn:Hthr.
  - destruct Hst as (Hds & tp & Htp & Hrest). unfold handleMouseMove.
    rewrite Hds, Htp, Hthr. simpl. split; [done|]. by exists tp.
  - by apply (handleMouseMove_tracking st st x y).
Qed.

Lemma pointerMoves_tracking st path :
  tracking st -> tracking (Gesture.pointerMoves st path).
Proof.
  revert st. induction path as [|[x y] path IH]; intros st Hst; [done|].
  simpl. by apply IH, handleMouseMove_keeps_tracking.
Qed.

(** The state after the pointer moves is the one the last position past
    the threshold gives from the start of the gesture. *)
Lemma pointerMoves_last st path x y path' :
  tracking st -> past x y ->
  Forall (Gesture.withinThreshold (initialMouseX ds) (initialMouseY ds)) path' ->
  Gesture.pointerMoves st (path ++ (x, y) :: path') = (handleMouseMove st x y).2.
Proof.
  intros Hst Hpast Hwithin.
  rewrite (pointerMoves_app st path ((x, y) :: path')). simpl.
  destruct (handleMouseMove_tracking (Gesture.pointerMoves st path) st x y) as [-> Htr];
    [by apply pointerMoves_tracking|done..|].
  destruct (handleMouseMove_tracking st st x y Hst Hst Hpast) as [_ [Hds _]].
  by apply (pointerMoves_within _ ds).
Qed.

Lemma pointerMoves_cases st path :
  tracking st ->
  Gesture.pointerMoves st path = st
  \/ exists x y, past x y /\ Gesture.pointerMoves st path = (handleMouseMove st x y).2.
Proof.
  intros Hst. induction path as [|[x y] path IH] using rev_ind; [by left|].
  rewrite pointerMoves_snoc.
  destruct (Js.lt (Qabs (Js.sub x (initialMouseX ds))) 3 && Js.lt (Qabs (Js.sub y (initialMouseY ds))) 3)
    eqn:Hthr.
  - assert (handleMouseMove (Gesture.pointerMoves st path) x y
            = (Normal, Gesture.pointerMoves st path)) as ->; [|done].
    destruct (pointerMoves_tracking st path Hst) as (Hds & tp & Htp & _).
    unfold handleMouseMove. by rewrite Hds, Htp, Hthr.
  - right. exists x, y. split; [done|].
    by destruct (handleMouseMove_tracking (Gesture.pointerMoves st path) st x y) as [-> _];
      [apply pointerMoves_tracking|..].
Qed.

(** The working copy at the end of the pointer moves. *)
Lemma pointerMoves_project b path :
  exists ts',
    tempProject (Gesture.pointerMoves (mkView (Some ds) (Some project) b) path)
    = Some (Project.withTasks project ts')
    /\ dragState (Gesture.pointerMoves (mkView (Some ds) (Some project) b) path) = Some ds
    /\ Forall2 (fun t cur => near t cur) (Project.tasks project) ts'.
Proof.
  destruct (pointerMoves_tracking _ path (tracking_start b)) as (Hds & tp & Htp & Hproj & Hnear).
  exists (Project.tasks tp). by rewrite Htp, <- Hproj.
Qed.

Lemma shiftTask_ordered n t :
  t ∈ Project.tasks project -> Layout.ordered t ->
  Layout.ordered (Spec.shiftTask n (relatedTasks ds) t).
Proof.
  intros Ht Hord. unfold Spec.shiftTask.
  destruct (list_find _ (relatedTasks ds)) as [[i r]|] eqn:Hf; [|done].
  apply list_find_Some in Hf as (Hi & Hr & _).
  assert (r = snapshot t) as ->.
  { destruct (related_snapshots r) as [->|(u & Hu & ->)]; [by eapply list_elem_of_lookup_2|..].
    - simpl in Hr. by rewrite (grabbed_task t Ht).
    - simpl in Hr. f_equal. by eapply (NoDup_fmap_eq Task.id). }
  unfold Layout.ordered, Spec.movedFrom in *. simpl.
  pose proof (differenceInDays_nonneg (Task.endDate t) (Task.startDate t) Hord).
  unfold addDays. assert (0 < MS_PER_DAY) by done. nia.
Qed.

Lemma pointerMoves_ordered b path :
  Forall Layout.ordered (Project.tasks project) ->
  exists tp,
    tempProject (Gesture.pointerMoves (mkView (Some ds) (Some project) b) path) = Some tp
    /\ Forall Layout.ordered (Project.tasks tp).
Proof.
  intros Hord.
  destruct (pointerMoves_cases _ path (tracking_start b)) as [->|(x & y & Hpast & ->)];
    [by exists project|].
  destruct (handleMouseMove_effect _ x y (tracking_start b) Hpast) as (ts' & -> & _ & Hc).
  eexists. split; [done|]. simpl.
  destruct Hc as [(n & _ & _ & ->)|(s & e & _ & _ & Hle & ->)].
  - apply Forall_fmap, Forall_forall. intros t Ht. apply shiftTask_ordered; [done|].
    rewrite Forall_forall in Hord. by apply Hord.
  - apply Forall_fmap, Forall_forall. intros t Ht. simpl. case_decide; [done|].
    rewrite Forall_forall in Hord. by apply Hord.
Qed.
End OneGesture.

(** The gesture that [handleTaskDragStart] begins. *)
Lemma dragStart_state project editing st taskProp ty x0 y0 w h :
  Js.truthy editing = false ->
  exists ds,
    handleTaskDragStart project false editing st taskProp ty x0 y0 (Some (w, h))
    = mkView (Some ds) (Some project) false
    /\ initialMouseX ds = x0 /\ initialMouseY ds = y0
    /\ dayWidth ds = Js.number (w / 7)
    /\ type ds = ty
    /\ task ds = default taskProp (findTask (Project.tasks project) (Task.id taskProp))
    /\ relatedTasks ds
       = if Js.truthy (Task.groupId (task ds)) && bool_decide (ty = move)
         then snapshot <$> filter (fun t => Task.groupId t = Task.groupId (task ds))
                             (Project.tasks project)
         else [snapshot (task ds)].
Proof.
  intros Hed. unfold handleTaskDragStart. rewrite Hed. eexists. split; [done|]. by simpl.
Qed.

Lemma dragStart_grabbed project taskProp t :
  NoDup (Task.id <$> Project.tasks project) ->
  t ∈ Project.tasks project ->
  Task.id t = Task.id (default taskProp (findTask (Project.tasks project) (Task.id taskProp))) ->
  t = default taskProp (findTask (Project.tasks project) (Task.id taskProp)).
Proof.
  intros Hnd Ht Hid. destruct (findTask _ _) as [u|] eqn:Hf; simpl in *.
  - apply findTask_Some in Hf as [Hu _]. by apply (NoDup_fmap_eq Task.id (Project.tasks project)).
  - unfold findTask in Hf. by destruct (find_None _ _ Hf t Ht).
Qed.

Lemma dragStart_related project ds :
  NoDup (Task.id <$> Project.tasks project) ->
  relatedTasks ds
  = (if Js.truthy (Task.groupId (task ds)) && bool_decide (type ds = move)
     then snapshot <$> filter (fun t => Task.groupId t = Task.groupId (task ds))
                         (Project.tasks project)
     else [snapshot (task ds)]) ->
  NoDup (rid <$> relatedTasks ds)
  /\ (type ds <> move -> rid <$> relatedTasks ds = [Task.id (task ds)])
  /\ (forall r, r ∈ relatedTasks ds ->
        r = snapshot (task ds) \/ exists t, t ∈ Project.tasks project /\ r = snapshot t).
Proof.
  intros Hnd ->. destruct (Js.truthy _ && bool_decide _) eqn:Hc.
  - apply andb_true_iff in Hc as [_ Hmove%bool_decide_eq_true]. split; [|split; [done|]].
    + rewrite <- list_fmap_compose.
      eapply sublist_NoDup; [exact Hnd|].
      apply (fmap_sublist Task.id), sublist_filter.
    + intros r (t & -> & [_ Ht]%list_elem_of_filter)%list_elem_of_fmap. right. by exists t.
  - split; [|split; [done|]].
    + simpl. apply NoDup_singleton.
    + intros r Hr%list_elem_of_singleton. by left.
Qed.
End GestureFacts.

Section GestureClaims.
Import DateFns CalendarView.

(** What the section on one gesture asks of the gesture that
    [handleTaskDragStart] begins. *)
Lemma dragStart_gesture project editing st taskProp ty x0 y0 w h :
  NoDup (Task.id <$> Project.tasks project) ->
  ~ (w == 0)%Q ->
  Js.truthy editing = false ->
  exists ds,
    handleTaskDragStart project false editing st taskProp ty x0 y0 (Some (w, h))
    = mkView (Some ds) (Some project) false
    /\ (initialMouseX ds = x0 /\ initialMouseY ds = y0 /\ type ds = ty
        /\ task ds = default taskProp (findTask (Project.tasks project) (Task.id taskProp)))
    /\ relatedTasks ds
       = (if Js.truthy (Task.groupId (task ds)) && bool_decide (type ds = move)
          then snapshot <$> filter (fun t => Task.groupId t = Task.groupId (task ds))
                              (Project.tasks project)
          else [snapshot (task ds)])
    /\ NoDup (rid <$> relatedTasks ds)
    /\ ~ (dayWidth ds == 0)%Q
    /\ (forall t, t ∈ Project.tasks project -> Task.id t = Task.id (task ds) -> t = task ds)
    /\ (type ds <> move -> rid <$> relatedTasks ds = [Task.id (task ds)])
    /\ (forall r, r ∈ relatedTasks ds ->
          r = snapshot (task ds) \/ exists t, t ∈ Project.tasks project /\ r = snapshot t).
Proof.
  intros Hnd Hw Hed.
  destruct (dragStart_state project editing st taskProp ty x0 y0 w h Hed)
    as (ds & Hst & Hx & Hy & Hdw & Hty & Htask & Hrel).
  rewrite <- Hty in Hrel.
  destruct (dragStart_related project ds Hnd Hrel) as (Hrn & Hsingle & Hsnap).
  exists ds. repeat split; try done.
  - rewrite Hdw. by apply dayWidth_nonzero.
  - intros t Ht Hid. rewrite Htask in *. by apply dragStart_grabbed.
Qed.

(** Every handler of the gesture keeps [dragState] and some working copy,
    and raises [ignoreClick] exactly when the pointer is past the
    threshold. *)
Lemma handleMouseMove_flag st ds tp x y :
  dragState st = Some ds -> tempProject st = Some tp ->
  dragState (handleMouseMove st x y).2 = Some ds
  /\ is_Some (tempProject (handleMouseMove st x y).2)
  /\ ignoreClick (handleMouseMove st x y).2
     = ignoreClick st
       || negb (Js.lt (Qabs (Js.sub x (initialMouseX ds))) 3 && Js.lt (Qabs (Js.sub y (initialMouseY ds))) 3).
Proof.
  intros Hds Htp. unfold handleMouseMove. rewrite Hds, Htp.
  destruct (Js.lt (Qabs (Js.sub x (initialMouseX ds))) 3 && Js.lt (Qabs (Js.sub y (initialMouseY ds))) 3).
  - simpl. rewrite Hds, Htp, orb_false_r. by eauto.
  - rewrite orb_true_r. destruct (bool_decide (type ds = move)).
    + destruct (moveAll _ _ _); simpl; rewrite ?Hds, ?Htp; by eauto.
    + destruct (resizeDates _ _) as [[s e]|]; simpl; rewrite ?Hds, ?Htp; by eauto.
Qed.

Lemma pointerMoves_flag st ds tp path :
  dragState st = Some ds -> tempProject st = Some tp ->
  ignoreClick (Gesture.pointerMoves st path)
  = ignoreClick st
    || existsb (fun xy => negb (Js.lt (Qabs (Js.sub xy.1 (initialMouseX ds))) 3
                                && Js.lt (Qabs (Js.sub xy.2 (initialMouseY ds))) 3)) path.
Proof.
  revert st tp. induction path as [|[x y] path IH]; intros st tp Hds Htp.
  - simpl. by rewrite orb_false_r.
  - destruct (handleMouseMove_flag st ds tp x y Hds Htp) as (Hds' & [tp' Htp'] & Hflag).
    cbn [Gesture.pointerMoves fold_left existsb fst snd].
    fold (Gesture.pointerMoves (handleMouseMove st x y).2 path).
    rewrite (IH _ tp' Hds' Htp'), Hflag. by rewrite orb_assoc.
Qed.

(** X12: the outcome of a drag is that of its last pointer position past
    the click threshold: in a project with unique task ids and a grid of
    non-zero width, the pointer moves before that position, and the moves
    within the threshold after it, do not change what pointer up commits
    or the state it leaves. *)
Theorem drag_last_position project editing st taskProp ty x0 y0 w h path x y path' :
  NoDup (Task.id <$> Project.tasks project) ->
  ~ (w == 0)%Q ->
  Js.truthy editing = false ->
  Js.lt (Qabs (Js.sub x x0)) 3 && Js.lt (Qabs (Js.sub y y0)) 3 = false ->
  Forall (Gesture.withinThreshold x0 y0) path' ->
  Gesture.gesture project false editing st taskProp ty x0 y0 (Some (w, h))
    (path ++ (x, y) :: path')
  = Gesture.gesture project false editing st taskProp ty x0 y0 (Some (w, h)) [(x, y)].
Proof.
  intros Hnd Hw Hed Hpast Hwithin. unfold Gesture.gesture.
  destruct (dragStart_gesture project editing st taskProp ty x0 y0 w h Hnd Hw Hed)
    as (ds & -> & (Hx & Hy & _) & _ & Hrn & Hdw & Hgrab & Hsingle & _).
  rewrite <- Hx, <- Hy in Hpast, Hwithin. f_equal.
  rewrite (pointerMoves_last project ds); try done.
  by apply tracking_start.
Qed.

Lemma drag_last_position_witness :
  Gesture.gesture Examples.grouped false None Examples.idle Examples.gA move 0 0
    (Some (700, 120)%Q) [(50, 0); (900, 300); (500, 0); (2, -1)]%Q
  = Gesture.gesture Examples.grouped false None Examples.idle Examples.gA move 0 0
      (Some (700, 120)%Q) [(500, 0)]%Q.
Proof.
  apply (drag_last_position Examples.grouped None Examples.idle Examples.gA move 0 0 700 120
           [(50, 0); (900, 300)]%Q 500 0 [(2, -1)]%Q).
  - apply (bool_decide_unpack _). vm_compute. exact I.
  - vm_compute. discriminate.
  - reflexivity.
  - reflexivity.
  - repeat constructor.
Defined.

(** X13: a gesture on a bar of an unlocked calendar, with no name being
    edited, whose pointer never leaves the click threshold commits the
    project as it was and leaves [ignoreClick] down, so that the click that
    follows selects the task. *)
Theorem drag_within_threshold project editing st taskProp ty x0 y0 w h path :
  Js.truthy editing = false ->
  Forall (Gesture.withinThreshold x0 y0) path ->
  Gesture.gesture project false editing st taskProp ty x0 y0 (Some (w, h)) path
  = (Some project, mkView None None false).
Proof.
  intros Hed Hwithin. unfold Gesture.gesture.
  destruct (dragStart_state project editing st taskProp ty x0 y0 w h Hed)
    as (ds & -> & Hx & Hy & _).
  rewrite <- Hx, <- Hy in Hwithin. by rewrite (pointerMoves_within _ ds).
Qed.

Lemma drag_within_threshold_witness :
  Gesture.gesture Examples.grouped false None Examples.idle Examples.gA move 10 10
    (Some (700, 120)%Q) [(11, 12); (8, 9)]%Q
  = (Some Examples.grouped, mkView None None false).
Proof.
  apply (drag_within_threshold Examples.grouped None Examples.idle Examples.gA move 10 10
           700 120 [(11, 12); (8, 9)]%Q).
  - reflexivity.
  - repeat constructor.
Defined.

(** X14: after a gesture on a bar of an unlocked calendar, with no name
    being edited, [ignoreClick] is raised exactly when some pointer move of
    the gesture was past the click threshold, whatever became of that
    move. *)
Theorem drag_ignoreClick project editing st taskProp ty x0 y0 w h path :
  Js.truthy editing = false ->
  ignoreClick
    (Gesture.gesture project false editing st taskProp ty x0 y0 (Some (w, h)) path).2 = true
  <-> Exists (fun xy => ~ Gesture.withinThreshold x0 y0 xy) path.
Proof.
  intros Hed. unfold Gesture.gesture.
  destruct (dragStart_state project editing st taskProp ty x0 y0 w h Hed)
    as (ds & -> & Hx & Hy & _).
  unfold handleMouseUp. cbn [snd ignoreClick].
  rewrite (pointerMoves_flag _ ds project) by done. cbn [ignoreClick orb].
  rewrite existsb_exists, Exists_exists, Hx, Hy. unfold Gesture.withinThreshold.
  split; intros (xy & Hin & Hxy); exists xy.
  - split; [by apply list_elem_of_In|]. by destruct (_ && _).
  - split; [by apply list_elem_of_In|]. by destruct (_ && _).
Qed.

Lemma drag_ignoreClick_witness :
  ignoreClick
    (Gesture.gesture Examples.grouped false None Examples.idle Examples.gA move 0 0
       (Some (0, 120)%Q) [(1, 1); (400, 0)]%Q).2 = true.
Proof.
  apply (drag_ignoreClick Examples.grouped None Examples.idle Examples.gA move 0 0 0 120
           [(1, 1); (400, 0)]%Q).
  - reflexivity.
  - apply Exists_cons_tl, Exists_cons_hd. vm_compute. discriminate.
Defined.

(** X15: what a drag commits is the project with its tasks at other dates
    and nothing else changed: the same tasks in the same order with their
    ids, names, units and group ids, the same groups and settings; a
    consistent project stays consistent. *)
Theorem drag_changes_only_dates project editing st taskProp ty x0 y0 w h path :
  NoDup (Task.id <$> Project.tasks project) ->
  ~ (w == 0)%Q ->
  Js.truthy editing = false ->
  exists committed,
    (Gesture.gesture project false editing st taskProp ty x0 y0 (Some (w, h)) path).1
    = Some committed
    /\ committed = Project.withTasks project (Project.tasks committed)
    /\ Forall2 Layout.sameButDates (Project.tasks project) (Project.tasks committed)
    /\ (Spec.consistent project -> Spec.consistent committed).
Proof.
  intros Hnd Hw Hed. unfold Gesture.gesture.
  destruct (dragStart_gesture project editing st taskProp ty x0 y0 w h Hnd Hw Hed)
    as (ds & -> & _ & _ & Hrn & Hdw & Hgrab & Hsingle & _).
  destruct (pointerMoves_project project ds Hnd Hrn Hdw Hgrab Hsingle false path)
    as (ts' & Htp & Hds & Hnear).
  unfold handleMouseUp. rewrite Htp, Hds. cbn [fst].
  assert (Forall2 Layout.sameButDates (Project.tasks project) ts') as Hsame.
  { eapply Forall2_impl; [exact Hnear|]. by intros t cur [? _]. }
  eexists. split; [done|]. split; [done|]. split; [done|].
  by apply consistent_sameButDates.
Qed.

Lemma drag_changes_only_dates_witness :
  exists committed,
    (Gesture.gesture Examples.grouped false None Examples.idle Examples.gA move 0 0
       (Some (700, 120)%Q) [(50, 0); (900, 300)]%Q).1 = Some committed
    /\ Project.groups committed = [Examples.g1]
    /\ Task.id <$> Project.tasks committed = ["A"; "B"; "C"].
Proof.
  destruct (drag_changes_only_dates Examples.grouped None Examples.idle Examples.gA move 0 0
              700 120 [(50, 0); (900, 300)]%Q)
    as (committed & Hc & Heq & Hsame & _).
  - apply (bool_decide_unpack _). vm_compute. exact I.
  - vm_compute. discriminate.
  - reflexivity.
  - exists committed. split; [exact Hc|]. split.
    + rewrite Heq. reflexivity.
    + rewrite (sameButDates_ids _ _ Hsame). reflexivity.
Defined.

(** X16: a drag leaves alone every task outside the related set: a task
    other than the grabbed one that, when a grouped task is moved, is not
    in the grabbed task's group is committed with the dates it had.  The
    grabbed task is the project's task with the id of the one the handler
    was given, or that one when the project has none. *)
Theorem drag_outside_untouched project editing st taskProp ty x0 y0 w h path
    (i : nat) (t grabbed : Task.t) :
  NoDup (Task.id <$> Project.tasks project) ->
  ~ (w == 0)%Q ->
  Js.truthy editing = false ->
  Project.tasks project !! i = Some t ->
  grabbed = default taskProp (findTask (Project.tasks project) (Task.id taskProp)) ->
  Task.id t <> Task.id grabbed ->
  (ty = move -> Js.truthy (Task.groupId grabbed) = true ->
   Task.groupId t <> Task.groupId grabbed) ->
  exists committed,
    (Gesture.gesture project false editing st taskProp ty x0 y0 (Some (w, h)) path).1
    = Some committed
    /\ Project.tasks committed !! i = Some t.
Proof.
  intros Hnd Hw Hed Hi -> Hid Hgrp. unfold Gesture.gesture.
  destruct (dragStart_gesture project editing st taskProp ty x0 y0 w h Hnd Hw Hed)
    as (ds & -> & (_ & _ & Hty & Htask) & Hrel & Hrn & Hdw & Hgrab & Hsingle & _).
  destruct (pointerMoves_project project ds Hnd Hrn Hdw Hgrab Hsingle false path)
    as (ts' & Htp & Hds & Hnear).
  unfold handleMouseUp. rewrite Htp, Hds. cbn [fst].
  eexists. split; [done|]. simpl.
  destruct (Forall2_lookup_l _ _ _ _ _ Hnear Hi) as (cur & Hcur & _ & Hout).
  rewrite Hcur. f_equal. apply Hout. rewrite <- Htask in Hid, Hgrp.
  rewrite Hrel. destruct (Js.truthy _ && bool_decide _) eqn:Hc.
  - apply andb_true_iff in Hc as [Htruthy Hmove%bool_decide_eq_true].
    rewrite <- list_fmap_compose.
    intros (u & Hu & [Hg Hin]%list_elem_of_filter)%list_elem_of_fmap. simpl in Hu.
    assert (u = t) as ->.
    { eapply (NoDup_fmap_eq Task.id (Project.tasks project)); [done..| |done].
      by eapply list_elem_of_lookup_2. }
    apply Hgrp; [congruence|done..].
  - simpl. by intros Hin%list_elem_of_singleton.
Qed.

Lemma drag_outside_untouched_witness :
  exists committed,
    (Gesture.gesture Examples.grouped false None Examples.idle Examples.gA move 0 0
       (Some (700, 120)%Q) [(50, 0); (900, 300)]%Q).1 = Some committed
    /\ Project.tasks committed !! 2%nat = Some Examples.tC.
Proof.
  apply (drag_outside_untouched Examples.grouped None Examples.idle Examples.gA move 0 0
           700 120 [(50, 0); (900, 300)]%Q 2 Examples.tC Examples.gA).
  - apply (bool_decide_unpack _). vm_compute. exact I.
  - vm_compute. discriminate.
  - reflexivity.
  - reflexivity.
  - reflexivity.
  - discriminate.
  - discriminate.
Defined.

(** X17: a drag keeps the dates in order: when no task of the project
    ends before it starts, none does in what the drag commits. *)
Theorem drag_keeps_date_order project editing st taskProp ty x0 y0 w h path :
  NoDup (Task.id <$> Project.tasks project) ->
  ~ (w == 0)%Q ->
  Js.truthy editing = false ->
  Forall Layout.ordered (Project.tasks project) ->
  exists committed,
    (Gesture.gesture project false editing st taskProp ty x0 y0 (Some (w, h)) path).1
    = Some committed
    /\ Forall Layout.ordered (Project.tasks committed).
Proof.
  intros Hnd Hw Hed Hord. unfold Gesture.gesture.
  destruct (dragStart_gesture project editing st taskProp ty x0 y0 w h Hnd Hw Hed)
    as (ds & -> & _ & _ & Hrn & Hdw & Hgrab & Hsingle & Hsnap).
  destruct (pointerMoves_ordered project ds Hnd Hrn Hdw Hgrab Hsingle Hsnap false path Hord)
    as (tp & Htp & Hordered).
  destruct (pointerMoves_project project ds Hnd Hrn Hdw Hgrab Hsingle false path)
    as (ts' & _ & Hds & _).
  unfold handleMouseUp. rewrite Htp, Hds. by exists tp.
Qed.

Lemma drag_keeps_date_order_witness :
  exists committed,
    (Gesture.gesture Examples.ungrouped false None Examples.idle Examples.tA resize_end 0 0
       (Some (700, 120)%Q) [(-900, 0)]%Q).1 = Some committed
    /\ Forall Layout.ordered (Project.tasks committed).
Proof.
  apply (drag_keeps_date_order Examples.ungrouped None Examples.idle Examples.tA resize_end
           0 0 700 120 [(-900, 0)]%Q).
  - apply (bool_decide_unpack _). vm_compute. exact I.
  - vm_compute. discriminate.
  - reflexivity.
  - repeat constructor; vm_compute; discriminate.
Defined.

(** X18: no gesture begins, and pointer up commits nothing, when the
    calendar is locked, a task name is being edited, or the bar is not
    inside a week grid. *)
Theorem drag_refused project isLocked editing st taskProp ty x0 y0 weekRect path :
  dragState st = None ->
  isLocked = true \/ Js.truthy editing = true \/ weekRect = None ->
  (Gesture.gesture project isLocked editing st taskProp ty x0 y0 weekRect path).1 = None
  /\ tempProject
       (Gesture.pointerMoves
          (handleTaskDragStart project isLocked editing st taskProp ty x0 y0 weekRect) path)
     = tempProject st.
Proof.
  intros Hidle Hcase. unfold Gesture.gesture.
  assert (dragState (handleTaskDragStart project isLocked editing st taskProp ty x0 y0 weekRect)
          = None
          /\ tempProject
               (handleTaskDragStart project isLocked editing st taskProp ty x0 y0 weekRect)
             = tempProject st) as [Hds Htp].
  { unfold handleTaskDragStart. destruct isLocked; [done|].
    destruct (Js.truthy editing); [done|].
    destruct weekRect as [[w h]|]; [|done]. by destruct Hcase as [?|[?|?]]. }
  rewrite pointerMoves_idle by (by left). unfold handleMouseUp. by rewrite Hds.
Qed.

Lemma drag_refused_witness :
  (Gesture.gesture Examples.grouped true None Examples.idle Examples.gA move 0 0
     (Some (700, 120)%Q) [(500, 0)]%Q).1 = None.
Proof.
  apply (drag_refused Examples.grouped true None Examples.idle Examples.gA move 0 0
           (Some (700, 120)%Q) [(500, 0)]%Q).
  - reflexivity.
  - left. reflexivity.
Defined.
End GestureClaims.

(** * The group model beyond membership *)

Section GroupShapeFacts.
Import DateFns GroupIntervals CalendarView GroupRelationshipView.

Lemma taskMap_snoc (tasks : list Task.t) t id :
  (list_to_map (reverse ((fun t => (Task.id t, t)) <$> tasks ++ [t]))
     : gmap string Task.t) !! id
  = if decide (Task.id t = id) then Some t
    else (list_to_map (reverse ((fun t => (Task.id t, t)) <$> tasks))
            : gmap string Task.t) !! id.
Proof.
  rewrite fmap_app, reverse_app. simpl. rewrite lookup_insert. by case_decide.
Qed.

Lemma taskMap_last (tasks : list Task.t) id :
  (list_to_map (reverse ((fun t => (Task.id t, t)) <$> tasks)) : gmap string Task.t) !! id
  = last (filter (fun t => Task.id t = id) tasks).
Proof.
  induction tasks as [|t tasks IH] using rev_ind; [done|].
  rewrite taskMap_snoc, filter_app, IH.
  rewrite filter_cons, filter_nil. case_decide.
  - by rewrite last_snoc.
  - by rewrite app_nil_r.
Qed.

Lemma find_head (tasks : list Task.t) id :
  findTask tasks id = head (filter (fun t => Task.id t = id) tasks).
Proof.
  unfold findTask, Js.find. induction tasks as [|t tasks IH]; [done|].
  rewrite filter_cons. cbn [list_find]. case_decide; [done|].
  rewrite <- IH. by destruct (list_find _ tasks) as [[??]|].
Qed.

Lemma filter_id_unique (tasks : list Task.t) id :
  NoDup (Task.id <$> tasks) -> (length (filter (fun t => Task.id t = id) tasks) <= 1)%nat.
Proof.
  induction tasks as [|t tasks IH]; [simpl; lia|]. rewrite fmap_cons, filter_cons.
  intros [Hnot Hnd]%NoDup_cons. case_decide as Hid; [|by apply IH].
  assert (filter (fun t => Task.id t = id) tasks = []) as ->; [|simpl; lia].
  destruct (filter (fun t => Task.id t = id) tasks) as [|u l] eqn:E; [done|].
  assert (u ∈ filter (fun t => Task.id t = id) tasks) as [Hidu Hu]%list_elem_of_filter
    by (rewrite E; left).
  destruct Hnot. rewrite Hid, <- Hidu. by apply list_elem_of_fmap_2.
Qed.

Lemma taskMap_findTask p id :
  NoDup (Task.id <$> Project.tasks p) -> taskMap p !! id = findTask (Project.tasks p) id.
Proof.
  intros Hnd. unfold taskMap. rewrite taskMap_last, find_head.
  pose proof (filter_id_unique _ id Hnd) as Hlen.
  destruct (filter _ _) as [|a [|b l]]; [done..|]. simpl in Hlen. lia.
Qed.

Lemma computeIntervals_nonneg tasks : Forall (fun n => 0 <= n) (computeIntervals tasks).
Proof.
  unfold computeIntervals. apply Forall_forall. intros n [i Hi]%list_elem_of_lookup_1.
  rewrite list_lookup_imap in Hi. destruct (Js.sliceInit tasks !! i); [|done].
  simpl in Hi. injection Hi as <-. destruct (tasks !! S i); lia.
Qed.

Lemma computeIntervals_wellFormed (g : TaskGroup.t) ids tasks :
  length tasks = length ids ->
  Layout.gapsWellFormed (TaskGroup.withMembers g ids (computeIntervals tasks)).
Proof.
  intros Hlen. split; simpl; [by rewrite computeIntervals_length, Hlen|].
  apply computeIntervals_nonneg.
Qed.

Lemma Forall_filter_keep {A} (P Q : A -> Prop) `{!forall x, Decision (Q x)} (l : list A) :
  Forall P l -> Forall P (filter Q l).
Proof.
  rewrite !Forall_forall. intros Hall x [_ Hx]%list_elem_of_filter. by apply Hall.
Qed.

Lemma omap_length_all {A B} (f : A -> option B) (l : list A) :
  Forall (fun x => is_Some (f x)) l -> length (omap f l) = length l.
Proof.
  induction 1 as [|x l [y Hy] _ IH]; [done|]. csimpl. rewrite Hy. simpl. by f_equal.
Qed.

(** In a consistent project every id a group lists is found, by [find] and
    in the task map. *)
Lemma members_known p grp :
  Spec.consistent p -> grp ∈ Project.groups p ->
  Forall (fun id => is_Some (findTask (Project.tasks p) id)) (TaskGroup.taskIds grp)
  /\ Forall (fun id => is_Some (taskMap p !! id)) (TaskGroup.taskIds grp).
Proof.
  intros Hp Hgrp. pose proof Hp as (Hnd & _ & _ & H2)%consistent_alt.
  assert (Forall (fun id => is_Some (findTask (Project.tasks p) id)) (TaskGroup.taskIds grp))
    as Hfind.
  { apply Forall_forall. intros id Hid. destruct (H2 grp Hgrp) as [_ Hm].
    destruct (Hm id Hid) as (t & Ht & <- & _). by apply findTask_is_Some. }
  split; [done|]. eapply Forall_impl; [exact Hfind|]. intros id Hid.
  by rewrite taskMap_findTask.
Qed.

Lemma cleanGroup_wellFormed p taskIds g g' :
  Spec.consistent p -> g ∈ Project.groups p -> Layout.gapsWellFormed g ->
  cleanGroup (Project.tasks p) taskIds g = Some g' -> Layout.gapsWellFormed g'.
Proof.
  intros Hp Hg Hwf. destruct (members_known p g Hp Hg) as [Hknown _].
  unfold cleanGroup.
  set (remaining := filter (fun id => id ∉ taskIds) (TaskGroup.taskIds g)).
  destruct (length remaining =? 0)%nat; [done|].
  destruct (negb _); [|by intros [= <-]]. intros [= <-].
  assert (length (Js.sort compareStart (omap (findTask (Project.tasks p)) remaining))
          = length remaining) as Hlen.
  { rewrite sort_length. apply omap_length_all.
    rewrite Forall_forall in Hknown. apply Forall_forall.
    intros id [_ Hid]%list_elem_of_filter. by apply Hknown. }
  destruct (Nat.ltb_spec 1
              (length (Js.sort compareStart (omap (findTask (Project.tasks p)) remaining))))
    as [_|Hshort].
  - by apply computeIntervals_wellFormed.
  - split; simpl; [|done]. lia.
Qed.
End GroupShapeFacts.

Section GroupShapeClaims.
Import DateFns GroupIntervals CalendarView GroupRelationshipView.

(** X19: the task map of the relationship view gives, for an id, the last
    task of the project with that id, where [find] of the calendar view
    gives the first; with unique ids the two views find the same task. *)
Theorem taskMap_lookup (p : Project.t) (id : string) :
  taskMap p !! id = last (filter (fun t => Task.id t = id) (Project.tasks p))
  /\ findTask (Project.tasks p) id = head (filter (fun t => Task.id t = id) (Project.tasks p))
  /\ (NoDup (Task.id <$> Project.tasks p) -> taskMap p !! id = findTask (Project.tasks p) id).
Proof.
  split; [apply taskMap_last|]. split; [apply find_head|]. apply taskMap_findTask.
Qed.

Lemma taskMap_lookup_witness :
  taskMap Examples.grouped !! "B" = Some Examples.gB
  /\ findTask (Project.tasks Examples.grouped) "B" = Some Examples.gB.
Proof.
  destruct (taskMap_lookup Examples.grouped "B") as (Hlast & Hhead & Hsame).
  split; [|by rewrite Hhead].
  rewrite Hsame, Hhead; [done|]. apply (bool_decide_unpack _). vm_compute. exact I.
Defined.

(** X20: the operations of the group model keep the shape of the groups:
    in a consistent project where every group has one interval less than
    task ids, none of them negative, the same holds after creating a
    group, unlinking a task and deleting a group. *)
Theorem group_ops_keep_intervals (isLocked : bool) (p : Project.t) (op : Workspace.GroupOp) :
  Spec.consistent p ->
  Forall Layout.gapsWellFormed (Project.groups p) ->
  Forall Layout.gapsWellFormed (Project.groups (Workspace.run isLocked p op)).
Proof.
  intros Hp Hwf. destruct op as [groupName selected newGroupId|taskId groupId|groupId]; simpl.
  - destruct (handleCreateGroup p isLocked groupName selected newGroupId) as [| |updated] eqn:Hc;
      [done..|].
    apply handleCreateGroup_created in Hc as (name & _ & _ & _ & _ & ->). simpl.
    apply Forall_app. split.
    + apply Forall_forall. intros g' (g & Hg & Hclean)%list_elem_of_omap.
      eapply (cleanGroup_wellFormed p); [done|exact Hg| |exact Hclean].
      rewrite Forall_forall in Hwf. by apply Hwf.
    + apply Forall_singleton.
      apply (computeIntervals_wellFormed (TaskGroup.mk newGroupId name [] [])).
      by rewrite length_fmap.
  - unfold handleUnlinkTask. destruct isLocked; [done|].
    destruct (Js.find _ _) as [group|] eqn:Hf; [|done]. simpl.
    apply find_Some in Hf as [Hgroup Hid].
    destruct (length _ =? 0)%nat.
    + by apply Forall_filter_keep.
    + apply Forall_fmap, Forall_forall. intros g Hg. simpl. case_decide.
      * apply computeIntervals_wellFormed. rewrite sort_length. apply omap_length_all.
        destruct (members_known p group Hp Hgroup) as [_ Hknown].
        rewrite Forall_forall in Hknown. apply Forall_forall.
        intros id [_ Hin]%list_elem_of_filter. by apply Hknown.
      * rewrite Forall_forall in Hwf. by apply Hwf.
  - unfold handleDeleteGroup. destruct isLocked; [done|]. simpl. by apply Forall_filter_keep.
Qed.

Lemma group_ops_keep_intervals_witness :
  Forall Layout.gapsWellFormed
    (Project.groups
       (Workspace.run false Examples.grouped (Workspace.UnlinkTask "A" "g1"))).
Proof.
  apply (group_ops_keep_intervals false Examples.grouped (Workspace.UnlinkTask "A" "g1")).
  - apply (bool_decide_unpack _). vm_compute. exact I.
  - apply Forall_singleton. split; [reflexivity|]. apply Forall_singleton. lia.
Defined.
End GroupShapeClaims.

Section GroupRoundTrip.
Import DateFns GroupIntervals CalendarView GroupRelationshipView.

Lemma omap_same {A} (f : A -> option A) (l : list A) :
  (forall x, x ∈ l -> f x = Some x) -> omap f l = l.
Proof.
  induction l as [|x l IH]; intros Hf; [done|]. csimpl.
  rewrite (Hf x) by left. simpl. f_equal. apply IH. intros y Hy. apply Hf. by right.
Qed.

Lemma filter_all {A} (P : A -> Prop) `{!forall x, Decision (P x)} (l : list A) :
  (forall x, x ∈ l -> P x) -> filter P l = l.
Proof.
  induction l as [|x l IH]; intros HP; [done|]. rewrite filter_cons.
  rewrite decide_True by (apply HP; left). f_equal. apply IH. intros y Hy. apply HP. by right.
Qed.

Lemma withTasksGroups_self p : Project.withTasksGroups p (Project.tasks p) (Project.groups p) = p.
Proof. by destruct p. Qed.

(** The tasks a selection picks, when ids are unique. *)
Lemma picked_task (tasks : list Task.t) (selected : list string) t :
  NoDup (Task.id <$> tasks) -> t ∈ tasks ->
  Task.id t ∈ Task.id <$> Js.sort compareStart (omap (findTask tasks) selected) ->
  t ∈ omap (findTask tasks) selected.
Proof.
  intros Hnd Ht (u & Hid & Hu%elem_of_sort)%list_elem_of_fmap.
  pose proof Hu as (x & _ & [Hin _]%findTask_Some)%list_elem_of_omap.
  by rewrite (NoDup_fmap_eq Task.id tasks t u Hnd Ht Hin Hid).
Qed.

(** Looking up, after every task went through [f], the ids of tasks of
    the project. *)
Lemma find_after_fmap (tasks : list Task.t) (f : Task.t -> Task.t) (l : list Task.t) :
  NoDup (Task.id <$> tasks) -> (forall t, Task.id (f t) = Task.id t) ->
  Forall (fun t => t ∈ tasks) l ->
  omap (fun id => findTask (f <$> tasks) id) (Task.id <$> l) = f <$> l.
Proof.
  intros Hnd Hf. induction 1 as [|t l Ht _ IH]; [done|]. csimpl.
  assert (findTask (f <$> tasks) (Task.id t) = Some (f t)) as ->; [|simpl; by f_equal].
  assert (f t ∈ f <$> tasks) as Hft by (by apply list_elem_of_fmap_2).
  destruct (findTask (f <$> tasks) (Task.id t)) as [u|] eqn:Hfind.
  - apply findTask_Some in Hfind as [Hu Hid]. f_equal.
    apply (NoDup_fmap_eq Task.id (f <$> tasks)); [by rewrite task_ids_fmap|done..|].
    by rewrite Hf.
  - unfold findTask in Hfind. destruct (find_None _ _ Hfind (f t) Hft). apply Hf.
Qed.
End GroupRoundTrip.

Section GroupRoundTripClaims.
Import DateFns GroupIntervals CalendarView GroupRelationshipView.

(** X21: deleting a group undoes its creation: in a consistent project
    without empty groups, a group created under a fresh id from tasks that
    were in no group, and then deleted, leaves the project as it was. *)
Theorem createGroup_deleteGroup (p : Project.t) (name : string) (selected : list string)
    (newGroupId : string) :
  Spec.consistent p ->
  Forall (fun g => TaskGroup.taskIds g <> []) (Project.groups p) ->
  newGroupId ∉ TaskGroup.id <$> Project.groups p ->
  Js.isBlank name = false ->
  (2 <= length (omap (findTask (Project.tasks p)) selected))%nat ->
  Forall (fun t => Task.groupId t = None) (omap (findTask (Project.tasks p)) selected) ->
  exists updated,
    handleCreateGroup p false (Some name) selected newGroupId = GroupCreated updated
    /\ handleDeleteGroup updated false newGroupId = Some p.
Proof.
  intros Hp Hnonempty Hfresh Hb Hlen Hfree.
  pose proof Hp as (Hnd & Hgnd & H1 & H2)%consistent_alt.
  destruct (handleCreateGroup_enough p name selected newGroupId Hb Hlen) as [updated Hc].
  exists updated. split; [done|].
  apply handleCreateGroup_created in Hc as (name' & _ & _ & _ & _ & ->).
  unfold handleDeleteGroup. cbn [Project.withTasksGroups Project.groups Project.tasks].
  set (taskIds := Task.id <$> Js.sort compareStart (omap (findTask (Project.tasks p)) selected)).
  rewrite Forall_forall in Hfree. rewrite Forall_forall in Hnonempty.
  assert (Hungrouped : forall t, t ∈ Project.tasks p -> Task.id t ∈ taskIds ->
                                 Task.groupId t = None).
  { intros t Ht Hin. apply Hfree. by apply picked_task. }
  assert (Hnew : forall t, t ∈ Project.tasks p -> Task.groupId t <> Some newGroupId).
  { intros t Ht Hgid. destruct (H1 t newGroupId Ht Hgid) as (grp & Hgrp & Hid & _).
    apply Hfresh. rewrite <- Hid. by apply list_elem_of_fmap_2. }
  f_equal. rewrite <- (withTasksGroups_self p) at 3. unfold Project.withTasksGroups. simpl.
  assert ((fun t => if decide (Task.groupId t = Some newGroupId)
                    then Task.withGroupId t None else t)
            <$> ((fun task => if decide (Task.id task ∈ taskIds)
                              then Task.withGroupId task (Some newGroupId) else task)
                   <$> Project.tasks p)
          = Project.tasks p) as ->.
  { rewrite <- list_fmap_compose. rewrite <- (list_fmap_id (Project.tasks p)) at 2.
    apply list_fmap_ext. intros i t Hi%list_elem_of_lookup_2. simpl.
    destruct (decide (Task.id t ∈ taskIds)) as [Hin|Hin].
    - simpl. rewrite decide_True by done. pose proof (Hungrouped t Hi Hin).
      destruct t; simpl in *; by subst.
    - by rewrite decide_False by (by apply Hnew). }
  assert (filter (fun g => TaskGroup.id g <> newGroupId)
            (omap (cleanGroup (Project.tasks p) taskIds) (Project.groups p)
             ++ [TaskGroup.mk newGroupId name' taskIds
                   (computeIntervals
                      (Js.sort compareStart (omap (findTask (Project.tasks p)) selected)))])
          = Project.groups p) as ->; [|by destruct p].
  rewrite filter_app, filter_cons, filter_nil. simpl.
  rewrite decide_False by (by intros []). rewrite app_nil_r.
  rewrite (omap_same _ (Project.groups p)).
  - apply filter_all. intros g Hg Hid. apply Hfresh. rewrite <- Hid.
    by apply list_elem_of_fmap_2.
  - intros g Hg. unfold cleanGroup.
    rewrite (filter_all _ (TaskGroup.taskIds g)).
    + destruct (TaskGroup.taskIds g) eqn:E; [by destruct (Hnonempty g Hg)|].
      simpl. by rewrite Nat.eqb_refl.
    + intros id Hid Hin. destruct (H2 g Hg) as [_ Hm].
      destruct (Hm id Hid) as (t & Ht & <- & Hgid).
      by rewrite (Hungrouped t Ht Hin) in Hgid.
Qed.

Lemma createGroup_deleteGroup_witness :
  exists updated,
    handleCreateGroup Examples.ungrouped false (Some "G") ["B"; "A"] "g1" = GroupCreated updated
    /\ handleDeleteGroup updated false "g1" = Some Examples.ungrouped.
Proof.
  apply (createGroup_deleteGroup Examples.ungrouped "G" ["B"; "A"] "g1").
  - apply (bool_decide_unpack _). vm_compute. exact I.
  - constructor.
  - apply (bool_decide_unpack _). vm_compute. exact I.
  - reflexivity.
  - vm_compute. lia.
  - repeat constructor.
Defined.

(** X22: the card of a group just created shows what was selected: with
    unique task ids, its tasks are the selected tasks by start date, each
    now carrying the id of the group, and under each but the last it shows
    the days from its end to the start of the next, or 0 when the next
    starts earlier. *)
Theorem createGroup_card (p : Project.t) (name : string) (selected : list string)
    (newGroupId : string) :
  NoDup (Task.id <$> Project.tasks p) ->
  Js.isBlank name = false ->
  (2 <= length (omap (findTask (Project.tasks p)) selected))%nat ->
  exists updated group,
    handleCreateGroup p false (Some name) selected newGroupId = GroupCreated updated
    /\ last (Project.groups updated) = Some group
    /\ GroupCard.groupTasks group (taskMap updated)
       = (fun t => Task.withGroupId t (Some newGroupId))
           <$> Js.sort compareStart (omap (findTask (Project.tasks p)) selected)
    /\ GroupCard.rendered group (taskMap updated) = true
    /\ forall i a b,
         GroupCard.groupTasks group (taskMap updated) !! i = Some a ->
         GroupCard.groupTasks group (taskMap updated) !! S i = Some b ->
         GroupCard.gap group (taskMap updated) i
         = Some (Z.max 0 (differenceInDays (Task.startDate b) (Task.endDate a))).
Proof.
  intros Hnd Hb Hlen.
  destruct (handleCreateGroup_enough p name selected newGroupId Hb Hlen) as [updated Hc].
  pose proof Hc as (name' & _ & [= <-] & _ & Hlen' & Hup)%handleCreateGroup_created.
  set (sorted := Js.sort compareStart (omap (findTask (Project.tasks p)) selected)) in *.
  set (mark := fun task => if decide (Task.id task ∈ Task.id <$> sorted)
                           then Task.withGroupId task (Some newGroupId) else task) in *.
  exists updated, (TaskGroup.mk newGroupId name (Task.id <$> sorted) (computeIntervals sorted)).
  split; [done|]. split; [by rewrite Hup; simpl; rewrite last_snoc|].
  assert (Hmark : forall t, Task.id (mark t) = Task.id t).
  { intros t. unfold mark. by case_decide. }
  assert (Hcard : GroupCard.groupTasks
                    (TaskGroup.mk newGroupId name (Task.id <$> sorted) (computeIntervals sorted))
                    (taskMap updated)
                  = (fun t => Task.withGroupId t (Some newGroupId)) <$> sorted).
  { unfold GroupCard.groupTasks. simpl.
    rewrite (list_omap_ext _ (fun id => findTask (Project.tasks updated) id)
               _ (Task.id <$> sorted)).
    - rewrite Hup. simpl. rewrite (find_after_fmap _ mark); [|done..|].
      + apply list_fmap_ext. intros i t Ht%list_elem_of_lookup_2. unfold mark.
        rewrite decide_True; [done|]. by apply list_elem_of_fmap_2.
      + apply Forall_forall. intros t Ht. apply elem_of_sort in Ht.
        apply list_elem_of_omap in Ht as (x & _ & Hx). by apply findTask_Some in Hx as [? _].
    - apply Forall2_same_length_lookup_2; [done|]. intros i x y Hx Hy.
      assert (y = x) as -> by congruence.
      apply taskMap_findTask. rewrite Hup. simpl. by rewrite task_ids_fmap. }
  split; [done|]. split.
  { unfold GroupCard.rendered. rewrite Hcard, length_fmap.
    destruct (length sorted); [lia|done]. }
  intros i a b. unfold GroupCard.gap. rewrite Hcard, length_fmap, !list_lookup_fmap.
  intros (a' & Ha & ->)%fmap_Some (b' & Hb' & ->)%fmap_Some. simpl.
  apply lookup_lt_Some in Hb' as Hlt.
  destruct (Nat.ltb_spec i (length sorted - 1)) as [_|]; [|lia].
  by rewrite (computeIntervals_lookup sorted i a' b').
Qed.

Lemma createGroup_card_witness :
  exists updated group,
    handleCreateGroup Examples.ungrouped false (Some "G") ["B"; "A"] "g1" = GroupCreated updated
    /\ last (Project.groups updated) = Some group
    /\ GroupCard.groupTasks group (taskMap updated) = [Examples.gA; Examples.gB]
    /\ GroupCard.gap group (taskMap updated) 0 = Some 3.
Proof.
  destruct (createGroup_card Examples.ungrouped "G" ["B"; "A"] "g1")
    as (updated & group & Hc & Hlast & Htasks & _ & Hgap).
  - apply (bool_decide_unpack _). vm_compute. exact I.
  - reflexivity.
  - vm_compute. lia.
  - exists updated, group. split; [exact Hc|]. split; [exact Hlast|].
    split; [by rewrite Htasks|].
    rewrite (Hgap 0%nat Examples.gA Examples.gB); [done|by rewrite Htasks..].
Defined.
End GroupRoundTripClaims.

(** * Selection, creation and edits in the calendar view *)

Section HandlerFacts.
Import DateFns CalendarView CalendarHandlers.

#[local] Arguments String.append !_ _ / : simpl nomatch.

Lemma isBlank_unfold s :
  Js.isBlank s
  = match s with
    | EmptyString => true
    | _ => match Spec.stripSpace s with Some s' => Js.isBlank s' | None => false end
    end.
Proof.
  destruct s as [|c1 [|c2 [|c3 s]]]; simpl; [done|..];
    destruct (Js.isSpace c1); try done; destruct (Js.isSpace2 c1 c2); try done;
    by destruct (Js.isSpace3 c1 c2 c3).
Qed.

Lemma trimStart_unfold s :
  JsString.trimStart s
  = match Spec.stripSpace s with Some s' => JsString.trimStart s' | None => s end.
Proof.
  destruct s as [|c1 [|c2 [|c3 s]]]; simpl; [done|..];
    destruct (Js.isSpace c1); try done; destruct (Js.isSpace2 c1 c2); try done;
    by destruct (Js.isSpace3 c1 c2 c3).
Qed.

(** What [stripSpace] takes off is white space, and what follows the
    string does not change it. *)
Lemma stripSpace_Some s s' :
  Spec.stripSpace s = Some s' ->
  exists w, s = w +:+ s' /\ Js.isBlank w = true
            /\ (String.length s' < String.length s)%nat
            /\ forall r, Spec.stripSpace (s +:+ r) = Some (s' +:+ r).
Proof.
  destruct s as [|c1 s1]; [done|]. simpl.
  destruct (Js.isSpace c1) eqn:E1.
  { intros [= <-]. exists (String c1 ""). simpl. rewrite E1. split; [done|]. split; [done|]. split; [lia|done]. }
  destruct s1 as [|c2 s2]; [done|]. simpl.
  destruct (Js.isSpace2 c1 c2) eqn:E2.
  { intros [= <-]. exists (String c1 (String c2 "")). simpl. rewrite E1, E2.
    split; [done|]. split; [done|]. split; [lia|done]. }
  destruct s2 as [|c3 s3]; [done|]. simpl.
  destruct (Js.isSpace3 c1 c2 c3) eqn:E3; [|done].
  intros [= <-]. exists (String c1 (String c2 (String c3 ""))). simpl. rewrite E1, E2, E3.
  split; [done|]. split; [done|]. split; [lia|done].
Qed.

Lemma string_length_ind (P : string -> Prop) :
  (forall s, (forall s', (String.length s' < String.length s)%nat -> P s') -> P s) ->
  forall s, P s.
Proof.
  intros H s. remember (String.length s) as n eqn:Hn. revert s Hn.
  induction n as [n IH] using lt_wf_ind. intros s ->. apply H. intros s' Hlt.
  by apply (IH _ Hlt).
Qed.

Lemma append_assoc (a b c : string) : (a +:+ b) +:+ c = a +:+ (b +:+ c).
Proof. induction a as [|x a IH]; simpl; [done|]. by rewrite IH. Qed.

Lemma append_empty_r (a : string) : a +:+ "" = a.
Proof. induction a as [|x a IH]; simpl; [done|]. by rewrite IH. Qed.

Lemma isBlank_app a b : Js.isBlank a = true -> Js.isBlank (a +:+ b) = Js.isBlank b.
Proof.
  induction a as [a IH] using string_length_ind. intros Ha.
  destruct a as [|c a]; [done|]. rewrite isBlank_unfold in Ha.
  destruct (Spec.stripSpace (String c a)) as [a'|] eqn:E; [|done].
  destruct (stripSpace_Some _ _ E) as (_ & _ & _ & Hlt & Happ).
  rewrite isBlank_unfold. cbn [String.append]. change (String c (a +:+ b)) with (String c a +:+ b).
  rewrite Happ. by apply IH.
Qed.

(** [trimStart] takes white space off the start, and what it leaves does
    not start with white space. *)
Lemma trimStart_spec s :
  exists l, s = l +:+ JsString.trimStart s /\ Js.isBlank l = true
            /\ Spec.stripSpace (JsString.trimStart s) = None.
Proof.
  induction s as [s IH] using string_length_ind. rewrite trimStart_unfold.
  destruct (Spec.stripSpace s) as [s'|] eqn:E; [|by exists ""].
  destruct (stripSpace_Some _ _ E) as (w & -> & Hw & Hlt & _).
  destruct (IH s' Hlt) as (l & Hl & Hbl & Hstrip).
  exists (w +:+ l). rewrite append_assoc, <- Hl. by rewrite isBlank_app.
Qed.

(** [trimEnd] takes white space off the end, and what it leaves does not
    end with white space. *)
Lemma trimEnd_spec s :
  exists r, s = JsString.trimEnd s +:+ r /\ Js.isBlank r = true
            /\ forall a b, JsString.trimEnd s = a +:+ b -> Js.isBlank b = true -> b = "".
Proof.
  induction s as [|c s (r & Hr & Hbr & Hend)]; [by exists ""; repeat split; intros [] []|].
  cbn [JsString.trimEnd]. destruct (Js.isBlank (String c s)) eqn:Hb.
  { exists (String c s). repeat split; [done|]. by intros [] []. }
  exists r. split; [simpl; by rewrite <- Hr|]. split; [done|].
  intros [|x a] b; simpl.
  - intros <- Hb'. rewrite Hr in Hb.
    change (String c (JsString.trimEnd s +:+ r)) with (String c (JsString.trimEnd s) +:+ r) in Hb.
    rewrite (isBlank_app _ r Hb') in Hb. congruence.
  - intros [= <- Ha]. by apply (Hend a b).
Qed.

Lemma trimEnd_empty s : JsString.trimEnd s = "" <-> Js.isBlank s = true.
Proof.
  destruct s as [|c s]; [done|]. cbn [JsString.trimEnd].
  destruct (Js.isBlank (String c s)); [done|]. split; discriminate.
Qed.

Lemma isBlank_trimStart s : Js.isBlank (JsString.trimStart s) = Js.isBlank s.
Proof.
  destruct (trimStart_spec s) as (l & Hl & Hbl & _). rewrite Hl at 2. by rewrite isBlank_app.
Qed.

Lemma trim_empty s : JsString.trim s = "" <-> Js.isBlank s = true.
Proof. unfold JsString.trim. by rewrite trimEnd_empty, isBlank_trimStart. Qed.

(** [trim]: the string between the white space at its two ends. *)
Lemma trim_spec s :
  (exists l r, s = l +:+ JsString.trim s +:+ r /\ Js.isBlank l = true /\ Js.isBlank r = true)
  /\ Spec.stripSpace (JsString.trim s) = None
  /\ forall a b, JsString.trim s = a +:+ b -> Js.isBlank b = true -> b = "".
Proof.
  unfold JsString.trim.
  destruct (trimStart_spec s) as (l & Hl & Hbl & Hstrip).
  destruct (trimEnd_spec (JsString.trimStart s)) as (r & Hr & Hbr & Hend).
  split; [|split; [|done]].
  - exists l, r. by rewrite <- Hr.
  - destruct (Spec.stripSpace (JsString.trimEnd (JsString.trimStart s))) as [x|] eqn:E; [|done].
    destruct (stripSpace_Some _ _ E) as (_ & _ & _ & _ & Happ).
    specialize (Happ r). rewrite <- Hr in Happ. congruence.
Qed.
Lemma truthy_Some s : Js.truthy (Some s) = true <-> s <> EmptyString.
Proof. by destruct s. Qed.

Lemma sort_pair (a b : Z) :
  Js.sort (fun a b => a - b) [a; b] = [Z.min a b; Z.max a b].
Proof.
  simpl. destruct (Z.leb_spec (a - b) 0).
  - by rewrite Z.min_l, Z.max_r by lia.
  - by rewrite Z.min_r, Z.max_l by lia.
Qed.

Lemma has_true x s : JsSet.has x s = true <-> x ∈ s.
Proof. unfold JsSet.has. apply bool_decide_eq_true. Qed.

Lemma has_false x s : JsSet.has x s = false <-> x ∉ s.
Proof. unfold JsSet.has. apply bool_decide_eq_false. Qed.
End HandlerFacts.

Section HandlerClaims.
Import DateFns CalendarView CalendarHandlers.

(** X23: a click with the control key toggles the task in the selection
    and leaves the other tasks as they are: the selection stays free of
    duplicates, the clicked id changes sides, and a second such click gives
    back the selection, up to the order in which the set lists it. *)
Theorem ctrl_click_toggles (editing : option string) (selected : list string) (taskId : string) :
  Js.truthy editing = false ->
  NoDup selected ->
  NoDup (handleTaskClick editing false selected taskId true)
  /\ (taskId ∈ handleTaskClick editing false selected taskId true <-> taskId ∉ selected)
  /\ (forall x, x <> taskId ->
        x ∈ handleTaskClick editing false selected taskId true <-> x ∈ selected)
  /\ handleTaskClick editing false (handleTaskClick editing false selected taskId true)
       taskId true ≡ₚ selected.
Proof.
  intros Hed Hnd. unfold handleTaskClick. rewrite Hed.
  destruct (JsSet.has taskId selected) eqn:Hhas.
  - apply has_true in Hhas. unfold JsSet.delete.
    assert (taskId ∉ filter (fun y => y <> taskId) selected) as Hout.
    { by intros [? _]%list_elem_of_filter. }
    split; [by apply NoDup_filter|]. split; [done|]. split.
    + intros x Hx. rewrite list_elem_of_filter. by split; [intros [_ ?]|].
    + apply has_false in Hout. rewrite Hout. unfold JsSet.add. rewrite Hout.
      clear Hout. induction selected as [|y l IH]; [by apply not_elem_of_nil in Hhas|].
      apply NoDup_cons in Hnd as [Hy Hnd]. rewrite filter_cons.
      destruct (decide (y <> taskId)) as [Hne|Heq].
      * simpl. f_equiv. apply IH; [done|]. apply elem_of_cons in Hhas as [?|?]; [congruence|done].
      * assert (y = taskId) as -> by (by destruct (decide (y = taskId))).
        rewrite filter_all by (intros x Hx ->; done).
        by rewrite <- Permutation_cons_append.
  - apply has_false in Hhas. unfold JsSet.add. rewrite (proj2 (has_false _ _) Hhas).
    assert (taskId ∈ selected ++ [taskId]) as Hin by (apply elem_of_app; right; left).
    split.
    { apply NoDup_app. split; [done|]. split; [|apply NoDup_singleton].
      by intros x Hx ->%list_elem_of_singleton. }
    split; [done|]. split.
    + intros x Hx. rewrite elem_of_app, list_elem_of_singleton.
      split; [by intros [?|?]|by left].
    + rewrite (proj2 (has_true _ _) Hin). unfold JsSet.delete.
      rewrite filter_app, filter_cons, filter_nil, decide_False by (by intros []).
      rewrite app_nil_r, filter_all; [done|]. by intros x Hx ->.
Qed.

Lemma ctrl_click_toggles_witness :
  handleTaskClick None false (handleTaskClick None false ["A"; "B"] "A" true) "A" true
  ≡ₚ ["A"; "B"].
Proof.
  apply (ctrl_click_toggles None ["A"; "B"] "A").
  - reflexivity.
  - apply (bool_decide_unpack _). vm_compute. exact I.
Defined.

(** X24: pressing the button on one day and releasing it on another day
    of the same week row opens the add-task dialogue with the two days in
    order, whichever came first, and disarms the row; released in another
    row, whose own start is not armed, nothing opens and the first row
    stays armed. *)
Theorem day_drag_creates (editing : option string) (ctrlOrMeta : bool)
    (selected : list string) (refs : gmap nat Z) (row row' : nat) (a b : Z) :
  Js.truthy editing = false ->
  let down := dayMouseDownAt editing false ctrlOrMeta selected refs row a in
  let up := dayMouseUpAt false down.2 row' b in
  (row' = row -> up.1 = Some (Z.min a b, Z.max a b) /\ up.2 !! row = None)
  /\ (row' <> row -> refs !! row' = None -> up.1 = None /\ up.2 !! row = Some a).
Proof.
  intros Hed. unfold dayMouseDownAt, dayMouseUpAt, handleDayMouseDown, handleDayMouseUp.
  rewrite Hed. cbn [negb fst snd]. split.
  - intros ->. rewrite lookup_insert_eq. unfold handleDragToCreate. rewrite sort_pair.
    split; [done|]. apply lookup_delete_eq.
  - intros Hne Hnone. rewrite lookup_insert_ne, Hnone by done.
    split; [done|]. by rewrite lookup_delete_ne, lookup_insert_eq.
Qed.

Lemma day_drag_creates_witness :
  (dayMouseUpAt false (dayMouseDownAt None false false [] ∅ 0 (localDate 2024 1 5)).2
     0 (localDate 2024 1 2)).1
  = Some (localDate 2024 1 2, localDate 2024 1 5).
Proof.
  destruct (day_drag_creates None false [] ∅ 0 0 (localDate 2024 1 5) (localDate 2024 1 2))
    as [Hsame _].
  - reflexivity.
  - destruct (Hsame eq_refl) as [-> _]. reflexivity.
Defined.

(** X25: adding a task, changing the unit of the selection and renaming
    a task never touch the groups, the units, or the id, dates and group of
    a task that was there, and they keep a consistent project consistent
    (a new task coming with a fresh id and no group). *)
Theorem calendar_edits_keep_bars (isLocked : bool) (p : Project.t) (edit : Edit) :
  CalendarHandlers.admissible p edit ->
  let updated := CalendarHandlers.run isLocked p edit in
  Project.groups updated = Project.groups p
  /\ Project.units updated = Project.units p
  /\ Forall2 sameBar (Project.tasks p) (take (length (Project.tasks p)) (Project.tasks updated))
  /\ (Spec.consistent p -> Spec.consistent updated).
Proof.
  intros Hadm.
  assert (Hsame : forall f : Task.t -> Task.t, (forall t, sameBar t (f t)) ->
            let updated := Project.withTasks p (f <$> Project.tasks p) in
            Project.groups updated = Project.groups p
            /\ Project.units updated = Project.units p
            /\ Forall2 sameBar (Project.tasks p)
                 (take (length (Project.tasks p)) (Project.tasks updated))
            /\ (Spec.consistent p -> Spec.consistent updated)).
  { intros f Hf. split; [done|]. split; [done|]. split.
    - simpl. rewrite <- (length_fmap f), firstn_all.
      apply Forall2_fmap_r, Forall_Forall2_diag, Forall_forall. intros t _. apply Hf.
    - apply consistent_fmap. intros t. by destruct (Hf t) as (? & _ & _ & ?). }
  assert (Hkeep : let updated := p in
            Project.groups updated = Project.groups p
            /\ Project.units updated = Project.units p
            /\ Forall2 sameBar (Project.tasks p)
                 (take (length (Project.tasks p)) (Project.tasks updated))
            /\ (Spec.consistent p -> Spec.consistent updated)).
  { split; [done|]. split; [done|]. split; [|done].
    rewrite firstn_all. apply Forall_Forall2_diag, Forall_forall. by intros t _. }
  destruct edit as [task newId|selected newUnitId|editing name]; simpl.
  - destruct Hadm as [Hfresh Hgrp]. split; [done|]. split; [done|]. split.
    + rewrite take_app_length. apply Forall_Forall2_diag, Forall_forall. by intros t _.
    + intros (Ht & Hg & H1 & H2)%consistent_alt. apply consistent_alt. simpl.
      split; [|split; [done|split]].
      * rewrite fmap_app. apply NoDup_app. split; [done|]. split; [|apply NoDup_singleton].
        intros x Hx Hin%list_elem_of_singleton. simpl in Hin. by subst.
      * intros t g [Hin|Hin%list_elem_of_singleton]%elem_of_app Hgid; [by apply H1|].
        subst t. simpl in Hgid. congruence.
      * intros grp Hin. destruct (H2 grp Hin) as [Hnd Hm]. split; [done|].
        intros tid Htid. destruct (Hm tid Htid) as (t & ? & ? & ?). exists t.
        split; [|done]. apply elem_of_app. by left.
  - unfold handleUnitChange. destruct isLocked; [done|].
    destruct (negb _); [done|]. apply Hsame. intros t. by destruct (JsSet.has _ _).
  - unfold handleEditSave. destruct (negb _); [done|]. destruct (negb _); [done|].
    apply Hsame. intros t. by destruct (decide _).
Qed.

Lemma calendar_edits_keep_bars_witness :
  Spec.consistent
    (CalendarHandlers.run false Examples.grouped
       (AddTask (Examples.mkTask "" (localDate 2024 1 3) (localDate 2024 1 4) None) "D")).
Proof.
  apply (calendar_edits_keep_bars false Examples.grouped
           (AddTask (Examples.mkTask "" (localDate 2024 1 3) (localDate 2024 1 4) None) "D")).
  - split; [|reflexivity]. apply (bool_decide_unpack _). vm_compute. exact I.
  - apply (bool_decide_unpack _). vm_compute. exact I.
Defined.

(** X26: saving the name of the task being edited ends the edit.  The
    name is trimmed: white space, that of Unicode included, is taken off
    its two ends, and what is left neither starts nor ends with white
    space.  A name that is white space throughout updates nothing; any
    other name is saved trimmed, and non-empty, on the task with the
    edited id only, and a consistent project stays consistent. *)
Theorem editSave_effect (p : Project.t) (editingTaskId : string) (editingTaskName : string) :
  editingTaskId <> EmptyString ->
  let trimmed := JsString.trim editingTaskName in
  (exists l r, editingTaskName = l +:+ trimmed +:+ r
               /\ Js.isBlank l = true /\ Js.isBlank r = true)
  /\ Spec.stripSpace trimmed = None
  /\ (forall a b, trimmed = a +:+ b -> Js.isBlank b = true -> b = EmptyString)
  /\ (Js.isBlank editingTaskName = true ->
      handleEditSave p (Some editingTaskId) editingTaskName = (None, None))
  /\ (Js.isBlank editingTaskName = false ->
      exists updated,
        handleEditSave p (Some editingTaskId) editingTaskName = (Some updated, None)
        /\ trimmed <> EmptyString
        /\ Forall2 (fun t t' =>
                      t' = if decide (Task.id t = editingTaskId)
                           then Task.mk (Task.id t) trimmed (Task.startDate t) (Task.endDate t)
                                  (Task.unitId t) (Task.groupId t)
                           else t)
             (Project.tasks p) (Project.tasks updated)
        /\ (Spec.consistent p -> Spec.consistent updated)).
Proof.
  intros Hid trimmed. destruct (trim_spec editingTaskName) as (Hparts & Hstart & Hend).
  split; [done|]. split; [done|]. split; [done|].
  unfold handleEditSave.
  rewrite (proj2 (truthy_Some editingTaskId) Hid). cbn [negb]. fold trimmed. split.
  - intros Hblank%trim_empty. fold trimmed in Hblank. by rewrite Hblank.
  - intros Hblank.
    assert (trimmed <> EmptyString) as Hne.
    { intros E%trim_empty. congruence. }
    rewrite (proj2 (truthy_Some trimmed) Hne). cbn [negb]. eexists. split; [done|].
    split; [done|]. split.
    + simpl. apply Forall2_fmap_r, Forall_Forall2_diag, Forall_forall. intros t _.
      unfold compose. cbn beta. destruct (decide (Task.id t = editingTaskId)) as [E|E].
      * by rewrite decide_True by congruence.
      * by rewrite decide_False by congruence.
    + apply consistent_fmap. intros t. by destruct (decide _).
Qed.

Lemma editSave_effect_witness :
  handleEditSave Examples.ungrouped (Some "A") Examples.ideographicSpace = (None, None)
  /\ exists updated,
       handleEditSave Examples.ungrouped (Some "A")
         (Examples.ideographicSpace +:+ " pour  slab " +:+ Examples.ideographicSpace)
       = (Some updated, None)
       /\ Task.name <$> Project.tasks updated = ["pour  slab"; "B"; "C"].
Proof.
  destruct (editSave_effect Examples.ungrouped "A" Examples.ideographicSpace)
    as (_ & _ & _ & Hblank & _); [discriminate|].
  destruct (editSave_effect Examples.ungrouped "A"
              (Examples.ideographicSpace +:+ " pour  slab " +:+ Examples.ideographicSpace))
    as (_ & _ & _ & _ & Hsave); [discriminate|].
  split; [by apply Hblank|].
  destruct (Hsave eq_refl) as (updated & Hu & _).
  exists updated. split; [exact Hu|]. injection Hu as <-. reflexivity.
Defined.
End HandlerClaims.

(** * Copies of a template *)

Section TemplateFacts.
Import UseProjects.

Lemma oldIdToNewIdMap_lookup uuid (tasks : list Task.t) i t :
  NoDup (Task.id <$> tasks) -> tasks !! i = Some t ->
  oldIdToNewIdMap uuid tasks !! Task.id t = Some (uuid i).
Proof.
  intros Hnd Hi. unfold oldIdToNewIdMap. apply elem_of_list_to_map_1.
  - rewrite fmap_reverse, reverse_Permutation.
    assert ((imap (fun i task => (Task.id task, uuid i)) tasks).*1 = Task.id <$> tasks) as ->;
      [|done].
    rewrite fmap_imap. rewrite <- (imap_const Task.id). done.
  - apply elem_of_reverse, list_elem_of_lookup. exists i.
    by rewrite list_lookup_imap, Hi.
Qed.

Lemma remapped_ids (m : gmap string string) (ids : list string) (P : string -> string -> Prop) :
  Forall (fun old => exists new, m !! old = Some new /\ new <> EmptyString /\ P old new) ids ->
  Forall2 P ids
    (filter (fun newId => Js.truthy (Some newId) = true) (omap (fun oldId => m !! oldId) ids)).
Proof.
  induction 1 as [|old ids (new & Hm & Hne & HP) _ IH]; [constructor|]. csimpl.
  rewrite Hm. simpl. rewrite filter_cons, decide_True by (by destruct new). by constructor.
Qed.
End TemplateFacts.

Section TemplateClaims.
Import UseProjects.

(** X27: the copy of a consistent template, made with non-empty ids that
    are no group ids of the template, has the tasks of the template in
    order under their new ids, each with the group id it had; its groups
    list, in order, the new ids of the tasks they listed; so no task of the
    copy names a group of the copy. *)
Theorem template_copy_links (uuid : nat -> string) (template : Project.t) :
  Spec.consistent template ->
  (forall n, uuid n <> EmptyString) ->
  (forall n, uuid n ∉ TaskGroup.id <$> Project.groups template) ->
  let copy := addProjectFromTemplate uuid template in
  (forall i t, Project.tasks template !! i = Some t ->
     exists t', Project.tasks copy !! i = Some t'
                /\ Task.id t' = uuid i /\ Task.groupId t' = Task.groupId t)
  /\ (forall j g, Project.groups template !! j = Some g ->
        exists g', Project.groups copy !! j = Some g'
                   /\ Forall2 (fun old new =>
                                 exists i t, Project.tasks template !! i = Some t
                                             /\ Task.id t = old /\ new = uuid i)
                        (TaskGroup.taskIds g) (TaskGroup.taskIds g'))
  /\ (forall t' g', t' ∈ Project.tasks copy -> g' ∈ Project.groups copy ->
        Task.groupId t' <> Some (TaskGroup.id g')).
Proof.
  intros Hp Hne Hfresh copy. pose proof Hp as (Hnd & _ & H1 & H2)%consistent_alt.
  split; [|split].
  - intros i t Hi. unfold copy, addProjectFromTemplate. simpl.
    rewrite list_lookup_imap, Hi. simpl. by eexists.
  - intros j g Hj. eexists. split.
    { unfold copy, addProjectFromTemplate. simpl. by rewrite list_lookup_imap, Hj. }
    simpl. apply remapped_ids. apply Forall_forall. intros old Hold.
    destruct (H2 g) as [_ Hm]; [by eapply list_elem_of_lookup_2|].
    destruct (Hm old Hold) as (t & [i Hi]%list_elem_of_lookup_1 & Hid & _).
    exists (uuid i). split; [by rewrite <- Hid; apply oldIdToNewIdMap_lookup|].
    split; [done|]. by exists i, t.
  - intros t' g' [i Hi]%list_elem_of_lookup_1 [j Hj]%list_elem_of_lookup_1 Hgid.
    unfold copy, addProjectFromTemplate in Hi, Hj. simpl in Hi, Hj.
    rewrite list_lookup_imap in Hi. apply fmap_Some in Hi as (t & Hi & ->).
    rewrite list_lookup_imap in Hj. apply fmap_Some in Hj as (g & _ & ->).
    simpl in Hgid.
    destruct (H1 t _ (list_elem_of_lookup_2 _ _ _ Hi) Hgid) as (grp & Hgrp & Hid & _).
    apply (Hfresh (length (Project.tasks template) + j)%nat).
    rewrite <- Hid. by apply list_elem_of_fmap_2.
Qed.

Lemma template_copy_links_witness :
  ~ Spec.consistent
      (addProjectFromTemplate (fun n => "u" +:+ pretty n) Examples.grouped).
Proof.
  destruct (template_copy_links (fun n => "u" +:+ pretty n) Examples.grouped)
    as (_ & _ & Horphan).
  - apply (bool_decide_unpack _). vm_compute. exact I.
  - intros n. discriminate.
  - intros n Hin. apply list_elem_of_singleton in Hin. discriminate.
  - intros (_ & _ & Hlisted & _). apply Forall_cons in Hlisted as [Hlisted _].
    apply Exists_exists in Hlisted as (g' & Hg' & Hid & _).
    eapply (Horphan _ g'); [left|exact Hg'|]. simpl. by rewrite Hid.
Defined.
End TemplateClaims.

(** * The card of a group after a task was unlinked *)

Section UnlinkCardFacts.
Import DateFns GroupIntervals CalendarView GroupRelationshipView.

(** A list that is already in the order of the comparator is left as it
    is. *)
Lemma sort_sorted {A} (compareFn : A -> A -> Z) (l : list A) :
  StronglySorted (fun a b => compareFn a b <= 0) l -> Js.sort compareFn l = l.
Proof.
  induction 1 as [|x l Hl IH Hx]; [done|]. simpl. rewrite IH.
  destruct l as [|y l']; [done|]. simpl.
  apply Forall_cons in Hx as [Hxy _]. by rewrite (proj2 (Z.leb_le _ _) Hxy).
Qed.

Lemma StronglySorted_rel {A} (R R' : relation A) (l : list A) :
  (forall a b, R a b -> R' a b) -> StronglySorted R l -> StronglySorted R' l.
Proof.
  intros HR. induction 1 as [|x l Hl IH Hx]; constructor; [done|].
  eapply Forall_impl; [exact Hx|]. intros y. apply HR.
Qed.

Lemma StronglySorted_filter {A} (R : relation A) (P : A -> Prop)
    `{!forall x, Decision (P x)} (l : list A) :
  StronglySorted R l -> StronglySorted R (filter P l).
Proof.
  induction 1 as [|x l Hl IH Hx]; [constructor|]. rewrite filter_cons.
  case_decide; [|done]. constructor; [done|]. by apply Forall_filter_keep.
Qed.

(** The tasks of a group of a consistent project, in the order of its
    ids. *)
Lemma groupTasks_ids p grp :
  Spec.consistent p -> grp ∈ Project.groups p ->
  Task.id <$> GroupCard.groupTasks grp (taskMap p) = TaskGroup.taskIds grp
  /\ Forall (fun t => t ∈ Project.tasks p) (GroupCard.groupTasks grp (taskMap p)).
Proof.
  intros Hp Hgrp. pose proof Hp as (Hnd & _)%consistent_alt.
  destruct (members_known p grp Hp Hgrp) as [Hknown _]. unfold GroupCard.groupTasks.
  induction Hknown as [|id ids [t Ht] _ [IH1 IH2]]; [done|]. csimpl.
  rewrite taskMap_findTask, Ht by done. apply findTask_Some in Ht as [Hin <-]. simpl.
  split; [by f_equal|by constructor].
Qed.

Lemma groupTasks_filter p (ids : list string) taskId :
  NoDup (Task.id <$> Project.tasks p) ->
  omap (fun id => taskMap p !! id) (filter (fun id => id <> taskId) ids)
  = filter (fun t => Task.id t <> taskId) (omap (fun id => taskMap p !! id) ids).
Proof.
  intros Hnd. induction ids as [|id ids IH]; [done|]. rewrite filter_cons. csimpl.
  rewrite (taskMap_findTask p id Hnd). destruct (decide (id <> taskId)) as [Hne|Heq].
  - csimpl. rewrite (taskMap_findTask p id Hnd).
    destruct (findTask (Project.tasks p) id) as [t|] eqn:Hf; simpl; [|done].
    apply findTask_Some in Hf as [_ <-]. by rewrite filter_cons, decide_True, IH.
  - destruct (findTask (Project.tasks p) id) as [t|] eqn:Hf; simpl; [|done].
    apply findTask_Some in Hf as [_ <-]. by rewrite filter_cons, decide_False.
Qed.
End UnlinkCardFacts.

Section UnlinkCardClaims.
Import DateFns GroupIntervals CalendarView GroupRelationshipView.

(** X28: unlinking a task keeps the card of its group right when the
    group lists its tasks by start date: in a consistent project, after a
    task is unlinked and others remain, the card shows the remaining tasks
    in their order and, under each but the last, the days from its end to
    the start of the next, or 0 when the next starts earlier. *)
Theorem unlinkTask_card (p : Project.t) (taskId : string) (group : TaskGroup.t) :
  Spec.consistent p ->
  group ∈ Project.groups p ->
  StronglySorted (fun a b => Task.startDate a <= Task.startDate b)
    (GroupCard.groupTasks group (taskMap p)) ->
  filter (fun id => id <> taskId) (TaskGroup.taskIds group) <> [] ->
  exists updated group',
    handleUnlinkTask p false taskId (TaskGroup.id group) = Some updated
    /\ group' ∈ Project.groups updated
    /\ TaskGroup.id group' = TaskGroup.id group
    /\ GroupCard.groupTasks group' (taskMap updated)
       = filter (fun t => Task.id t <> taskId) (GroupCard.groupTasks group (taskMap p))
    /\ forall i a b,
         GroupCard.groupTasks group' (taskMap updated) !! i = Some a ->
         GroupCard.groupTasks group' (taskMap updated) !! S i = Some b ->
         GroupCard.gap group' (taskMap updated) i
         = Some (Z.max 0 (differenceInDays (Task.startDate b) (Task.endDate a))).
Proof.
  intros Hp Hgroup Hsorted Hrem. pose proof Hp as (Hnd & Hgnd & _)%consistent_alt.
  destruct (groupTasks_ids p group Hp Hgroup) as [Hids Hin].
  set (shown := GroupCard.groupTasks group (taskMap p)) in *.
  set (kept := filter (fun t => Task.id t <> taskId) shown).
  set (unlink := fun t => if decide (Task.id t = taskId) then Task.withGroupId t None else t).
  assert (Hremaining : omap (fun id => taskMap p !! id)
                         (filter (fun id => id <> taskId) (TaskGroup.taskIds group)) = kept).
  { by apply groupTasks_filter. }
  assert (Hkept_ids : Task.id <$> kept
                      = filter (fun id => id <> taskId) (TaskGroup.taskIds group)).
  { unfold kept. rewrite <- Hids. clear. induction shown as [|t l IH]; [done|].
    rewrite fmap_cons, !filter_cons. case_decide; [|done]. by rewrite fmap_cons, IH. }
  assert (Hsort : Js.sort compareStart kept = kept).
  { apply sort_sorted. apply StronglySorted_filter.
    eapply StronglySorted_rel; [|exact Hsorted]. intros a b. unfold compareStart. lia. }
  set (group' := TaskGroup.withMembers group
                   (filter (fun id => id <> taskId) (TaskGroup.taskIds group))
                   (computeIntervals kept)).
  set (updated := Project.withTasksGroups p (unlink <$> Project.tasks p)
                    ((fun g => if decide (TaskGroup.id g = TaskGroup.id group)
                               then group' else g) <$> Project.groups p)).
  exists updated, group'. split.
  { unfold handleUnlinkTask. rewrite (find_unique_id _ _ Hgnd Hgroup).
    destruct (Nat.eqb_spec
                (length (filter (fun id => id <> taskId) (TaskGroup.taskIds group))) 0)
      as [Hlen|_]; [by apply length_zero_iff_nil in Hlen|].
    by rewrite Hremaining, Hsort. }
  split.
  { unfold updated. simpl. apply list_elem_of_fmap. exists group. by rewrite decide_True. }
  split; [done|].
  assert (Hcard : GroupCard.groupTasks group' (taskMap updated) = kept).
  { unfold GroupCard.groupTasks, group'. simpl. rewrite <- Hkept_ids.
    rewrite (list_omap_ext _ (fun id => findTask (unlink <$> Project.tasks p) id)
               _ (Task.id <$> kept)).
    - rewrite (find_after_fmap _ unlink); [|done| |].
      + rewrite <- (list_fmap_id kept) at 2. apply list_fmap_ext.
        intros i t [Hid _]%list_elem_of_lookup_2%list_elem_of_filter.
        unfold unlink. by rewrite decide_False.
      + intros t. unfold unlink. by case_decide.
      + apply Forall_filter_keep. exact Hin.
    - apply Forall2_same_length_lookup_2; [done|]. intros i x y Hx Hy.
      assert (y = x) as -> by congruence.
      apply taskMap_findTask. unfold updated. simpl. rewrite task_ids_fmap; [done|].
      intros t. unfold unlink. by case_decide. }
  split; [exact Hcard|].
  intros i a b. unfold GroupCard.gap. rewrite Hcard. intros Ha Hb. unfold group'. simpl.
  apply lookup_lt_Some in Hb as Hlt.
  destruct (Nat.ltb_spec i (length kept - 1)) as [_|]; [|lia].
  by rewrite (computeIntervals_lookup kept i a b).
Qed.

Lemma unlinkTask_card_witness :
  exists updated group',
    handleUnlinkTask Examples.grouped false "A" "g1" = Some updated
    /\ group' ∈ Project.groups updated
    /\ GroupCard.groupTasks group' (taskMap updated) = [Examples.gB].
Proof.
  destruct (unlinkTask_card Examples.grouped "A" Examples.g1)
    as (updated & group' & Hu & Hin & _ & Hcard & _).
  - apply (bool_decide_unpack _). vm_compute. exact I.
  - left.
  - repeat constructor. vm_compute. discriminate.
  - discriminate.
  - exists updated, group'. split; [exact Hu|]. split; [exact Hin|]. by rewrite Hcard.
Defined.
End UnlinkCardClaims.
